(** * Ralph Code: task ledger, dispatch timer and execution pipeline

    A shallow embedding of the task-state Durable Object
    ([RalphStateDO]), the quality gate ([QualityChecker]), the git
    worktree manager ([GitManager]), the execution agent
    ([ExecutionAgent]) and the [/execute] and [/status] routes of the
    execution server, with the properties of the specification stated
    and settled over them.

    Conventions of the embedding:
    - an [async] method is a computation in the monad [Eff]: it threads
      the component's state, records the externally visible effects it
      performs (storage writes, timers, HTTP requests, git commands) in
      order, and either completes normally or throws;
    - everything the code cannot decide by itself (the clock, the random
      generator, the outcome of a subprocess, of a git command or of an
      HTTP request) is read from a record of outcomes given as argument;
    - a plain JavaScript object used as a dictionary is an ordered list
      of own properties, read through the members it inherits from
      [Object.prototype], see [JsObject] and [Store.member];
    - counters ([attempts], [version]) are natural numbers: they start
      at 0 or 1 and only ever grow by one, far below 2^53;
    - a string is the sequence of the characters of its text as the
      source files write them, byte by byte; on ASCII text its length
      and its substrings are those of JavaScript;
    - the bodies of requests are taken at the types that the handlers
      declare for them. *)

From Stdlib Require Import Ascii.
From stdpp Require Import gmap strings list pretty.

Open Scope string_scope.
Open Scope list_scope.

(** ** JavaScript strings *)

Module Js.

(** The line feed, ["\n"]. *)
Definition nl : string := String (Ascii.ascii_of_nat 10) "".

(** [hay.includes(needle)] *)
Fixpoint includes (needle hay : string) : bool :=
  String.prefix needle hay ||
  match hay with
  | "" => false
  | String _ rest => includes needle rest
  end.

(** [s.substring(n)]: what is left after the first [n] characters. *)
Fixpoint substring_from (n : nat) (s : string) : string :=
  match n, s with
  | O, _ => s
  | S _, "" => ""
  | S n', String _ rest => substring_from n' rest
  end.

(** [s.split('\n')[0]] *)
Fixpoint first_line (s : string) : string :=
  match s with
  | "" => ""
  | String c rest =>
      if Ascii.eqb c (Ascii.ascii_of_nat 10) then "" else String c (first_line rest)
  end.

(** [parts.join(sep)] *)
Fixpoint join (sep : string) (parts : list string) : string :=
  match parts with
  | [] => ""
  | [p] => p
  | p :: ps => p +:+ sep +:+ join sep ps
  end.

(** Truthiness of a string: only the empty string is falsy. *)
Definition truthy (s : string) : bool := negb (String.eqb s "").

(** [s || d] on strings. *)
Definition or_else (s d : string) : string := if truthy s then s else d.

End Js.

(** ** Plain objects used as dictionaries

    [Object.entries] lists the own properties of an object with the
    array-index keys first, in ascending numeric order, and then the
    other string keys in the order in which they were created; assigning
    to an existing key keeps its place.  The list holds the own
    properties, which is all that the storage and a JSON text keep of
    the object; the object inherits from [Object.prototype], whose
    members are its eleven functions and the accessor [__proto__]. *)

Module JsObject.

Definition digit_of (c : Ascii.ascii) : option N :=
  let n := Ascii.N_of_ascii c in
  if ((48 <=? n) && (n <=? 57))%N then Some (n - 48)%N else None.

Fixpoint digits_value (s : string) (acc : N) : option N :=
  match s with
  | "" => Some acc
  | String c rest =>
      match digit_of c with
      | Some d => digits_value rest (acc * 10 + d)%N
      | None => None
      end
  end.

(** A key is an array index when it is the canonical decimal writing
    of an integer between 0 and 2^32 - 2. *)
Definition array_index (k : string) : option N :=
  match k with
  | "" => None
  | String c rest =>
      if Ascii.eqb c "0"%char
      then (if String.eqb rest "" then Some 0%N else None)
      else match digits_value k 0 with
           | Some n => if (n <? 2 ^ 32 - 1)%N then Some n else None
           | None => None
           end
  end.

Section WithValues.
Context {V : Type}.

(** The own property [k] of [o]: what [o[k]] yields when
    [Object.hasOwn(o, k)]. *)
Fixpoint get (k : string) (o : list (string * V)) : option V :=
  match o with
  | [] => None
  | (k', v) :: rest => if String.eqb k k' then Some v else get k rest
  end.

(** [o[k].field = ...]: the object stored under [k] is changed in
    place.  When [k] is not an own property of [o], the object that
    [o[k]] yields is not one of [o], whose own properties stay. *)
Fixpoint alter (f : V → V) (k : string) (o : list (string * V)) : list (string * V) :=
  match o with
  | [] => []
  | (k', v) :: rest =>
      if String.eqb k k' then (k', f v) :: rest else (k', v) :: alter f k rest
  end.

(** Creation of the array-index key [k], of value [n]. *)
Fixpoint insert_index (n : N) (k : string) (v : V) (o : list (string * V))
  : list (string * V) :=
  match o with
  | [] => [(k, v)]
  | (k', v') :: rest =>
      match array_index k' with
      | Some m => if (m <? n)%N then (k', v') :: insert_index n k v rest
                  else (k, v) :: o
      | None => (k, v) :: o
      end
  end.

(** [o[k] = v], for an object [v].  The members that [o] inherits are
    writable data properties, over which the assignment creates an own
    property, but for the accessor [__proto__]: its setter makes [v] the
    prototype of [o] and creates no own property. *)
Definition set (k : string) (v : V) (o : list (string * V)) : list (string * V) :=
  match get k o with
  | Some _ => alter (fun _ => v) k o
  | None =>
      if String.eqb k "__proto__" then o
      else match array_index k with
           | Some n => insert_index n k v o
           | None => o ++ [(k, v)]
           end
  end.

(** [Object.entries(o)] *)
Definition entries (o : list (string * V)) : list (string * V) := o.

End WithValues.

(** The functions of [Object.prototype]. *)
Definition object_prototype_functions : list string :=
  ["constructor"; "__defineGetter__"; "__defineSetter__"; "hasOwnProperty";
   "__lookupGetter__"; "__lookupSetter__"; "isPrototypeOf";
   "propertyIsEnumerable"; "toString"; "valueOf"; "toLocaleString"].

End JsObject.

(** ** Computations with state, recorded effects and exceptions

    [Eff St Ev A] is an [async] method that works on a state [St],
    performs effects of type [Ev] and returns an [A]: run from a state,
    it gives how it completed, the state it left and the effects it
    performed, oldest first.  A thrown value is represented by its
    message ([error instanceof Error ? error.message : String(error)]). *)

Inductive Completion (A : Type) : Type :=
| Normal (a : A)
| Throw (message : string).
Arguments Normal {A} a.
Arguments Throw {A} message.

Definition Eff (St Ev A : Type) : Type := St → Completion A * St * list Ev.

Section Eff.
Context {St Ev : Type}.

Definition ret {A} (a : A) : Eff St Ev A := λ s, (Normal a, s, []).

Definition throw {A} (message : string) : Eff St Ev A := λ s, (Throw message, s, []).

Definition bind {A B} (m : Eff St Ev A) (k : A → Eff St Ev B) : Eff St Ev B :=
  λ s, match m s with
       | (Normal a, s1, t1) => let '(r, s2, t2) := k a s1 in (r, s2, t1 ++ t2)
       | (Throw e, s1, t1) => (Throw e, s1, t1)
       end.

(** [try { m } catch (error) { h error }] *)
Definition try_catch {A} (m : Eff St Ev A) (h : string → Eff St Ev A) : Eff St Ev A :=
  λ s, match m s with
       | (Normal a, s1, t1) => (Normal a, s1, t1)
       | (Throw e, s1, t1) => let '(r, s2, t2) := h e s1 in (r, s2, t1 ++ t2)
       end.

Definition get_state : Eff St Ev St := λ s, (Normal s, s, []).

Definition modify_state (f : St → St) : Eff St Ev unit := λ s, (Normal tt, f s, []).

Definition emit (e : Ev) : Eff St Ev unit := λ s, (Normal tt, s, [e]).

(** An external operation whose outcome is given: [None] when it
    resolves, [Some message] when it rejects. *)
Definition settle (outcome : option string) : Eff St Ev unit :=
  match outcome with
  | None => ret tt
  | Some message => throw message
  end.

End Eff.

Notation "x <- m ;; k" := (bind m (λ x, k))
  (at level 20, m at level 99, k at level 200, format "'[v' x  <-  m  ;; '/' k ']'").
Notation "m ;; k" := (bind m (λ _, k))
  (at level 100, k at level 200, right associativity, format "'[v' m  ;; '/' k ']'").

Definition completion {St Ev A} (r : Completion A * St * list Ev) : Completion A := r.1.1.
Definition final_state {St Ev A} (r : Completion A * St * list Ev) : St := r.1.2.
Definition effects {St Ev A} (r : Completion A * St * list Ev) : list Ev := r.2.

(** *** Specifications of computations

    [triple P m Q E]: run from a state that satisfies [P], the
    computation [m] either returns a value [a] in a state that satisfies
    [Q a], or throws [e] in a state that satisfies [E e].  [stateless m]:
    [m] leaves the state as it found it, however it completes. *)

Definition triple {St Ev A} (P : St → Prop) (m : Eff St Ev A)
    (Q : A → St → Prop) (E : string → St → Prop) : Prop :=
  ∀ s, P s →
    match m s with
    | (Normal a, s', _) => Q a s'
    | (Throw e, s', _) => E e s'
    end.

Definition preserves {St Ev A} (I : St → Prop) (m : Eff St Ev A) : Prop :=
  triple I m (λ _, I) (λ _, I).

Definition stateless {St Ev A} (m : Eff St Ev A) : Prop :=
  ∀ s, final_state (m s) = s.

Definition never_throws {St Ev A} (m : Eff St Ev A) : Prop :=
  ∀ s, ∃ a, completion (m s) = Normal a.

(** [emits_only φ m]: every effect of [m] satisfies [φ], however [m]
    completes.  [on_return m Q]: when [m] returns [a] after the effects
    [t], [Q a t] holds. *)
Definition emits_only {St Ev A} (φ : Ev → bool) (m : Eff St Ev A) : Prop :=
  ∀ s, Forall (λ e, φ e = true) (effects (m s)).

Definition on_return {St Ev A} (m : Eff St Ev A) (Q : A → list Ev → Prop) : Prop :=
  ∀ s, match m s with
       | (Normal a, _, t) => Q a t
       | (Throw _, _, _) => True
       end.

(** ** The wire contract between the store and the execution agent *)

Record ExecutionRequest := {
  req_taskId : string;
  req_repoUrl : string;
  req_baseBranch : string;
  req_branchName : string;
  req_prompt : string;
  req_maxIterations : nat;
  req_callbackUrl : string
}.

Record ExecutionResult := {
  res_taskId : string;
  res_success : bool;
  res_prUrl : option string;
  res_error : option string;
  res_logs : string;
  res_learnings : list string;
  res_testsPass : bool;
  res_typecheckPass : bool;
  res_duration : Z
}.

(** A reading of the clock: [Date.now()] and [new Date().toISOString()]. *)
Record Clock := { now_ms : Z; now_iso : string }.

(** ** The task state store ([RalphStateDO]) *)

Module Store.

(** The variables and secrets of the worker that the store reads. *)
Record Env := {
  VIBE_PROJECT_NAME : string;
  GITHUB_REPO_OWNER : string;
  GITHUB_REPO_NAME : string;
  EXECUTION_SERVER_URL : string;
  EXECUTION_SERVER_TOKEN : string
}.

(** A task of the backlog, with the fields the store reads. *)
Record Task := {
  task_id : string;
  task_title : string;
  task_description : string;
  task_branch : string
}.

Record PRDEntry := {
  description : string;
  branchName : string;
  passes : bool;
  prUrl : option string;
  attempts : nat;
  lastAttemptAt : option string;
  error : option string
}.

Record PRD := {
  projectName : string;
  tasks : list (string * PRDEntry);
  version : nat;
  updatedAt : string
}.

Record ProgressEntry := {
  pe_timestamp : string;
  pe_taskId : string;
  pe_description : string;
  pe_learnings : list string;
  pe_filesChanged : list string
}.

(** What [Object.prototype] has been given, beyond its standard
    members, in the isolate where the actor runs.  [complete] and [fail]
    on the id [__proto__] assign to [Object.prototype] itself: these are
    the properties they create there, with the values they can give
    them, [None] for a property that is missing or [undefined].  (They
    also make [attempts] a [NaN], which reads like a missing property
    wherever the code reads it, and is left out.) *)
Record Prototype := {
  given_passes : option bool;
  given_prUrl : option string;
  given_lastAttemptAt : option string;
  given_error : option string
}.

(** [Object.prototype] with its standard members only. *)
Definition standard_prototype : Prototype :=
  {| given_passes := None; given_prUrl := None;
     given_lastAttemptAt := None; given_error := None |}.

(** The state of one project actor: its durable storage, that is the
    two keys ['prd'] and ['progress'] and the alarm, and the
    [Object.prototype] of its isolate. *)
Record Storage := {
  stored_prd : option PRD;
  stored_progress : option string;
  alarm_time : option Z;
  object_prototype : Prototype
}.

Inductive Effect :=
| StoragePutPRD (prd : PRD)
| StoragePutProgress (progress : string)
| StorageSetAlarm (scheduledTime : Z)
| HttpPostExecute (url authorization : string) (body : ExecutionRequest).

Inductive Body :=
| BodyOk
| BodyOkTask (taskId : string)
| BodyError (message : string)
| BodyNextTask (next : option (string * PRDEntry))
| BodyPRD (prd : PRD)
| BodyProgress (progress : string).

Record Response := { status : nat; body : Body }.

Definition DO (A : Type) : Type := Eff Storage Effect A.

(** [this.state.storage.put('prd', prd)] *)
Definition storage_put_prd (prd : PRD) : DO unit :=
  modify_state (λ s, {| stored_prd := Some prd;
                        stored_progress := stored_progress s;
                        alarm_time := alarm_time s;
                        object_prototype := object_prototype s |}) ;;
  emit (StoragePutPRD prd).

(** [this.state.storage.put('progress', progress)] *)
Definition storage_put_progress (progress : string) : DO unit :=
  modify_state (λ s, {| stored_prd := stored_prd s;
                        stored_progress := Some progress;
                        alarm_time := alarm_time s;
                        object_prototype := object_prototype s |}) ;;
  emit (StoragePutProgress progress).

(** [this.state.storage.setAlarm(scheduledTime)] *)
Definition storage_setAlarm (scheduledTime : Z) : DO unit :=
  modify_state (λ s, {| stored_prd := stored_prd s;
                        stored_progress := stored_progress s;
                        alarm_time := Some scheduledTime;
                        object_prototype := object_prototype s |}) ;;
  emit (StorageSetAlarm scheduledTime).

(** [fetch(url, {method: 'POST', headers, body})], which rejects with
    [message] when [outcome] is [Some message]. *)
Definition http_post_execute (outcome : option string)
    (url authorization : string) (body : ExecutionRequest) : DO unit :=
  emit (HttpPostExecute url authorization body) ;;
  settle outcome.

Definition set_tasks (ts : list (string * PRDEntry)) (prd : PRD) : PRD :=
  {| projectName := projectName prd; tasks := ts;
     version := version prd; updatedAt := updatedAt prd |}.

(** [prd.version++; prd.updatedAt = new Date().toISOString()] *)
Definition touch (now : string) (prd : PRD) : PRD :=
  {| projectName := projectName prd; tasks := tasks prd;
     version := version prd + 1; updatedAt := now |}.

(** [task.attempts++] *)
Definition bump_attempts (t : PRDEntry) : PRDEntry :=
  {| description := description t; branchName := branchName t;
     passes := passes t; prUrl := prUrl t;
     attempts := attempts t + 1;
     lastAttemptAt := lastAttemptAt t; error := error t |}.

(** [!task.passes && task.attempts < 3] *)
Definition eligible (t : PRDEntry) : bool := negb (passes t) && (attempts t <? 3)%nat.

(** What [prd.tasks[taskId]] yields: an entry of the ledger, a function
    or the accessor [__proto__] inherited from [Object.prototype], that
    is [Object.prototype] itself, a truthy primitive value that
    [Object.prototype] has been given under that name, or a falsy
    value, [undefined] when there is no such property at all. *)
Inductive Member :=
| OwnEntry (task : PRDEntry)
| PrototypeFunction
| PrototypeObject
| Primitive (type text : string)
| Falsy.

Definition given_string (value : option string) : Member :=
  match value with
  | Some text => if Js.truthy text then Primitive "string" text else Falsy
  | None => Falsy
  end.

Definition member (given : Prototype) (taskId : string)
    (tasks : list (string * PRDEntry)) : Member :=
  match JsObject.get taskId tasks with
  | Some task => OwnEntry task
  | None =>
      if bool_decide (taskId ∈ JsObject.object_prototype_functions)
      then PrototypeFunction
      else if String.eqb taskId "__proto__" then PrototypeObject
      else if String.eqb taskId "passes"
      then match given_passes given with
           | Some true => Primitive "boolean" "true"
           | _ => Falsy
           end
      else if String.eqb taskId "prUrl" then given_string (given_prUrl given)
      else if String.eqb taskId "lastAttemptAt"
      then given_string (given_lastAttemptAt given)
      else if String.eqb taskId "error" then given_string (given_error given)
      else Falsy
  end.

(** The message of the [TypeError] that strict code throws when it
    assigns to the property [name] of a primitive value. *)
Definition cannot_create_property (name type text : string) : string :=
  "Cannot create property '" +:+ name +:+ "' on " +:+ type +:+ " '" +:+ text +:+ "'".

(** [object.field], for an optional field of an object read from JSON:
    where the object has no such property, the one that
    [Object.prototype] has been given is read. *)
Definition read_optional {A} (own given : option A) : option A :=
  match own with
  | Some a => Some a
  | None => given
  end.

(** An assignment to properties of [Object.prototype]. *)
Definition give {Ev} (given : Prototype) : Eff Storage Ev unit :=
  modify_state (λ s, {| stored_prd := stored_prd s;
                        stored_progress := stored_progress s;
                        alarm_time := alarm_time s;
                        object_prototype := given |}).

Section Handlers.
Variable env : Env.
Variable clock : Clock.

(** The PRD that [getPRD] creates when none is stored. *)
Definition initial_prd : PRD :=
  {| projectName := Js.or_else (VIBE_PROJECT_NAME env) "rocket";
     tasks := [];
     version := 1;
     updatedAt := now_iso clock |}.

(** [getPRD]: get or initialize the PRD. *)
Definition getPRD : DO PRD :=
  s <- get_state ;;
  match stored_prd s with
  | Some prd => ret prd
  | None =>
      let prd := initial_prd in
      storage_put_prd prd ;;
      ret prd
  end.

(** [getProgress] *)
Definition getProgress : DO string :=
  s <- get_state ;;
  ret (match stored_progress s with
       | Some progress => Js.or_else progress ""
       | None => ""
       end).

(** The text [appendProgress] adds to the progress log for [entry]. *)
Definition render_progress (entry : ProgressEntry) : string :=
  Js.join Js.nl
    ([Js.nl +:+ "## " +:+ pe_timestamp entry +:+ " - " +:+ pe_taskId entry;
      pe_description entry;
      "";
      "### Learnings"]
     ++ map (λ l, "- " +:+ l) (pe_learnings entry)
     ++ [""]
     ++ (if (0 <? length (pe_filesChanged entry))%nat
         then ["### Files Changed"]
              ++ map (λ f, "- " +:+ f) (pe_filesChanged entry) ++ [""]
         else [])).

(** [appendProgress] *)
Definition appendProgress (entry : ProgressEntry) : DO unit :=
  progress <- getProgress ;;
  storage_put_progress (progress +:+ render_progress entry).

(** [handleEnqueue] *)
Definition handleEnqueue (task : Task) : DO Response :=
  prd <- getPRD ;;
  let prd :=
    set_tasks (JsObject.set (task_id task)
                 {| description := task_description task;
                    branchName := task_branch task;
                    passes := false;
                    prUrl := None;
                    attempts := 0;
                    lastAttemptAt := None;
                    error := None |}
                 (tasks prd)) prd in
  let prd := touch (now_iso clock) prd in
  storage_put_prd prd ;;
  storage_setAlarm (now_ms clock + 1000) ;;
  ret {| status := 200; body := BodyOkTask (task_id task) |}.

(** [handleComplete].  The guard [!prd.tasks[data.taskId]] lets every
    truthy member through.  The assignments that follow change the
    entry, when the member is one; they throw on a primitive value, at
    the first of them; on [Object.prototype] they give it the three
    properties; on one of its functions they change that function
    object, which nothing reads.  [data.result.prUrl] is an optional
    field, and the [description] of a member that is not an entry is
    [undefined]. *)
Definition handleComplete (taskId : string) (result : ExecutionResult) : DO Response :=
  prd <- getPRD ;;
  s <- get_state ;;
  let given := object_prototype s in
  match member given taskId (tasks prd) with
  | Falsy => ret {| status := 404; body := BodyError "Task not found" |}
  | Primitive type text => throw (cannot_create_property "passes" type text)
  | target =>
      let url := read_optional (res_prUrl result) (given_prUrl given) in
      match target with
      | PrototypeObject =>
          give {| given_passes := Some (res_success result);
                  given_prUrl := url;
                  given_lastAttemptAt := Some (now_iso clock);
                  given_error := given_error given |}
      | _ => ret tt
      end ;;
      let prd :=
        set_tasks (JsObject.alter
                     (λ t, {| description := description t;
                              branchName := branchName t;
                              passes := res_success result;
                              prUrl := url;
                              attempts := attempts t;
                              lastAttemptAt := Some (now_iso clock);
                              error := error t |})
                     taskId (tasks prd)) prd in
      let prd := touch (now_iso clock) prd in
      storage_put_prd prd ;;
      (if (0 <? length (res_learnings result))%nat
       then appendProgress
              {| pe_timestamp := now_iso clock;
                 pe_taskId := taskId;
                 pe_description :=
                   match target with
                   | OwnEntry t => description t
                   | _ => "undefined"
                   end;
                 pe_learnings := res_learnings result;
                 pe_filesChanged := [] |}
       else ret tt) ;;
      ret {| status := 200; body := BodyOk |}
  end.

(** [handleFail], with the same guard and the same kind of
    assignments. *)
Definition handleFail (taskId : string) (message : string) : DO Response :=
  prd <- getPRD ;;
  s <- get_state ;;
  let given := object_prototype s in
  match member given taskId (tasks prd) with
  | Falsy => ret {| status := 404; body := BodyError "Task not found" |}
  | Primitive type text => throw (cannot_create_property "passes" type text)
  | target =>
      match target with
      | PrototypeObject =>
          give {| given_passes := Some false;
                  given_prUrl := given_prUrl given;
                  given_lastAttemptAt := Some (now_iso clock);
                  given_error := Some message |}
      | _ => ret tt
      end ;;
      let prd :=
        set_tasks (JsObject.alter
                     (λ t, {| description := description t;
                              branchName := branchName t;
                              passes := false;
                              prUrl := prUrl t;
                              attempts := attempts t + 1;
                              lastAttemptAt := Some (now_iso clock);
                              error := Some message |})
                     taskId (tasks prd)) prd in
      let prd := touch (now_iso clock) prd in
      storage_put_prd prd ;;
      ret {| status := 200; body := BodyOk |}
  end.

(** The loop of [handleGetNextTask]: the first task that has not passed
    and has fewer than 3 attempts. *)
Fixpoint first_eligible (entries : list (string * PRDEntry)) : option (string * PRDEntry) :=
  match entries with
  | [] => None
  | (taskId, task) :: rest =>
      if eligible task then Some (taskId, task) else first_eligible rest
  end.

(** [handleGetNextTask] *)
Definition handleGetNextTask : DO Response :=
  prd <- getPRD ;;
  ret {| status := 200;
         body := BodyNextTask (first_eligible (JsObject.entries (tasks prd))) |}.

(** [handleGetPRD] *)
Definition handleGetPRD : DO Response :=
  prd <- getPRD ;;
  ret {| status := 200; body := BodyPRD prd |}.

(** [handleGetProgress] *)
Definition handleGetProgress : DO Response :=
  progress <- getProgress ;;
  ret {| status := 200; body := BodyProgress progress |}.

(** [handleUpdateProgress] *)
Definition handleUpdateProgress (entry : ProgressEntry) : DO Response :=
  appendProgress entry ;;
  ret {| status := 200; body := BodyOk |}.

(** The request the alarm handler sends for [taskId]. *)
Definition execution_request (taskId : string) (task : PRDEntry) : ExecutionRequest :=
  {| req_taskId := taskId;
     req_repoUrl := "https://github.com/" +:+ GITHUB_REPO_OWNER env +:+ "/"
                    +:+ GITHUB_REPO_NAME env +:+ ".git";
     req_baseBranch := "main";
     req_branchName := branchName task;
     req_prompt := description task;
     req_maxIterations := 10;
     req_callbackUrl := "https://ralph-coordinator." +:+ EXECUTION_SERVER_URL env
                        +:+ "/callbacks/execution" |}.

(** The loop of [alarm] over [Object.entries(prd.tasks)], up to its
    [break]: the first eligible entry is found and its [attempts] is
    incremented.  [task] is the very object held by [prd.tasks], so the
    increment is seen in the ledger, at the place of that entry.  The
    result is the key, the entry after the increment, and the ledger's
    tasks after it. *)
Fixpoint alarm_scan (entries : list (string * PRDEntry))
  : option (string * PRDEntry * list (string * PRDEntry)) :=
  match entries with
  | [] => None
  | (taskId, task) :: rest =>
      if eligible task
      then Some (taskId, bump_attempts task, (taskId, bump_attempts task) :: rest)
      else match alarm_scan rest with
           | Some (taskId', task', rest') => Some (taskId', task', (taskId, task) :: rest')
           | None => None
           end
  end.

(** [alarm]: the handler of the dispatch timer.  [fetch_outcome] is the
    outcome of the request to the execution server. *)
Definition alarm (fetch_outcome : option string) : DO unit :=
  prd <- getPRD ;;
  match alarm_scan (JsObject.entries (tasks prd)) with
  | Some (taskId, task, tasks') =>
      storage_put_prd (set_tasks tasks' prd) ;;
      try_catch
        (http_post_execute fetch_outcome
           (EXECUTION_SERVER_URL env +:+ "/execute")
           ("Bearer " +:+ EXECUTION_SERVER_TOKEN env)
           (execution_request taskId task))
        (λ _, ret tt)
  | None => ret tt
  end.

(** *** What a caller observes of the store

    Every handler starts with [getPRD], which stores the initial PRD
    when the storage holds none.  [ledger s] is the PRD a handler works
    on in the storage [s], [initialised s] the storage once [getPRD] has
    run, and [initialisation s] the write this takes. *)

Definition ledger (s : Storage) : PRD := default initial_prd (stored_prd s).

Definition initialised (s : Storage) : Storage :=
  {| stored_prd := Some (ledger s);
     stored_progress := stored_progress s;
     alarm_time := alarm_time s;
     object_prototype := object_prototype s |}.

Definition initialisation (s : Storage) : list Effect :=
  match stored_prd s with
  | Some _ => []
  | None => [StoragePutPRD initial_prd]
  end.

(** The ledger entry of [taskId]: the own property of [prd.tasks]
    that the storage holds under that id. *)
Definition entry_of (s : Storage) (taskId : string) : option PRDEntry :=
  JsObject.get taskId (tasks (ledger s)).

(** The progress log, as [getProgress] reads it. *)
Definition progress_log (s : Storage) : string :=
  match stored_progress s with
  | Some progress => Js.or_else progress ""
  | None => ""
  end.

End Handlers.

(** *** The life of a project actor

    The runtime takes the alarm off the storage when it fires, before it
    runs the handler; it fires an alarm only if one is set. *)
Definition alarm_taken (s : Storage) : Storage :=
  {| stored_prd := stored_prd s;
     stored_progress := stored_progress s;
     alarm_time := None;
     object_prototype := object_prototype s |}.

(** The actor in an isolate whose [Object.prototype] is [given]. *)
Definition in_isolate (given : Prototype) (s : Storage) : Storage :=
  {| stored_prd := stored_prd s;
     stored_progress := stored_progress s;
     alarm_time := alarm_time s;
     object_prototype := given |}.

(** One request served, or one firing of the timer; or the actor is
    started anew in another isolate, or another actor of its isolate
    assigns to [Object.prototype]. *)
Inductive step (env : Env) : Storage → Storage → Prop :=
| step_enqueue clock task s :
    step env s (final_state (handleEnqueue env clock task s))
| step_complete clock taskId result s :
    step env s (final_state (handleComplete env clock taskId result s))
| step_fail clock taskId message s :
    step env s (final_state (handleFail env clock taskId message s))
| step_get_next_task clock s :
    step env s (final_state (handleGetNextTask env clock s))
| step_get_prd clock s :
    step env s (final_state (handleGetPRD env clock s))
| step_get_progress s :
    step env s (final_state (handleGetProgress s))
| step_update_progress entry s :
    step env s (final_state (handleUpdateProgress entry s))
| step_alarm clock fetch_outcome scheduledTime s :
    alarm_time s = Some scheduledTime →
    step env s (final_state (alarm env clock fetch_outcome (alarm_taken s)))
| step_isolate given s :
    step env s (in_isolate given s).

(** The storage of an actor that was never addressed. *)
Definition storage_empty : Storage :=
  {| stored_prd := None; stored_progress := None; alarm_time := None;
     object_prototype := standard_prototype |}.

(** The storages an actor can be in. *)
Definition reachable (env : Env) (s : Storage) : Prop := rtc (step env) storage_empty s.

Definition is_set_alarm (e : Effect) : bool :=
  match e with StorageSetAlarm _ => true | _ => false end.

Definition is_post_execute (e : Effect) : bool :=
  match e with HttpPostExecute _ _ _ => true | _ => false end.

Definition is_put_progress (e : Effect) : bool :=
  match e with StoragePutProgress _ => true | _ => false end.

End Store.

(** ** The execution server: what it does to the outside, and what the
    outside answers *)

Module Server.

(** The effects of the execution server that are visible outside its
    process. *)
Inductive Effect :=
| Exec (command cwd : string)
| GitCommand (cwd : string) (args : list string)
| FsMkdir (path : string)
| FsWriteFile (path content : string)
| RunClaude (cwd promptFile : string) (maxIterations : nat)
| HttpPostCallback (url : string) (result : ExecutionResult).

(** The external operations of one execution, named after the call that
    performs them. *)
Inductive Op :=
| AccessGitDir | FetchExisting | MkdirWorkspace | Clone
| MkdirWorktrees | WorktreeRemoveStale | FetchOrigin | WorktreeAdd
| AccessNodeModules | NpmInstall
| ReadProgressFile | MkdirRalph | WritePromptFile
| AccessPackageJson | NpmRunTypecheck | NpxTsc | NpmTest | NpmRunLint
| StatusChanged | AddConfigName | AddConfigEmail | AddAll | StatusStaged
| Commit | Push
| PostCallback | WorktreeRemove.

#[global] Instance Op_eq_dec : EqDecision Op.
Proof. solve_decision. Defined.

Record ClaudeRunResult := {
  claude_success : bool;
  claude_output : string;
  claude_completed : bool;
  claude_iterationsUsed : nat
}.

(** What the outside answers during one execution.  [outcome op] is
    [None] when [op] succeeds and [Some message] when it fails with an
    error of that message; the other fields are the data read. *)
Record World := {
  outcome : Op → option string;
  claude : ClaudeRunResult;
  progress_file : string;
  changed_files : list string;
  staged_files : list string;
  callback_response_ok : bool;
  id_now : Z;
  id_random : string;
  started : Clock;
  finished : Clock;
  GIT_AUTHOR_NAME : string;
  GIT_AUTHOR_EMAIL : string
}.

Inductive Status := pending | running | completed | failed | cancelled.

Record ExecutionState := {
  exec_id : string;
  exec_taskId : string;
  exec_status : Status;
  exec_startedAt : string;
  exec_completedAt : option string;
  exec_worktreePath : option string;
  exec_logs : list string;
  exec_learnings : list string
}.

(** The state of the server process: the [executions] map of the agent,
    and the worktree directories present on its disk. *)
Record State := {
  executions : gmap string ExecutionState;
  worktrees : gset string
}.

Definition Run (A : Type) : Type := Eff State Effect A.

(** [path.split('/')] *)
Fixpoint path_segments (path : string) : list string :=
  match path with
  | "" => [""]
  | String c rest =>
      match path_segments rest with
      | segment :: segments =>
          if Ascii.eqb c "/"%char then "" :: segment :: segments
          else String c segment :: segments
      | [] => [String c ""]
      end
  end.

(** The segments of a normalised path, last one first: empty segments
    and ["."] are dropped, and [".."] takes the segment before it away;
    where there is none, or another [".."], it stays if the path is
    relative ([above]) and is dropped if not. *)
Fixpoint normalize_segments (above : bool) (segments kept : list string) : list string :=
  match segments with
  | [] => kept
  | segment :: rest =>
      if String.eqb segment "" || String.eqb segment "."
      then normalize_segments above rest kept
      else if String.eqb segment ".."
      then match kept with
           | last :: before =>
               if String.eqb last ".."
               then normalize_segments above rest
                      (if above then ".." :: kept else kept)
               else normalize_segments above rest before
           | [] => normalize_segments above rest (if above then [".."] else [])
           end
      else normalize_segments above rest (segment :: kept)
  end.

(** Whether [path] ends with a slash. *)
Fixpoint trailing_slash (path : string) : bool :=
  match path with
  | "" => false
  | String c "" => Ascii.eqb c "/"%char
  | String _ rest => trailing_slash rest
  end.

(** [path.normalize(path)], for the POSIX paths of the server. *)
Definition path_normalize (path : string) : string :=
  if String.eqb path "" then "."
  else
    let absolute := String.prefix "/" path in
    let trailing := trailing_slash path in
    let body :=
      Js.join "/" (rev (normalize_segments (negb absolute) (path_segments path) [])) in
    if String.eqb body ""
    then (if absolute then "/" else if trailing then "./" else ".")
    else (if absolute then "/" else "") +:+ body +:+ (if trailing then "/" else "").

(** [path.join(...)]: the segments that are not empty, joined by a
    slash, and the result normalised. *)
Definition path_join (segments : list string) : string :=
  match List.filter Js.truthy segments with
  | [] => "."
  | given => path_normalize (Js.join "/" given)
  end.

(** An external operation: it is recorded, and it resolves or rejects
    as the world says. *)
Definition perform (w : World) (op : Op) (e : Effect) : Run unit :=
  emit e ;; settle (outcome w op).

(** A check or a read that leaves no trace outside. *)
Definition probe (w : World) (op : Op) : Run unit := settle (outcome w op).

Definition is_callback (e : Effect) : bool :=
  match e with HttpPostCallback _ _ => true | _ => false end.

(** The git commands [commit] and [push]. *)
Definition is_commit_or_push (e : Effect) : bool :=
  match e with
  | GitCommand _ (verb :: _) => String.eqb verb "commit" || String.eqb verb "push"
  | _ => false
  end.

(** [git worktree remove ...] *)
Definition is_worktree_remove (e : Effect) : bool :=
  match e with
  | GitCommand _ (verb :: action :: _) =>
      String.eqb verb "worktree" && String.eqb action "remove"
  | _ => false
  end.

(** Neither a callback nor a commit nor a push. *)
Definition is_local (e : Effect) : bool :=
  negb (is_callback e) && negb (is_commit_or_push e).

(** The ids under which the [executions] map holds a state. *)
Definition keys_are (ids : gset string) (s : State) : Prop :=
  dom (executions s) = ids.

(** The worktree path recorded in the state of an execution. *)
Definition worktree_of (executionId : string) (s : State) : option string :=
  executions s !! executionId ≫= exec_worktreePath.

End Server.

(** ** The quality gate ([QualityChecker]) *)

Module QualityChecker.
Import Server.

Record QualityCheckResult := {
  typecheck : bool;
  tests : bool;
  lint : bool;
  errors : list string
}.

Definition set_typecheck (b : bool) (r : QualityCheckResult) : QualityCheckResult :=
  {| typecheck := b; tests := tests r; lint := lint r; errors := errors r |}.

Definition set_tests (b : bool) (r : QualityCheckResult) : QualityCheckResult :=
  {| typecheck := typecheck r; tests := b; lint := lint r; errors := errors r |}.

Definition set_lint (b : bool) (r : QualityCheckResult) : QualityCheckResult :=
  {| typecheck := typecheck r; tests := tests r; lint := b; errors := errors r |}.

(** [results.errors.push(message)] *)
Definition push_error (message : string) (r : QualityCheckResult) : QualityCheckResult :=
  {| typecheck := typecheck r; tests := tests r; lint := lint r;
     errors := errors r ++ [message] |}.

Section Checker.
Variable w : World.
Variable worktreePath : string.

(** [execAsync(command, {cwd: this.worktreePath, ...})] *)
Definition execAsync (op : Op) (command : string) : Run unit :=
  perform w op (Exec command worktreePath).

(** [runTypecheck] *)
Definition runTypecheck : Run bool :=
  try_catch
    (execAsync NpmRunTypecheck "npm run typecheck" ;; ret true)
    (λ message,
       if Js.includes "Missing script" message
       then try_catch (execAsync NpxTsc "npx tsc --noEmit" ;; ret true)
                      (λ tscError, throw tscError)
       else throw message).

(** [runTests] *)
Definition runTests : Run bool :=
  try_catch
    (execAsync NpmTest "npm test" ;; ret true)
    (λ message,
       if Js.includes "Missing script" message
       then ret true
       else throw message).

(** [runLint] *)
Definition runLint : Run bool :=
  try_catch
    (execAsync NpmRunLint "npm run lint" ;; ret true)
    (λ message,
       if Js.includes "Missing script" message
       then ret true
       else ret true).

(** [runAll] *)
Definition runAll : Run QualityCheckResult :=
  let results := {| typecheck := false; tests := false; lint := false; errors := [] |} in
  found <- try_catch (probe w AccessPackageJson ;; ret true) (λ _, ret false) ;;
  if negb found then ret (push_error "No package.json found" results)
  else
    results <- try_catch (b <- runTypecheck ;; ret (set_typecheck b results))
                 (λ message, ret (push_error ("Typecheck failed: " +:+ message) results)) ;;
    results <- try_catch (b <- runTests ;; ret (set_tests b results))
                 (λ message, ret (push_error ("Tests failed: " +:+ message) results)) ;;
    results <- try_catch (b <- runLint ;; ret (set_lint b results))
                 (λ _, ret (set_lint true results)) ;;
    ret results.

(** [installDependencies] *)
Definition installDependencies : Run unit :=
  try_catch
    (present <- try_catch (probe w AccessNodeModules ;; ret true) (λ _, ret false) ;;
     if present then ret tt else execAsync NpmInstall "npm install")
    (λ message, throw message).

End Checker.

End QualityChecker.

(** ** The worktree manager ([GitManager]) *)

Module GitManager.
Import Server.

(** [path.dirname(path)] *)
Fixpoint before_last_slash (path : string) : option string :=
  match path with
  | "" => None
  | String c rest =>
      match before_last_slash rest with
      | Some dir => Some (String c dir)
      | None => if Ascii.eqb c "/"%char then Some "" else None
      end
  end.

Definition dirname (path : string) : string :=
  match before_last_slash path with
  | Some dir => Js.or_else dir "/"
  | None => "."
  end.

Definition disk_add (path : string) : Run unit :=
  modify_state (λ s, {| executions := executions s; worktrees := {[path]} ∪ worktrees s |}).

Definition disk_remove (path : string) : Run unit :=
  modify_state (λ s, {| executions := executions s; worktrees := worktrees s ∖ {[path]} |}).

Section Manager.
Variable w : World.

(** [GitManager.cloneIfNeeded] *)
Definition cloneIfNeeded (repoUrl targetPath : string) : Run unit :=
  try_catch
    (probe w AccessGitDir ;;
     perform w FetchExisting (GitCommand targetPath ["fetch"; "origin"]))
    (λ _,
       perform w MkdirWorkspace (FsMkdir (dirname targetPath)) ;;
       perform w Clone (GitCommand "" ["clone"; repoUrl; targetPath])).

Variable repoPath : string.

(** [createWorktree] *)
Definition createWorktree (branchName baseBranch : string) : Run string :=
  let worktreePath := path_join [repoPath; ".worktrees"; branchName] in
  perform w MkdirWorktrees (FsMkdir (path_join [repoPath; ".worktrees"])) ;;
  try_catch
    (perform w WorktreeRemoveStale
       (GitCommand repoPath ["worktree"; "remove"; worktreePath; "--force"]) ;;
     disk_remove worktreePath)
    (λ _, ret tt) ;;
  perform w FetchOrigin (GitCommand repoPath ["fetch"; "origin"]) ;;
  try_catch
    (perform w WorktreeAdd
       (GitCommand repoPath
          ["worktree"; "add"; "-B"; branchName; worktreePath; "origin/" +:+ baseBranch]) ;;
     disk_add worktreePath)
    (λ message, throw ("Failed to create worktree: " +:+ message)) ;;
  ret worktreePath.

(** [deleteWorktree] *)
Definition deleteWorktree (worktreePath : string) : Run unit :=
  try_catch
    (perform w WorktreeRemove
       (GitCommand repoPath ["worktree"; "remove"; worktreePath; "--force"]) ;;
     disk_remove worktreePath)
    (λ _, ret tt).

(** [commit] *)
Definition commit (worktreePath message : string) : Run unit :=
  let authorName := Js.or_else (GIT_AUTHOR_NAME w) "seecretly" in
  let authorEmail := Js.or_else (GIT_AUTHOR_EMAIL w) "seecretly@users.noreply.github.com" in
  perform w AddConfigName (GitCommand worktreePath ["config"; "user.name"; authorName]) ;;
  perform w AddConfigEmail (GitCommand worktreePath ["config"; "user.email"; authorEmail]) ;;
  perform w AddAll (GitCommand worktreePath ["add"; "."]) ;;
  probe w StatusStaged ;;
  if (length (staged_files w) =? 0)%nat then throw "No changes to commit"
  else
    perform w Commit
      (GitCommand worktreePath
         ["commit"; "-m"; message;
          "--author=" +:+ authorName +:+ " <" +:+ authorEmail +:+ ">"]).

(** [push] *)
Definition push (worktreePath branchName : string) : Run unit :=
  perform w Push
    (GitCommand worktreePath ["push"; "origin"; branchName; "--set-upstream"; "--force"]).

(** [getChangedFiles] *)
Definition getChangedFiles (worktreePath : string) : Run (list string) :=
  probe w StatusChanged ;;
  ret (changed_files w).

End Manager.

End GitManager.

(** ** The agent runner ([ClaudeRunner]) *)

Module ClaudeRunner.
Import Server.

(** The prompt written by [generatePromptFile]. *)
Definition render_prompt (taskDescription progressContext : string) : string :=
  Js.join Js.nl
    ["# Task"; "";
     taskDescription; "";
     "## Context"; "";
     "Repository: naturaumana-ai/rocket";
     "Technology Stack: Cloudflare Workers, TypeScript, Supabase, Twilio"; "";
     "## Requirements"; "";
     "- All tests must pass (`npm test`)";
     "- TypeScript must compile without errors (`npm run typecheck`)";
     "- Code must follow existing patterns in the repository";
     "- Changes should be isolated to relevant files only"; "";
     (if Js.truthy progressContext
      then "## Previous Learnings" +:+ Js.nl +:+ Js.nl +:+ progressContext +:+ Js.nl
      else ""); "";
     "## Success Criteria"; "";
     "When the task is complete and all requirements are met, respond with:"; "";
     "<promise>COMPLETE</promise>"; "";
     "## Important Notes"; "";
     "- Read the codebase thoroughly before making changes";
     "- Follow existing code patterns and conventions";
     "- Test your changes before marking complete";
     "- Keep the implementation simple and focused";
     ""].

Section Runner.
Variable w : World.

(** [ClaudeRunner.generatePromptFile] *)
Definition generatePromptFile (worktreePath taskDescription progressContext : string)
  : Run string :=
  let promptPath := path_join [worktreePath; ".ralph"; "prompt.md"] in
  perform w MkdirRalph (FsMkdir (path_join [worktreePath; ".ralph"])) ;;
  perform w WritePromptFile
    (FsWriteFile promptPath (render_prompt taskDescription progressContext)) ;;
  ret promptPath.

(** [run]: the coding agent is launched and its transcript collected;
    every failure (unreadable prompt, spawn error, timeout) is caught
    inside [run] and reported as [success = false]. *)
Definition run (worktreePath promptFile : string) (maxIterations : nat)
  : Run ClaudeRunResult :=
  emit (RunClaude worktreePath promptFile maxIterations) ;;
  ret (claude w).

End Runner.

End ClaudeRunner.

(** ** The execution agent ([ExecutionAgent]) *)

Module ExecutionAgent.
Import Server.

Section Agent.
(** [this.workspaceRoot] *)
Variable workspaceRoot : string.
(** [ClaudeRunner.extractLearnings]: the regular-expression mining of the
    transcript, a pure function of it; which sentences it keeps plays no
    part in the pipeline's control flow. *)
Variable extractLearnings : string → list string.
Variable w : World.

(** [generateExecutionId] *)
Definition generateExecutionId : string :=
  "exec-" +:+ pretty (id_now w) +:+ "-" +:+ Js.substring_from 7 (id_random w).

(** The object [state], as the [executions] map holds it: the local
    variable and the map entry are one and the same object. *)
Definition blank_state (executionId : string) (request : ExecutionRequest) : ExecutionState :=
  {| exec_id := executionId;
     exec_taskId := req_taskId request;
     exec_status := running;
     exec_startedAt := now_iso (started w);
     exec_completedAt := None;
     exec_worktreePath := None;
     exec_logs := [];
     exec_learnings := [] |}.

Definition read_state (executionId : string) (request : ExecutionRequest)
  : Run ExecutionState :=
  s <- get_state ;;
  ret (default (blank_state executionId request) (executions s !! executionId)).

Definition update_state (executionId : string) (f : ExecutionState → ExecutionState)
  : Run unit :=
  modify_state (λ s, {| executions := alter f executionId (executions s);
                        worktrees := worktrees s |}).

Definition set_worktreePath (p : string) (e : ExecutionState) : ExecutionState :=
  {| exec_id := exec_id e; exec_taskId := exec_taskId e; exec_status := exec_status e;
     exec_startedAt := exec_startedAt e; exec_completedAt := exec_completedAt e;
     exec_worktreePath := Some p;
     exec_logs := exec_logs e; exec_learnings := exec_learnings e |}.

Definition push_log (l : string) (e : ExecutionState) : ExecutionState :=
  {| exec_id := exec_id e; exec_taskId := exec_taskId e; exec_status := exec_status e;
     exec_startedAt := exec_startedAt e; exec_completedAt := exec_completedAt e;
     exec_worktreePath := exec_worktreePath e;
     exec_logs := exec_logs e ++ [l]; exec_learnings := exec_learnings e |}.

Definition set_learnings (ls : list string) (e : ExecutionState) : ExecutionState :=
  {| exec_id := exec_id e; exec_taskId := exec_taskId e; exec_status := exec_status e;
     exec_startedAt := exec_startedAt e; exec_completedAt := exec_completedAt e;
     exec_worktreePath := exec_worktreePath e;
     exec_logs := exec_logs e; exec_learnings := ls |}.

Definition set_status (st : Status) (e : ExecutionState) : ExecutionState :=
  {| exec_id := exec_id e; exec_taskId := exec_taskId e; exec_status := st;
     exec_startedAt := exec_startedAt e; exec_completedAt := exec_completedAt e;
     exec_worktreePath := exec_worktreePath e;
     exec_logs := exec_logs e; exec_learnings := exec_learnings e |}.

Definition set_completedAt (t : string) (e : ExecutionState) : ExecutionState :=
  {| exec_id := exec_id e; exec_taskId := exec_taskId e; exec_status := exec_status e;
     exec_startedAt := exec_startedAt e; exec_completedAt := Some t;
     exec_worktreePath := exec_worktreePath e;
     exec_logs := exec_logs e; exec_learnings := exec_learnings e |}.

(** [Date.now() - startTime].  The result that is posted to the
    callback and the one that is returned read the clock one after the
    other; both are given the reading [finished] here, as is
    [completedAt]. *)
Definition duration : Z := now_ms (finished w) - now_ms (started w).

(** [generateCommitMessage] *)
Definition generateCommitMessage (taskDescription : string) (changedFiles : list string)
  : string :=
  let title := String.substring 0 72 (Js.first_line taskDescription) in
  let authorName := Js.or_else (GIT_AUTHOR_NAME w) "Ralph Agent" in
  let authorEmail := Js.or_else (GIT_AUTHOR_EMAIL w) "ralph@aicodingbot.dev" in
  Js.join Js.nl
    [title; "";
     "Files changed:";
     Js.join Js.nl (map (λ f, "- " +:+ f) changedFiles); "";
     "ðŸ¤– Generated with Ralph Code"; "";
     "Co-Authored-By: " +:+ authorName +:+ " <" +:+ authorEmail +:+ ">"].

(** [getProgressContext] *)
Definition getProgressContext (repoPath : string) : Run string :=
  try_catch
    (probe w ReadProgressFile ;;
     let content := progress_file w in
     ret (if (2000 <? String.length content)%nat
          then Js.substring_from (String.length content - 2000) content
          else content))
    (λ _, ret "").

(** [notifyCallback] *)
Definition notifyCallback (callbackUrl : string) (result : ExecutionResult) : Run unit :=
  try_catch
    (perform w PostCallback (HttpPostCallback callbackUrl result) ;;
     if negb (callback_response_ok w) then ret tt else ret tt)
    (λ _, ret tt).

Definition result_of (request : ExecutionRequest) (state : ExecutionState)
    (success : bool) (message : option string) (testsPass typecheckPass : bool)
  : ExecutionResult :=
  {| res_taskId := req_taskId request;
     res_success := success;
     res_prUrl := None;
     res_error := message;
     res_logs := Js.join Js.nl (exec_logs state);
     res_learnings := exec_learnings state;
     res_testsPass := testsPass;
     res_typecheckPass := typecheckPass;
     res_duration := duration |}.

(** The body of the [try] block of [execute]. *)
Definition execute_try (executionId : string) (request : ExecutionRequest)
  : Run ExecutionResult :=
  (* Step 1: clone/update repository *)
  let repoPath := path_join [workspaceRoot; "rocket"] in
  GitManager.cloneIfNeeded w (req_repoUrl request) repoPath ;;
  (* Step 2: create worktree *)
  worktreePath <- GitManager.createWorktree w repoPath
                    (req_branchName request) (req_baseBranch request) ;;
  update_state executionId (set_worktreePath worktreePath) ;;
  (* Step 3: install dependencies *)
  QualityChecker.installDependencies w worktreePath ;;
  (* Step 4: generate prompt file *)
  progressContext <- getProgressContext repoPath ;;
  promptFile <- ClaudeRunner.generatePromptFile w worktreePath
                  (req_prompt request) progressContext ;;
  (* Step 5: run Claude Code *)
  claudeResult <- ClaudeRunner.run w worktreePath promptFile (req_maxIterations request) ;;
  update_state executionId (push_log (claude_output claudeResult)) ;;
  (if negb (claude_success claudeResult) then throw "Claude execution failed" else ret tt) ;;
  update_state executionId (set_learnings (extractLearnings (claude_output claudeResult))) ;;
  (* Step 6: run quality checks *)
  qualityResult <- QualityChecker.runAll w worktreePath ;;
  if negb (QualityChecker.typecheck qualityResult) || negb (QualityChecker.tests qualityResult)
  then
    let message := "Quality checks failed: "
                   +:+ Js.join ", " (QualityChecker.errors qualityResult) in
    update_state executionId (set_status failed) ;;
    state <- read_state executionId request ;;
    ret (result_of request state false (Some message)
           (QualityChecker.tests qualityResult) (QualityChecker.typecheck qualityResult))
  else
    (* Step 7: commit changes *)
    changedFiles <- GitManager.getChangedFiles w worktreePath ;;
    (if (length changedFiles =? 0)%nat then throw "No changes were made" else ret tt) ;;
    let commitMessage := generateCommitMessage (req_prompt request) changedFiles in
    GitManager.commit w worktreePath commitMessage ;;
    (* Step 8: push to remote *)
    GitManager.push w worktreePath (req_branchName request) ;;
    (* Step 9: notify callback *)
    state <- read_state executionId request ;;
    (if Js.truthy (req_callbackUrl request)
     then notifyCallback (req_callbackUrl request)
            (result_of request state true None true true)
     else ret tt) ;;
    (* Clean up worktree *)
    GitManager.deleteWorktree w repoPath worktreePath ;;
    update_state executionId (set_status completed) ;;
    update_state executionId (set_completedAt (now_iso (finished w))) ;;
    state <- read_state executionId request ;;
    ret (result_of request state true None true true).

(** The [catch] block of [execute]. *)
Definition execute_catch (executionId : string) (request : ExecutionRequest)
    (message : string) : Run ExecutionResult :=
  update_state executionId (set_status failed) ;;
  update_state executionId (set_completedAt (now_iso (finished w))) ;;
  state <- read_state executionId request ;;
  (if Js.truthy (req_callbackUrl request)
   then notifyCallback (req_callbackUrl request)
          (result_of request state false (Some message) false false)
   else ret tt) ;;
  ret (result_of request state false (Some message) false false).

(** [execute] *)
Definition execute (request : ExecutionRequest) : Run ExecutionResult :=
  let executionId := generateExecutionId in
  modify_state (λ s, {| executions := <[executionId := blank_state executionId request]>
                                        (executions s);
                        worktrees := worktrees s |}) ;;
  try_catch (execute_try executionId request) (execute_catch executionId request).

(** [getStatus] *)
Definition getStatus (executionId : string) (s : State) : option ExecutionState :=
  executions s !! executionId.

(** [cancel] *)
Definition cancel (executionId : string) : Run unit :=
  s <- get_state ;;
  match executions s !! executionId with
  | Some state =>
      update_state executionId (set_status cancelled) ;;
      update_state executionId (set_completedAt (now_iso (finished w))) ;;
      match exec_worktreePath state with
      | Some worktreePath =>
          if Js.truthy worktreePath
          then try_catch
                 (GitManager.deleteWorktree w (path_join [workspaceRoot; "rocket"])
                    worktreePath)
                 (λ _, ret tt)
          else ret tt
      | None => ret tt
      end
  | None => ret tt
  end.

End Agent.

End ExecutionAgent.

(** ** The routes of the execution server *)

Module Routes.
Import Server.

(** The environment of the server process; an empty string stands for a
    variable that is not set. *)
Record Config := {
  EXECUTION_SERVER_TOKEN : string;
  WORKSPACE_ROOT : string
}.

Inductive Payload :=
| ErrorPayload (message : string)
| ExecutionStarted (executionId message taskId : string)
| StatusPayload (state : ExecutionState).

Record Response := { code : nat; payload : Payload }.

(** The route handler's own readings of [Date.now()] and of
    [Math.random().toString(36)]. *)
Record Draw := { drawn_now : Z; drawn_random : string }.

Section Routes.
Variable config : Config.
Variable extractLearnings : string → list string.

(** [authenticate]: [None] when the request may proceed ([next()]), the
    response otherwise. *)
Definition authenticate (authHeader : option string) : option Response :=
  let expectedToken := EXECUTION_SERVER_TOKEN config in
  if negb (Js.truthy expectedToken) then None
  else
    match authHeader with
    | Some header =>
        if Js.truthy header && String.prefix "Bearer " header
        then
          if String.eqb (Js.substring_from 7 header) expectedToken then None
          else Some {| code := 401;
                       payload := ErrorPayload "Unauthorized: Invalid token" |}
        else Some {| code := 401;
                     payload := ErrorPayload
                       "Unauthorized: Missing or invalid Authorization header" |}
    | None => Some {| code := 401;
                      payload := ErrorPayload
                        "Unauthorized: Missing or invalid Authorization header" |}
    end.

(** [POST /execute].  The execution is started in the background and
    the response is sent at once; the run is sequenced here before the
    response, which it does not influence. *)
Definition post_execute (draw : Draw) (w : World)
    (authHeader : option string) (request : ExecutionRequest) : Run Response :=
  match authenticate authHeader with
  | Some rejected => ret rejected
  | None =>
      if negb (Js.truthy (req_taskId request)) || negb (Js.truthy (req_repoUrl request))
         || negb (Js.truthy (req_branchName request)) || negb (Js.truthy (req_prompt request))
      then ret {| code := 400;
                  payload := ErrorPayload
                    "Missing required fields: taskId, repoUrl, branchName, prompt" |}
      else
        let executionId := "exec-" +:+ pretty (drawn_now draw) +:+ "-"
                           +:+ Js.substring_from 7 (drawn_random draw) in
        ExecutionAgent.execute
          (Js.or_else (WORKSPACE_ROOT config) "/workspace") extractLearnings w request ;;
        ret {| code := 200;
               payload := ExecutionStarted executionId "Execution started"
                            (req_taskId request) |}
  end.

(** [GET /status/:executionId] *)
Definition get_status (authHeader : option string) (executionId : string) (s : State)
  : Response :=
  match authenticate authHeader with
  | Some rejected => rejected
  | None =>
      match ExecutionAgent.getStatus executionId s with
      | None => {| code := 404; payload := ErrorPayload "Execution not found" |}
      | Some status => {| code := 200; payload := StatusPayload status |}
      end
  end.

End Routes.

End Routes.

(** ** Concrete stores, requests and worlds *)

Module Samples.

Definition env_a : Store.Env :=
  {| Store.VIBE_PROJECT_NAME := "rocket";
     Store.GITHUB_REPO_OWNER := "seecretly";
     Store.GITHUB_REPO_NAME := "rocket";
     Store.EXECUTION_SERVER_URL := "https://exec.example";
     Store.EXECUTION_SERVER_TOKEN := "secret" |}.

Definition clock_a : Clock :=
  {| now_ms := 1700000000000; now_iso := "2023-11-14T22:13:20.000Z" |}.

Definition clock_b : Clock :=
  {| now_ms := 1700000005000; now_iso := "2023-11-14T22:13:25.000Z" |}.

Definition task_t1 : Store.Task :=
  {| Store.task_id := "T1"; Store.task_title := "Login";
     Store.task_description := "Add login"; Store.task_branch := "task/t1" |}.

Definition task_t2 : Store.Task :=
  {| Store.task_id := "T2"; Store.task_title := "Logout";
     Store.task_description := "Add logout"; Store.task_branch := "task/t2" |}.

(** T1 was enqueued, and the alarm this armed fires. *)
Definition storage_one_queued : Store.Storage :=
  Store.alarm_taken
    (final_state (Store.handleEnqueue env_a clock_a task_t1 Store.storage_empty)).

(** T1 and T2 were enqueued, and the alarm this armed fires. *)
Definition storage_two_queued : Store.Storage :=
  Store.alarm_taken
    (final_state
       (Store.handleEnqueue env_a clock_a task_t2
          (final_state
             (Store.handleEnqueue env_a clock_a task_t1 Store.storage_empty)))).

Definition result_with_learning : ExecutionResult :=
  {| res_taskId := "T1"; res_success := true;
     res_prUrl := Some "https://github.com/seecretly/rocket/pull/1";
     res_error := None; res_logs := ""; res_learnings := ["x"];
     res_testsPass := true; res_typecheckPass := true; res_duration := 5000 |}.

Definition request_a : ExecutionRequest :=
  {| req_taskId := "T1";
     req_repoUrl := "https://github.com/seecretly/rocket.git";
     req_baseBranch := "main";
     req_branchName := "task/t1";
     req_prompt := "Add login";
     req_maxIterations := 10;
     req_callbackUrl := "https://coordinator.example/callbacks/execution" |}.

(** The same request, without callback URL. *)
Definition request_no_callback : ExecutionRequest :=
  {| req_taskId := "T1";
     req_repoUrl := "https://github.com/seecretly/rocket.git";
     req_baseBranch := "main";
     req_branchName := "task/t1";
     req_prompt := "Add login";
     req_maxIterations := 10;
     req_callbackUrl := "" |}.

(** A server process that has run nothing yet. *)
Definition state_empty : Server.State :=
  {| Server.executions := ∅; Server.worktrees := ∅ |}.

(** Every operation succeeds. *)
Definition all_succeed : Server.Op → option string := λ _, None.

(** Every operation succeeds but [op], which fails with [message]. *)
Definition only_fails (op : Server.Op) (message : string) : Server.Op → option string :=
  λ o, if decide (o = op) then Some message else None.

(** A world where the agent edits one file; the outcomes of the
    operations and the changed files are given. *)
Definition world (outcomes : Server.Op → option string) (changed : list string)
  : Server.World :=
  {| Server.outcome := outcomes;
     Server.claude :=
       {| Server.claude_success := true;
          Server.claude_output := "Done. <promise>COMPLETE</promise>";
          Server.claude_completed := true;
          Server.claude_iterationsUsed := 1 |};
     Server.progress_file := "";
     Server.changed_files := changed;
     Server.staged_files := changed;
     Server.callback_response_ok := true;
     Server.id_now := 1700000000000;
     Server.id_random := "0.9";
     Server.started := clock_a;
     Server.finished := clock_b;
     Server.GIT_AUTHOR_NAME := "";
     Server.GIT_AUTHOR_EMAIL := "" |}.

(** The run succeeds from end to end. *)
Definition world_success : Server.World := world all_succeed ["src/login.ts"].

(** The test suite fails. *)
Definition world_tests_fail : Server.World :=
  world (only_fails Server.NpmTest "Command failed: npm test") ["src/login.ts"].

(** The checks pass and the agent changed no file. *)
Definition world_no_diff : Server.World := world all_succeed [].

(** The project has no test script. *)
Definition world_no_test_script : Server.World :=
  world (only_fails Server.NpmTest
           ("Command failed: npm test" +:+ Js.nl +:+ "npm error Missing script: test"))
        ["src/login.ts"].

(** The project has a test script, [npm run build && jest], and no
    build script: the test command exits with code 1 and npm's complaint
    about the missing build script is in its error output. *)
Definition world_tests_fail_on_missing_build : Server.World :=
  world (only_fails Server.NpmTest
           ("Command failed: npm test" +:+ Js.nl +:+ "npm error Missing script: build"))
        ["src/login.ts"].

(** The transcript mining is not exercised by the samples. *)
Definition no_learnings : string → list string := λ _, [].

(** The server's configuration: no token, default workspace. *)
Definition config_open : Routes.Config :=
  {| Routes.EXECUTION_SERVER_TOKEN := ""; Routes.WORKSPACE_ROOT := "" |}.

(** The route handler reads the clock in the same millisecond as the
    agent and draws 0.5, written [0.i] in base 36; the agent draws 0.25,
    written [0.9]. *)
Definition draw_half : Routes.Draw :=
  {| Routes.drawn_now := 1700000000000; Routes.drawn_random := "0.i" |}.

(** The route handler draws a number with a long base-36 writing. *)
Definition draw_long : Routes.Draw :=
  {| Routes.drawn_now := 1700000000000; Routes.drawn_random := "0.4fzyo82mvyr" |}.

End Samples.

(** ** Lines of text *)

Module Text.

(** A string without line feed. *)
Fixpoint one_line (s : string) : bool :=
  match s with
  | "" => true
  | String c rest => negb (Ascii.eqb c (Ascii.ascii_of_nat 10)) && one_line rest
  end.

End Text.

(** ** The dispatch budget of a ledger *)

Module Dispatch.
Import Store.

(** The dispatches the alarm handler still grants an entry. *)
Definition attempts_left (t : PRDEntry) : nat :=
  if passes t then 0 else 3 - attempts t.

Definition dispatch_budget (prd : PRD) : nat :=
  sum_list_with (λ e : string * PRDEntry, attempts_left e.2) (tasks prd).

(** Successive firings of the timer, each with its reading of the clock
    and the outcome of its request: the storage they leave and the
    effects they perform. *)
Fixpoint firings (env : Env) (fs : list (Clock * option string)) (s : Storage)
  : Storage * list Effect :=
  match fs with
  | [] => (s, [])
  | (clock, fetch_outcome) :: rest =>
      let r := alarm env clock fetch_outcome s in
      let '(s', later) := firings env rest (final_state r) in
      (s', effects r ++ later)
  end.

End Dispatch.

(** ** The entry point of the task state store ([RalphStateDO.fetch]) *)

Module RalphStateDO.
Import Store.

(** A request to the actor.  The handlers cast what [request.json()]
    yields to the type they declare, without checking it: the body is
    given as each of them reads it, and is [Throw message] where
    [request.json()] rejects with an error of that message.  A body
    that is JSON of another shape than the declared one is not
    represented: on such a body a handler can throw at any of its
    property reads, also after a write, which [fetch] answers with a
    500; nothing is stated here of those requests beyond what holds of
    every request. *)
Record Request := {
  pathname : string;
  method : string;
  json_task : Completion Task;
  json_complete : Completion (string * ExecutionResult);
  json_fail : Completion (string * string);
  json_progress : Completion ProgressEntry
}.

Inductive Reply :=
| Handled (response : Response)
| NotFound
| InternalError (message : string).

(** The HTTP status of a reply. *)
Definition reply_status (reply : Reply) : nat :=
  match reply with
  | Handled response => status response
  | NotFound => 404
  | InternalError _ => 500
  end.

(** [await request.json()] *)
Definition request_json {A} (reading : Completion A) : DO A :=
  match reading with
  | Normal a => ret a
  | Throw message => throw message
  end.

(** The routes, as [(pathname, method)]. *)
Definition routes : list (string * string) :=
  [("/enqueue", "POST"); ("/complete", "POST"); ("/fail", "POST");
   ("/get-next-task", "GET"); ("/get-prd", "GET"); ("/get-progress", "GET");
   ("/update-progress", "POST")].

Section Fetch.
Variable env : Env.
Variable clock : Clock.

(** [fetch] *)
Definition fetch (request : Request) : DO Reply :=
  let path := pathname request in
  let route (p m : string) := String.eqb path p && String.eqb (method request) m in
  try_catch
    (if route "/enqueue" "POST" then
       task <- request_json (json_task request) ;;
       response <- handleEnqueue env clock task ;;
       ret (Handled response)
     else if route "/complete" "POST" then
       data <- request_json (json_complete request) ;;
       response <- handleComplete env clock data.1 data.2 ;;
       ret (Handled response)
     else if route "/fail" "POST" then
       data <- request_json (json_fail request) ;;
       response <- handleFail env clock data.1 data.2 ;;
       ret (Handled response)
     else if route "/get-next-task" "GET" then
       response <- handleGetNextTask env clock ;;
       ret (Handled response)
     else if route "/get-prd" "GET" then
       response <- handleGetPRD env clock ;;
       ret (Handled response)
     else if route "/get-progress" "GET" then
       response <- handleGetProgress ;;
       ret (Handled response)
     else if route "/update-progress" "POST" then
       entry <- request_json (json_progress request) ;;
       response <- handleUpdateProgress entry ;;
       ret (Handled response)
     else ret NotFound)
    (λ message, ret (InternalError message)).

End Fetch.

End RalphStateDO.

(** ** The cancel route of the execution server *)

Module CancelRoute.
Import Server Routes.

(** What [POST /cancel/:executionId] answers. *)
Inductive CancelReply :=
| CancelRejected (rejected : Response)
| Cancelled (message : string)
| CancelFailed (message : string).

Section Routes.
Variable config : Config.

(** [POST /cancel/:executionId] *)
Definition post_cancel (w : World) (authHeader : option string) (executionId : string)
  : Run CancelReply :=
  match authenticate config authHeader with
  | Some rejected => ret (CancelRejected rejected)
  | None =>
      try_catch
        (ExecutionAgent.cancel (Js.or_else (WORKSPACE_ROOT config) "/workspace") w
           executionId ;;
         ret (Cancelled "Execution cancelled"))
        (λ message, ret (CancelFailed message))
  end.

End Routes.

End CancelRoute.

(** ** What a run of the pipeline stands for *)

Module Pipeline.
Import Server ExecutionAgent.

(** What a successful result of [execute] stands for, given the effects
    [t] of the run: the agent had succeeded, files were changed and
    staged, one commit and then one push were run in the worktree of
    the branch, and a success was posted to the callback URL, if any. *)
Definition pushed (workspaceRoot : string) (w : World) (request : ExecutionRequest)
    (result : ExecutionResult) (t : list Effect) : Prop :=
  let worktreePath :=
    path_join [path_join [workspaceRoot; "rocket"]; ".worktrees"; req_branchName request] in
  claude_success (claude w) = true
  ∧ changed_files w ≠ [] ∧ staged_files w ≠ []
  ∧ outcome w Commit = None ∧ outcome w Push = None
  ∧ filter is_commit_or_push t
    = [GitCommand worktreePath
         ["commit"; "-m";
          generateCommitMessage w (req_prompt request) (changed_files w);
          "--author=" +:+ Js.or_else (GIT_AUTHOR_NAME w) "seecretly" +:+ " <"
          +:+ Js.or_else (GIT_AUTHOR_EMAIL w) "seecretly@users.noreply.github.com"
          +:+ ">"];
       GitCommand worktreePath
         ["push"; "origin"; req_branchName request; "--set-upstream"; "--force"]]
  ∧ (∃ posted,
       filter is_callback t
       = (if Js.truthy (req_callbackUrl request)
          then [HttpPostCallback (req_callbackUrl request) posted]
          else [])
       ∧ res_success posted = true
       ∧ res_taskId posted = req_taskId request)
  ∧ res_error result = None
  ∧ res_testsPass result = true ∧ res_typecheckPass result = true.

(** The operations whose failure the pipeline absorbs: the check and
    the refresh of an existing clone (the repository is cloned instead),
    the removal of a stale worktree, the look for [node_modules] (the
    dependencies are installed instead), the read of the progress file,
    the lint, the delivery of the callback and the final clean-up. *)
Definition tolerated : list Op :=
  [AccessGitDir; FetchExisting; WorktreeRemoveStale; AccessNodeModules;
   ReadProgressFile; NpmRunLint; PostCallback; WorktreeRemove].

(** The record of the execution [executionId] is kept for the task
    [taskId]. *)
Definition recorded (executionId taskId : string) (s : State) : Prop :=
  ∃ e, executions s !! executionId = Some e ∧ exec_taskId e = taskId.

(** How [execute] leaves the record of the execution, given the result
    it returns. *)
Definition settled (executionId : string) (request : ExecutionRequest)
    (result : ExecutionResult) (s : State) : Prop :=
  ∃ e, executions s !! executionId = Some e
       ∧ exec_taskId e = req_taskId request
       ∧ exec_status e = (if res_success result then completed else failed)
       ∧ res_logs result = Js.join Js.nl (exec_logs e)
       ∧ res_learnings result = exec_learnings e.

End Pipeline.

(** ** Retries ([utils/common]) *)

Module Common.

Record RetryOptions := {
  maxAttempts : nat;
  initialDelay : Z;
  maxDelay : Z;
  backoffFactor : Z
}.

(** The options of a call that gives [maxAttempts] and [initialDelay]
    and leaves the two others to their defaults. *)
Definition retry_options (maxAttempts : nat) (initialDelay : Z) : RetryOptions :=
  {| maxAttempts := maxAttempts; initialDelay := initialDelay;
     maxDelay := 30000; backoffFactor := 2 |}.

Section Retry.
Context {St Ev A : Type}.
(** How [sleep(ms)] is recorded among the effects. *)
Variable sleeping : Z → Ev.

(** [delay = Math.min(delay * backoffFactor, maxDelay)] *)
Definition next_delay (options : RetryOptions) (delay : Z) : Z :=
  Z.min (delay * backoffFactor options) (maxDelay options).

(** The loop of [retryWithBackoff], with [remaining] attempts to go,
    the current one included.  The value thrown when the loop does not
    run at all is [undefined]. *)
Fixpoint retry_loop (fn : Eff St Ev A) (options : RetryOptions)
    (remaining : nat) (delay : Z) : Eff St Ev A :=
  match remaining with
  | 0 => throw "undefined"
  | S remaining' =>
      try_catch fn
        (λ error,
           match remaining' with
           | 0 => throw error
           | S _ =>
               emit (sleeping delay) ;;
               retry_loop fn options remaining' (next_delay options delay)
           end)
  end.

(** [retryWithBackoff] *)
Definition retryWithBackoff (fn : Eff St Ev A) (options : RetryOptions) : Eff St Ev A :=
  retry_loop fn options (maxAttempts options) (initialDelay options).

End Retry.

(** The first [n] delays of a retry. *)
Fixpoint backoff_delays (options : RetryOptions) (n : nat) (delay : Z) : list Z :=
  match n with
  | 0 => []
  | S n' => delay :: backoff_delays options n' (next_delay options delay)
  end.


End Common.

(** ** The coordinator worker: the callback of the execution server *)

Module GitHub.

Record GitHubPR := { number : nat; html_url : string }.

Record GitHubPROptions := {
  owner : string;
  repo : string;
  title : string;
  body : string;
  head : string;
  base : string;
  draft : bool
}.

(** [generatePRBody]; an absent list of criteria or of learnings is
    the empty list. *)
Definition generatePRBody (description : string)
    (acceptanceCriteria learnings : list string) : string :=
  "## Summary" +:+ Js.nl +:+ Js.nl +:+ description +:+ Js.nl +:+ Js.nl
  +:+ (if (0 <? length acceptanceCriteria)%nat
       then "## Acceptance Criteria" +:+ Js.nl +:+ Js.nl
            +:+ String.concat "" (map (λ c, "- [ ] " +:+ c +:+ Js.nl) acceptanceCriteria)
            +:+ Js.nl
       else "")
  +:+ (if (0 <? length learnings)%nat
       then "## Implementation Notes" +:+ Js.nl +:+ Js.nl
            +:+ String.concat "" (map (λ l, "- " +:+ l +:+ Js.nl) learnings)
            +:+ Js.nl
       else "")
  +:+ "## Test Plan" +:+ Js.nl +:+ Js.nl
  +:+ "- [ ] All tests pass" +:+ Js.nl
  +:+ "- [ ] TypeScript compiles without errors" +:+ Js.nl
  +:+ "- [ ] Code follows repository patterns" +:+ Js.nl
  +:+ Js.nl
  +:+ "---" +:+ Js.nl +:+ Js.nl
  +:+ "ðŸ¤– Generated with [Ralph Code](https://github.com/naturaumana-ai/ralph-code)"
  +:+ Js.nl +:+ Js.nl
  +:+ "Co-Authored-By: Ralph Agent <ralph@naturaumana-ai.com>" +:+ Js.nl.

End GitHub.

Module Coordinator.
Import Store RalphStateDO GitHub Common.

(** The variables of the worker the callback reads, besides those of
    the store; an empty string stands for a variable that is not set. *)
Record Env := {
  store_env : Store.Env;
  GITHUB_UPSTREAM_OWNER : string;
  GITHUB_UPSTREAM_REPO : string
}.

Inductive Effect :=
| StoreFetch (request : Request)
| OnStore (e : Store.Effect)
| GitHubPost (url : string) (options : GitHubPROptions)
| Sleep (ms : Z)
| VibeCallTool (name : string) (arguments : list (string * string)).

(** The state the callback works on: the storage of the project's
    actor, and the number of requests made to GitHub so far. *)
Record State := {
  storage : Storage;
  github_requests : nat
}.

Definition Worker (A : Type) : Type := Eff State Effect A.

Inductive Response :=
| Ok
| Error (status : nat) (message : string).

(** A reading of the body that the route of the request does not
    make. *)
Definition unread {A} : Completion A := Throw "unread".

Definition get_request (path : string) : Request :=
  {| pathname := path; method := "GET";
     json_task := unread; json_complete := unread;
     json_fail := unread; json_progress := unread |}.

Definition post_complete (taskId : string) (result : ExecutionResult) : Request :=
  {| pathname := "/complete"; method := "POST";
     json_task := unread; json_complete := Normal (taskId, result);
     json_fail := unread; json_progress := unread |}.

Definition post_fail (taskId error : string) : Request :=
  {| pathname := "/fail"; method := "POST";
     json_task := unread; json_complete := unread;
     json_fail := Normal (taskId, error); json_progress := unread |}.

(** [result.prUrl = pr.html_url] *)
Definition set_prUrl (url : string) (result : ExecutionResult) : ExecutionResult :=
  {| res_taskId := res_taskId result; res_success := res_success result;
     res_prUrl := Some url; res_error := res_error result;
     res_logs := res_logs result; res_learnings := res_learnings result;
     res_testsPass := res_testsPass result;
     res_typecheckPass := res_typecheckPass result;
     res_duration := res_duration result |}.

Section Worker.
Variable env : Env.
Variable clock : Clock.
(** How the successive requests to GitHub end. *)
Variable pull_request : nat → Completion GitHubPR.

(** [stub.fetch(...)]: the request is sent to the actor of the
    project, which serves it on its storage. *)
Definition stub_fetch (request : Request) : Worker Reply :=
  emit (StoreFetch request) ;;
  λ s, let '(c, storage', t) := fetch (store_env env) clock request (storage s) in
       (c, {| storage := storage'; github_requests := github_requests s |},
        map OnStore t).

(** [await prdResponse.json()], where the reply carries a PRD. *)
Definition reply_prd (reply : Reply) : Worker PRD :=
  match reply with
  | Handled {| Store.body := BodyPRD prd |} => ret prd
  | _ => throw "the reply is not a PRD"
  end.

(** [GitHubClient._createPullRequest]: one request to GitHub. *)
Definition _createPullRequest (options : GitHubPROptions) : Worker GitHubPR :=
  emit (GitHubPost ("https://api.github.com/repos/" +:+ owner options +:+ "/"
                    +:+ repo options +:+ "/pulls") options) ;;
  λ s, (pull_request (github_requests s),
        {| storage := storage s; github_requests := S (github_requests s) |}, []).

(** [GitHubClient.createPullRequest] *)
Definition createPullRequest (options : GitHubPROptions) : Worker GitHubPR :=
  try_catch
    (retryWithBackoff Sleep (_createPullRequest options) (retry_options 3 2000))
    (λ error, throw error).

(** [VibeKanbanClient.completeTask]: the call is made, and a failure
    of it is logged and dropped. *)
Definition completeTask (taskId prUrl : string) : Worker unit :=
  emit (VibeCallTool "complete_task"
          [("taskId", taskId); ("prUrl", prUrl); ("status", "review")]).

(** [VibeKanbanClient.failTask], likewise. *)
Definition failTask (taskId errorMessage : string) : Worker unit :=
  emit (VibeCallTool "update_task_status"
          [("taskId", taskId); ("status", "failed"); ("error", errorMessage)]).

(** [result.error || 'Execution failed'] *)
Definition error_of (result : ExecutionResult) : string :=
  match res_error result with
  | Some message => Js.or_else message "Execution failed"
  | None => "Execution failed"
  end.

(** The message of the [TypeError] that reading the property [name]
    of [undefined] throws. *)
Definition cannot_read_properties (name : string) : string :=
  "Cannot read properties of undefined (reading '" +:+ name +:+ "')".

(** [handleExecutionCallback]; [body] is what [request.json()] yields.
    [prd] is read from the JSON text of the reply, in the isolate of the
    worker, whose [Object.prototype] is taken with its standard members
    only.  The guard [!task] lets every truthy member of [prd.tasks]
    through; one that is not an entry has no [description], and
    [task.description.split] throws before any request to GitHub. *)
Definition handleExecutionCallback (body : Completion ExecutionResult) : Worker Response :=
  try_catch
    (result <- (match body with
                | Normal result => ret result
                | Throw message => throw message
                end) ;;
     (if res_success result
      then
        try_catch
          (prdResponse <- stub_fetch (get_request "/get-prd") ;;
           prd <- reply_prd prdResponse ;;
           match member standard_prototype (res_taskId result) (tasks prd) with
           | Falsy => throw ("Task " +:+ res_taskId result +:+ " not found in PRD")
           | PrototypeFunction | PrototypeObject | Primitive _ _ =>
               throw (cannot_read_properties "split")
           | OwnEntry task =>
               pr <- createPullRequest
                       {| owner := Js.or_else (GITHUB_UPSTREAM_OWNER env)
                                     (GITHUB_REPO_OWNER (store_env env));
                          repo := Js.or_else (GITHUB_UPSTREAM_REPO env)
                                    (GITHUB_REPO_NAME (store_env env));
                          title := Js.first_line (description task);
                          body := generatePRBody (description task) [] (res_learnings result);
                          head := GITHUB_REPO_OWNER (store_env env) +:+ ":"
                                  +:+ branchName task;
                          base := "main";
                          draft := false |} ;;
               let result := set_prUrl (html_url pr) result in
               stub_fetch (post_complete (res_taskId result) result) ;;
               completeTask (res_taskId result) (html_url pr)
           end)
          (λ message,
             stub_fetch (post_fail (res_taskId result) message) ;;
             ret tt)
      else
        stub_fetch (post_fail (res_taskId result) (error_of result)) ;;
        failTask (res_taskId result) (error_of result)) ;;
     ret Ok)
    (λ message, ret (Error 500 message)).

End Worker.

End Coordinator.


(** ** More concrete cases *)

Module Cases.
Import Samples.

(** The store once T1 was enqueued. *)
Definition storage_enqueued : Store.Storage :=
  final_state (Store.handleEnqueue env_a clock_a task_t1 Store.storage_empty).

(** The agent edited a file that [git add .] does not stage. *)
Definition world_nothing_staged : Server.World :=
  {| Server.outcome := all_succeed;
     Server.claude :=
       {| Server.claude_success := true;
          Server.claude_output := "Done. <promise>COMPLETE</promise>";
          Server.claude_completed := true;
          Server.claude_iterationsUsed := 1 |};
     Server.progress_file := "";
     Server.changed_files := ["dist/login.js"];
     Server.staged_files := [];
     Server.callback_response_ok := true;
     Server.id_now := 1700000000000;
     Server.id_random := "0.9";
     Server.started := clock_a;
     Server.finished := clock_b;
     Server.GIT_AUTHOR_NAME := "";
     Server.GIT_AUTHOR_EMAIL := "" |}.

(** Every operation the pipeline tolerates the failure of fails, and
    every other one succeeds. *)
Definition world_tolerated_failures : Server.World :=
  world (λ op, if decide (op ∈ Pipeline.tolerated) then Some "failed" else None)
        ["src/login.ts"].

(** A [GET] on a route that takes a [POST]. *)
Definition request_get_enqueue : RalphStateDO.Request :=
  {| RalphStateDO.pathname := "/enqueue";
     RalphStateDO.method := "GET";
     RalphStateDO.json_task := Throw "Unexpected end of JSON input";
     RalphStateDO.json_complete := Throw "Unexpected end of JSON input";
     RalphStateDO.json_fail := Throw "Unexpected end of JSON input";
     RalphStateDO.json_progress := Throw "Unexpected end of JSON input" |}.


Definition coordinator_env : Coordinator.Env :=
  {| Coordinator.store_env := env_a;
     Coordinator.GITHUB_UPSTREAM_OWNER := "naturaumana-ai";
     Coordinator.GITHUB_UPSTREAM_REPO := "" |}.

(** The coordinator, with T1 queued in the store and no request made
    to GitHub yet. *)
Definition coordinator_state : Coordinator.State :=
  {| Coordinator.storage := storage_one_queued;
     Coordinator.github_requests := 0 |}.

Definition pull_request_1 : GitHub.GitHubPR :=
  {| GitHub.number := 1;
     GitHub.html_url := "https://github.com/naturaumana-ai/rocket/pull/1" |}.

(** GitHub answers 502 to the first request and creates the pull
    request at the second. *)
Definition github_second_time : nat → Completion GitHub.GitHubPR :=
  λ request,
    if (request <? 1)%nat then Throw "GitHub API error: 502 Bad Gateway - "
    else Normal pull_request_1.

(** GitHub is down. *)
Definition github_down : nat → Completion GitHub.GitHubPR :=
  λ _, Throw "GitHub API error: 503 Service Unavailable - ".

(** The result of an execution that succeeded, as the agent posts it. *)
Definition success_posted : ExecutionResult :=
  {| res_taskId := "T1"; res_success := true; res_prUrl := None;
     res_error := None; res_logs := "Done. <promise>COMPLETE</promise>";
     res_learnings := []; res_testsPass := true; res_typecheckPass := true;
     res_duration := 5000 |}.


(** The result of an execution that succeeded, for the task [taskId]. *)
Definition success_for (taskId : string) : ExecutionResult :=
  {| res_taskId := taskId; res_success := true; res_prUrl := None;
     res_error := None; res_logs := "Done. <promise>COMPLETE</promise>";
     res_learnings := []; res_testsPass := true; res_typecheckPass := true;
     res_duration := 5000 |}.

(** The result of an execution for a task whose id is the name of a
    function of [Object.prototype]. *)
Definition result_constructor : ExecutionResult :=
  {| res_taskId := "constructor"; res_success := true;
     res_prUrl := Some "https://github.com/seecretly/rocket/pull/1";
     res_error := None; res_logs := ""; res_learnings := ["x"];
     res_testsPass := true; res_typecheckPass := true; res_duration := 5000 |}.

(** A task whose id is the name of the accessor of [Object.prototype]. *)
Definition task_proto : Store.Task :=
  {| Store.task_id := "__proto__"; Store.task_title := "Login";
     Store.task_description := "Add login"; Store.task_branch := "task/login" |}.

End Cases.

(** * Properties *)

(** ** Rules for computations *)

Section EffFacts.
Context {St Ev : Type}.
Implicit Types (P I : St → Prop).

Lemma triple_ret {A} P (a : A) (Q : A → St → Prop) E :
  (∀ s, P s → Q a s) → triple (Ev:=Ev) P (ret a) Q E.
Proof. intros H s Hs. by apply H. Qed.

Lemma triple_throw {A} P (e : string) (Q : A → St → Prop) (E : string → St → Prop) :
  (∀ s, P s → E e s) → triple (Ev:=Ev) P (throw e) Q E.
Proof. intros H s Hs. by apply H. Qed.

Lemma triple_bind {A B} P (m : Eff St Ev A) (k : A → Eff St Ev B)
    (R : A → St → Prop) (Q : B → St → Prop) E :
  triple P m R E → (∀ a, triple (R a) (k a) Q E) → triple P (bind m k) Q E.
Proof.
  intros Hm Hk s Hs. specialize (Hm s Hs). unfold bind.
  destruct (m s) as [[[a|e] s1] t1]; [|done].
  specialize (Hk a s1 Hm). by destruct (k a s1) as [[[b|e] s2] t2].
Qed.

Lemma triple_try_catch {A} P (m : Eff St Ev A) (h : string → Eff St Ev A)
    (Q : A → St → Prop) (R E : string → St → Prop) :
  triple P m Q R → (∀ e, triple (R e) (h e) Q E) → triple P (try_catch m h) Q E.
Proof.
  intros Hm Hh s Hs. specialize (Hm s Hs). unfold try_catch.
  destruct (m s) as [[[a|e] s1] t1]; [done|].
  specialize (Hh e s1 Hm). by destruct (h e s1) as [[[b|e'] s2] t2].
Qed.

Lemma triple_weaken {A} P P' (m : Eff St Ev A) (Q Q' : A → St → Prop)
    (E E' : string → St → Prop) :
  triple P' m Q' E' →
  (∀ s, P s → P' s) → (∀ a s, Q' a s → Q a s) → (∀ e s, E' e s → E e s) →
  triple P m Q E.
Proof.
  intros Hm HP HQ HE s Hs. specialize (Hm s (HP s Hs)).
  destruct (m s) as [[[a|e] s1] t1]; auto.
Qed.

Lemma triple_modify_state P (f : St → St) (Q : unit → St → Prop) E :
  (∀ s, P s → Q tt (f s)) → triple (Ev:=Ev) P (modify_state f) Q E.
Proof. intros H s Hs. by apply H. Qed.

Lemma triple_get_state P (Q : St → St → Prop) E :
  (∀ s, P s → Q s s) → triple (Ev:=Ev) P get_state Q E.
Proof. intros H s Hs. by apply H. Qed.

(** A step that keeps the invariant, in front of a continuation. *)
Lemma triple_step {A B} I (m : Eff St Ev A) (k : A → Eff St Ev B)
    (Q : B → St → Prop) (E : string → St → Prop) :
  preserves I m → (∀ e s, I s → E e s) → (∀ a, triple I (k a) Q E) →
  triple I (bind m k) Q E.
Proof.
  intros Hm HE Hk. apply triple_bind with (R := λ _, I); [|done].
  eapply triple_weaken; [exact Hm|..]; auto.
Qed.

Lemma stateless_ret {A} (a : A) : stateless (St:=St) (Ev:=Ev) (ret a).
Proof. done. Qed.

Lemma stateless_throw {A} (e : string) : stateless (St:=St) (Ev:=Ev) (A:=A) (throw e).
Proof. done. Qed.

Lemma stateless_emit (e : Ev) : stateless (St:=St) (emit e).
Proof. done. Qed.

Lemma stateless_get_state : stateless (St:=St) (Ev:=Ev) get_state.
Proof. done. Qed.

Lemma stateless_settle (o : option string) : stateless (St:=St) (Ev:=Ev) (settle o).
Proof. by destruct o. Qed.

Lemma stateless_bind {A B} (m : Eff St Ev A) (k : A → Eff St Ev B) :
  stateless m → (∀ a, stateless (k a)) → stateless (bind m k).
Proof.
  intros Hm Hk s. specialize (Hm s). unfold bind, final_state in *.
  destruct (m s) as [[[a|e] s1] t1]; simpl in *; subst; [|done].
  specialize (Hk a s). unfold final_state in Hk.
  by destruct (k a s) as [[[b|e] s2] t2].
Qed.

Lemma stateless_try_catch {A} (m : Eff St Ev A) (h : string → Eff St Ev A) :
  stateless m → (∀ e, stateless (h e)) → stateless (try_catch m h).
Proof.
  intros Hm Hh s. specialize (Hm s). unfold try_catch, final_state in *.
  destruct (m s) as [[[a|e] s1] t1]; simpl in *; subst; [done|].
  specialize (Hh e s). unfold final_state in Hh.
  by destruct (h e s) as [[[b|e'] s2] t2].
Qed.

Lemma stateless_preserves {A} I (m : Eff St Ev A) : stateless m → preserves I m.
Proof.
  intros Hm s Hs. specialize (Hm s). unfold final_state in Hm.
  destruct (m s) as [[[a|e] s1] t1]; simpl in *; by subst.
Qed.

Lemma stateless_triple {A} P (m : Eff St Ev A) (Q : A → St → Prop) E :
  stateless m → (∀ a s, P s → Q a s) → (∀ e s, P s → E e s) → triple P m Q E.
Proof.
  intros Hm HQ HE s Hs. specialize (Hm s). unfold final_state in Hm.
  destruct (m s) as [[[a|e] s1] t1]; simpl in *; subst; auto.
Qed.

Lemma preserves_bind {A B} I (m : Eff St Ev A) (k : A → Eff St Ev B) :
  preserves I m → (∀ a, preserves I (k a)) → preserves I (bind m k).
Proof. intros Hm Hk. by apply triple_bind with (R := λ _, I). Qed.

Lemma preserves_try_catch {A} I (m : Eff St Ev A) (h : string → Eff St Ev A) :
  preserves I m → (∀ e, preserves I (h e)) → preserves I (try_catch m h).
Proof. intros Hm Hh. by apply triple_try_catch with (R := λ _, I). Qed.

Lemma preserves_modify_state I (f : St → St) :
  (∀ s, I s → I (f s)) → preserves (Ev:=Ev) I (modify_state f).
Proof. intros H. by apply triple_modify_state. Qed.

Lemma never_throws_ret {A} (a : A) : never_throws (St:=St) (Ev:=Ev) (ret a).
Proof. intros s. by exists a. Qed.

Lemma never_throws_bind {A B} (m : Eff St Ev A) (k : A → Eff St Ev B) :
  never_throws m → (∀ a, never_throws (k a)) → never_throws (bind m k).
Proof.
  intros Hm Hk s. destruct (Hm s) as [a Ha]. unfold bind, completion in *.
  destruct (m s) as [[c s1] t1]; simpl in *; subst.
  destruct (Hk a s1) as [b Hb]. unfold completion in Hb.
  destruct (k a s1) as [[c s2] t2]; simpl in *; subst. by exists b.
Qed.

Lemma never_throws_try_catch {A} (m : Eff St Ev A) (h : string → Eff St Ev A) :
  (∀ e, never_throws (h e)) → never_throws (try_catch m h).
Proof.
  intros Hh s. unfold try_catch, completion.
  destruct (m s) as [[[a|e] s1] t1]; simpl; [by exists a|].
  destruct (Hh e s1) as [b Hb]. unfold completion in Hb.
  destruct (h e s1) as [[c s2] t2]; simpl in *; subst. by exists b.
Qed.

Lemma never_throws_modify_state (f : St → St) :
  never_throws (Ev:=Ev) (modify_state f).
Proof. intros s. by exists tt. Qed.

Lemma never_throws_get_state : never_throws (St:=St) (Ev:=Ev) get_state.
Proof. intros s. by exists s. Qed.

Lemma emits_only_ret {A} (φ : Ev → bool) (a : A) : emits_only (St:=St) φ (ret a).
Proof. intros s. constructor. Qed.

Lemma emits_only_throw {A} (φ : Ev → bool) (e : string) :
  emits_only (St:=St) (A:=A) φ (throw e).
Proof. intros s. constructor. Qed.

Lemma emits_only_get_state (φ : Ev → bool) : emits_only (St:=St) φ get_state.
Proof. intros s. constructor. Qed.

Lemma emits_only_modify_state (φ : Ev → bool) (f : St → St) :
  emits_only φ (modify_state f).
Proof. intros s. constructor. Qed.

Lemma emits_only_settle (φ : Ev → bool) (o : option string) :
  emits_only (St:=St) φ (settle o).
Proof. intros s. destruct o; constructor. Qed.

Lemma emits_only_emit (φ : Ev → bool) (e : Ev) :
  φ e = true → emits_only (St:=St) φ (emit e).
Proof. intros He s. by repeat constructor. Qed.

Lemma emits_only_bind {A B} (φ : Ev → bool) (m : Eff St Ev A) (k : A → Eff St Ev B) :
  emits_only φ m → (∀ a, emits_only φ (k a)) → emits_only φ (bind m k).
Proof.
  intros Hm Hk s. specialize (Hm s). unfold bind, effects in *.
  destruct (m s) as [[[a|e] s1] t1]; simpl in *; [|done].
  specialize (Hk a s1). unfold effects in Hk.
  destruct (k a s1) as [[c s2] t2]. simpl in *. by apply Forall_app.
Qed.

Lemma emits_only_try_catch {A} (φ : Ev → bool) (m : Eff St Ev A)
    (h : string → Eff St Ev A) :
  emits_only φ m → (∀ e, emits_only φ (h e)) → emits_only φ (try_catch m h).
Proof.
  intros Hm Hh s. specialize (Hm s). unfold try_catch, effects in *.
  destruct (m s) as [[[a|e] s1] t1]; simpl in *; [done|].
  specialize (Hh e s1). unfold effects in Hh.
  destruct (h e s1) as [[c s2] t2]. simpl in *. by apply Forall_app.
Qed.

(** A step with effects in [φ], in front of a continuation that has
    effects in [φ] whenever it returns a value in [C]. *)
Lemma on_return_step {A B} (φ : Ev → bool) (C : B → Prop)
    (m : Eff St Ev A) (k : A → Eff St Ev B) :
  emits_only φ m →
  (∀ a, on_return (k a) (λ b t, C b → Forall (λ e, φ e = true) t)) →
  on_return (bind m k) (λ b t, C b → Forall (λ e, φ e = true) t).
Proof.
  intros Hm Hk s. specialize (Hm s). unfold bind, effects in *.
  destruct (m s) as [[[a|e] s1] t1]; simpl in *; [|done].
  specialize (Hk a s1). destruct (k a s1) as [[[b|e] s2] t2]; [|done].
  intros Hb. apply Forall_app. auto.
Qed.

(** A computation that returns no value in [C]. *)
Lemma on_return_never {A} (C : A → Prop) (Q : A → list Ev → Prop) (m : Eff St Ev A) :
  triple (λ _, True) m (λ a _, ¬ C a) (λ _ _, True) →
  on_return m (λ a t, C a → Q a t).
Proof.
  intros Hm s. specialize (Hm s I). by destruct (m s) as [[[a|e] s1] t1].
Qed.

Lemma triple_top {A} P (m : Eff St Ev A) : triple P m (λ _ _, True) (λ _ _, True).
Proof. intros s _. by destruct (m s) as [[[a|e] s1] t1]. Qed.

End EffFacts.

Create HintDb emits.
#[export] Hint Resolve emits_only_ret emits_only_throw emits_only_get_state
  emits_only_modify_state emits_only_settle : emits.

(** [emits_only] goals follow the shape of the computation; each effect
    is checked by computation. *)
Ltac solve_emits :=
  repeat first
    [ apply emits_only_bind; [|intros ?]
    | apply emits_only_try_catch; [|intros ?]
    | apply emits_only_emit; reflexivity
    | progress eauto with emits
    | match goal with
      | |- emits_only _ (if ?b then _ else _) => destruct b
      | |- emits_only _ (match ?x with _ => _ end) => destruct x
      | |- emits_only _ (let _ := _ in _) => cbv zeta
      end ].

Create HintDb stateless.
#[export] Hint Resolve stateless_ret stateless_throw stateless_emit stateless_get_state
  stateless_settle : stateless.

Create HintDb preserves.

(** [preserves] goals follow the shape of the computation; a part that
    is [stateless] keeps every invariant. *)
Ltac solve_preserves :=
  repeat first
    [ apply stateless_preserves; solve [eauto with stateless]
    | apply preserves_bind; [|intros ?]
    | apply preserves_try_catch; [|intros ?]
    | progress eauto with preserves
    | match goal with
      | |- preserves _ (if ?b then _ else _) => destruct b
      | |- preserves _ (match ?x with _ => _ end) => destruct x
      | |- preserves _ (let _ := _ in _) => cbv zeta
      end ].

(** [stateless] goals follow the shape of the computation. *)
Ltac solve_stateless :=
  repeat first
    [ apply stateless_bind; [|intros ?]
    | apply stateless_try_catch; [|intros ?]
    | progress eauto with stateless
    | match goal with
      | |- stateless (if ?b then _ else _) => destruct b
      | |- stateless (match ?x with _ => _ end) => destruct x
      | |- stateless (let _ := _ in _) => cbv zeta
      end ].

(** ** Objects used as dictionaries *)

Module JsObjectFacts.
Import JsObject.

Section WithValues.
Context {V : Type}.
Implicit Types (o : list (string * V)) (k : string) (v : V).

Lemma get_alter_eq f k o : get k (alter f k o) = f <$> get k o.
Proof.
  induction o as [|[k' v] rest IH]; simpl; [done|].
  destruct (String.eqb k k') eqn:E; simpl; rewrite E; [done|apply IH].
Qed.

Lemma get_alter_ne f k k' o : k ≠ k' → get k' (alter f k o) = get k' o.
Proof.
  intros Hne. induction o as [|[k0 v] rest IH]; simpl; [done|].
  destruct (String.eqb k k0) eqn:E; simpl.
  - apply String.eqb_eq in E as <-.
    destruct (String.eqb k' k) eqn:E'; [|done].
    apply String.eqb_eq in E'. congruence.
  - destruct (String.eqb k' k0); [done|apply IH].
Qed.

Lemma get_app k o1 o2 :
  get k (o1 ++ o2) = match get k o1 with Some v => Some v | None => get k o2 end.
Proof.
  induction o1 as [|[k' v] rest IH]; simpl; [done|].
  destruct (String.eqb k k'); [done|apply IH].
Qed.

Lemma get_insert_index_eq n k v o :
  get k o = None → get k (insert_index n k v o) = Some v.
Proof.
  induction o as [|[k0 v0] rest IH]; simpl.
  - by rewrite String.eqb_refl.
  - destruct (String.eqb k k0) eqn:E0; [done|]. intros Hrest.
    destruct (array_index k0) as [m|]; [destruct (m <? n)%N|]; simpl;
      rewrite ?E0, ?String.eqb_refl; auto.
Qed.

Lemma get_insert_index_ne n k v k' o :
  k ≠ k' → get k' (insert_index n k v o) = get k' o.
Proof.
  intros Hne. assert (String.eqb k' k = false) as E
    by (apply String.eqb_neq; congruence).
  induction o as [|[k0 v0] rest IH]; simpl.
  - by rewrite E.
  - destruct (array_index k0) as [m|]; [destruct (m <? n)%N|]; simpl;
      rewrite ?E; try done.
    by rewrite IH.
Qed.

Lemma alter_absent f k o : get k o = None → alter f k o = o.
Proof.
  induction o as [|[k' v] rest IH]; simpl; [done|].
  destruct (String.eqb k k'); [done|]. intros G. by rewrite IH.
Qed.

(** An assignment creates or replaces the own property, but for the
    accessor [__proto__] where [o] has no own property of that name. *)
Lemma get_set_eq k v o :
  get k (set k v o)
  = if is_Some_dec (get k o) then Some v
    else if String.eqb k "__proto__" then None else Some v.
Proof.
  unfold set. destruct (get k o) as [v0|] eqn:G.
  - rewrite get_alter_eq, G. by destruct (is_Some_dec _) as [|[]].
  - destruct (is_Some_dec _) as [[? [=]]|_].
    destruct (String.eqb k "__proto__"); [done|].
    destruct (array_index k) as [n|].
    + by apply get_insert_index_eq.
    + rewrite get_app, G. simpl. by rewrite String.eqb_refl.
Qed.

Lemma get_set_own k v o : k ≠ "__proto__" → get k (set k v o) = Some v.
Proof.
  intros Hk. rewrite get_set_eq. destruct (is_Some_dec _); [done|].
  by apply String.eqb_neq in Hk as ->.
Qed.

Lemma get_set_ne k v k' o : k ≠ k' → get k' (set k v o) = get k' o.
Proof.
  intros Hne. unfold set. destruct (get k o) as [v0|] eqn:G.
  - by apply get_alter_ne.
  - destruct (String.eqb k "__proto__"); [done|].
    destruct (array_index k) as [n|].
    + by apply get_insert_index_ne.
    + rewrite get_app. destruct (get k' o); [done|]. simpl.
      destruct (String.eqb k' k) eqn:E; [|done].
      apply String.eqb_eq in E. congruence.
Qed.

Lemma get_alter_is_Some f k k' o : is_Some (get k' o) → is_Some (get k' (alter f k o)).
Proof.
  intros [v Hk']. destruct (decide (k = k')) as [->|Hne].
  - rewrite get_alter_eq, Hk'. by eexists.
  - rewrite get_alter_ne, Hk'; [by eexists|done].
Qed.

(** No assignment removes an own property. *)
Lemma get_set_is_Some k v k' o : is_Some (get k' o) → is_Some (get k' (set k v o)).
Proof.
  intros Hk'. destruct (decide (k = k')) as [->|Hne].
  - rewrite get_set_eq. by destruct (is_Some_dec _).
  - by rewrite get_set_ne.
Qed.

End WithValues.

End JsObjectFacts.

(** ** Strings *)

Module JsFacts.
Import Js.

Lemma prefix_append_l (n h rest : string) :
  String.prefix n h = true → String.prefix n (h +:+ rest) = true.
Proof.
  revert h. induction n as [|c n IH]; intros h; simpl.
  - by destruct (h +:+ rest).
  - destruct h as [|c' h]; simpl; [done|].
    destruct (ascii_dec c c'); [apply IH|done].
Qed.

Lemma includes_prefix (n h : string) :
  String.prefix n h = true → includes n h = true.
Proof. intros Hp. destruct h; cbn [includes]; by rewrite Hp. Qed.

Lemma includes_later (n : string) (c : ascii) (h : string) :
  includes n h = true → includes n (String c h) = true.
Proof. intros Hi. cbn [includes]. rewrite Hi. apply orb_true_r. Qed.

Lemma includes_append_r (n before h : string) :
  includes n h = true → includes n (before +:+ h) = true.
Proof.
  intros Hi. induction before as [|c before IH]; [done|].
  by apply includes_later.
Qed.

Lemma includes_append_l (n h rest : string) :
  includes n h = true → includes n (h +:+ rest) = true.
Proof.
  induction h as [|c h IH]; cbn [includes].
  - rewrite orb_false_r. intros Hp.
    apply includes_prefix. by apply (prefix_append_l n "" rest).
  - intros [Hp|Hi]%orb_true_iff.
    + apply includes_prefix. by apply (prefix_append_l n (String c h) rest).
    + apply (includes_later n c (h +:+ rest)). by apply IH.
Qed.

Lemma includes_itself (n : string) : includes n n = true.
Proof.
  apply includes_prefix. induction n as [|c n IH]; simpl; [done|].
  by destruct (ascii_dec c c).
Qed.

Lemma includes_join (n sep : string) (parts : list string) :
  n ∈ parts → includes n (join sep parts) = true.
Proof.
  induction parts as [|p [|q parts] IH]; intros Hin.
  - by apply elem_of_nil in Hin.
  - apply list_elem_of_singleton in Hin as ->. apply includes_itself.
  - cbn [join]. apply elem_of_cons in Hin as [->|Hin].
    + apply includes_append_l, includes_itself.
    + by apply includes_append_r, includes_append_r, IH.
Qed.

End JsFacts.

(** ** The task state store *)

Section StoreFacts.
Import Store.
Variable env : Env.
Variable clock : Clock.

(** What each handler returns, leaves in storage and does, in terms of
    the ledger it read. *)
Lemma getPRD_run (s : Storage) :
  getPRD env clock s
  = (Normal (ledger env clock s), initialised env clock s, initialisation env clock s).
Proof.
  unfold getPRD, ledger, initialised, initialisation, ledger, bind, get_state.
  destruct s as [[prd|] progress alarm given]; reflexivity.
Qed.

Lemma getPRD_stored (s : Storage) (prd : PRD) :
  stored_prd s = Some prd → getPRD env clock s = (Normal prd, s, []).
Proof.
  intros Hs. rewrite getPRD_run. unfold ledger, initialised, initialisation, ledger.
  destruct s as [? progress alarm given]; simpl in *; subst; reflexivity.
Qed.

(** The scan of the alarm handler stops at the entry that
    [first_eligible] returns and changes that entry only. *)
Lemma alarm_scan_first (entries : list (string * PRDEntry)) :
  match first_eligible entries with
  | Some (taskId, task) =>
      ∃ before after,
        entries = before ++ (taskId, task) :: after
        ∧ Forall (λ e, eligible e.2 = false) before
        ∧ eligible task = true
        ∧ alarm_scan entries
          = Some (taskId, bump_attempts task,
                  before ++ (taskId, bump_attempts task) :: after)
  | None => alarm_scan entries = None
  end.
Proof.
  induction entries as [|[k t] rest IH]; simpl; [done|].
  destruct (eligible t) eqn:E.
  - exists [], rest. by repeat split.
  - destruct (first_eligible rest) as [[k' t']|].
    + destruct IH as (before & after & -> & Hb & Ht & ->).
      exists ((k, t) :: before), after. repeat split; auto.
    + by rewrite IH.
Qed.

(** [eligible], in terms of the fields it reads. *)
Lemma eligible_false (t : PRDEntry) :
  eligible t = false ↔ passes t = true ∨ (3 ≤ attempts t)%nat.
Proof.
  unfold eligible. destruct (passes t); simpl.
  - split; auto.
  - rewrite Nat.ltb_ge. split; [auto|]. by intros [|].
Qed.

Lemma eligible_true (t : PRDEntry) :
  eligible t = true ↔ passes t = false ∧ (attempts t < 3)%nat.
Proof.
  unfold eligible. destruct (passes t); simpl.
  - split; [done|]. by intros [? _].
  - rewrite Nat.ltb_lt. split; [auto|]. by intros [_ ?].
Qed.

Lemma first_eligible_spec (entries : list (string * PRDEntry)) :
  match first_eligible entries with
  | Some (taskId, task) =>
      ∃ before after,
        entries = before ++ (taskId, task) :: after
        ∧ Forall (λ e, eligible e.2 = false) before
        ∧ eligible task = true
  | None => Forall (λ e, eligible e.2 = false) entries
  end.
Proof.
  induction entries as [|[k t] rest IH]; simpl; [done|].
  destruct (eligible t) eqn:E.
  - by exists [], rest.
  - destruct (first_eligible rest) as [[k' t']|].
    + destruct IH as (before & after & -> & Hb & Ht).
      exists ((k, t) :: before), after. repeat split; auto.
    + by constructor.
Qed.

Lemma handleEnqueue_run (task : Task) (s : Storage) :
  let prd := touch (now_iso clock)
               (set_tasks
                  (JsObject.set (task_id task)
                     {| description := task_description task;
                        branchName := task_branch task;
                        passes := false; prUrl := None; attempts := 0;
                        lastAttemptAt := None; error := None |}
                     (tasks (ledger env clock s)))
                  (ledger env clock s)) in
  handleEnqueue env clock task s
  = (Normal {| status := 200; body := BodyOkTask (task_id task) |},
     {| stored_prd := Some prd;
        stored_progress := stored_progress s;
        alarm_time := Some (now_ms clock + 1000)%Z;
        object_prototype := object_prototype s |},
     initialisation env clock s
     ++ [StoragePutPRD prd; StorageSetAlarm (now_ms clock + 1000)%Z]).
Proof.
  unfold handleEnqueue, bind. rewrite getPRD_run. reflexivity.
Qed.

(** Enqueueing a task under an id other than [__proto__] leaves its
    ledger entry with [passes = false] and [attempts = 0], whatever the
    storage held before; in particular a second enqueue of the same id,
    right after a first one, leaves that entry with [attempts = 0] and
    [passes = false]. *)
Lemma enqueue_resets_entry (clock' : Clock) (task : Task)
    (title' description' branch' : string) (s : Storage) :
  task_id task ≠ "__proto__" →
  let fresh d b :=
    {| description := d; branchName := b; passes := false; prUrl := None;
       attempts := 0; lastAttemptAt := None; error := None |} in
  let again :=
    {| task_id := task_id task; task_title := title';
       task_description := description'; task_branch := branch' |} in
  let s1 := final_state (handleEnqueue env clock task s) in
  let s2 := final_state (handleEnqueue env clock' again s1) in
  entry_of env clock s1 (task_id task)
  = Some (fresh (task_description task) (task_branch task))
  ∧ entry_of env clock' s2 (task_id task) = Some (fresh description' branch').
Proof.
  intros Hid. simpl. rewrite !handleEnqueue_run. unfold entry_of, ledger, final_state.
  simpl. split; by apply JsObjectFacts.get_set_own.
Qed.

(** [prd.tasks[taskId]] yields an entry exactly where the ledger has an
    own property of that name. *)
Lemma member_cases (given : Prototype) (taskId : string)
    (o : list (string * PRDEntry)) :
  match member given taskId o with
  | OwnEntry t => JsObject.get taskId o = Some t
  | _ => JsObject.get taskId o = None
  end.
Proof.
  unfold member, given_string.
  destruct (JsObject.get taskId o); [done|]. by repeat case_match.
Qed.

Lemma member_own (given : Prototype) (taskId : string)
    (o : list (string * PRDEntry)) (t : PRDEntry) :
  JsObject.get taskId o = Some t → member given taskId o = OwnEntry t.
Proof. unfold member. by intros ->. Qed.

Lemma handleComplete_run (taskId : string) (result : ExecutionResult) (s : Storage) :
  let given := object_prototype s in
  let url := read_optional (res_prUrl result) (given_prUrl given) in
  handleComplete env clock taskId result s
  = match member given taskId (tasks (ledger env clock s)) with
    | Falsy =>
        (Normal {| status := 404; body := BodyError "Task not found" |},
         initialised env clock s, initialisation env clock s)
    | Primitive type text =>
        (Throw (cannot_create_property "passes" type text),
         initialised env clock s, initialisation env clock s)
    | target =>
        let prd :=
          touch (now_iso clock)
            (set_tasks
               (JsObject.alter
                  (λ t, {| description := description t;
                           branchName := branchName t;
                           passes := res_success result;
                           prUrl := url;
                           attempts := attempts t;
                           lastAttemptAt := Some (now_iso clock);
                           error := error t |})
                  taskId (tasks (ledger env clock s)))
               (ledger env clock s)) in
        let entry :=
          {| pe_timestamp := now_iso clock; pe_taskId := taskId;
             pe_description := match target with
                               | OwnEntry t => description t
                               | _ => "undefined"
                               end;
             pe_learnings := res_learnings result; pe_filesChanged := [] |} in
        let log := progress_log s +:+ render_progress entry in
        (Normal {| status := 200; body := BodyOk |},
         {| stored_prd := Some prd;
            stored_progress := match res_learnings result with
                               | [] => stored_progress s
                               | _ :: _ => Some log
                               end;
            alarm_time := alarm_time s;
            object_prototype :=
              match target with
              | PrototypeObject =>
                  {| given_passes := Some (res_success result);
                     given_prUrl := url;
                     given_lastAttemptAt := Some (now_iso clock);
                     given_error := given_error given |}
              | _ => given
              end |},
         initialisation env clock s
         ++ StoragePutPRD prd
            :: match res_learnings result with
               | [] => []
               | _ :: _ => [StoragePutProgress log]
               end)
    end.
Proof.
  cbn zeta. unfold handleComplete, bind at 1. rewrite getPRD_run.
  unfold bind at 1, get_state. cbn [initialised object_prototype].
  destruct (member (object_prototype s) taskId (tasks (ledger env clock s)));
    destruct (res_learnings result) as [|l ls]; cbn; by rewrite ?app_nil_r.
Qed.

Lemma handleFail_run (taskId message : string) (s : Storage) :
  let given := object_prototype s in
  handleFail env clock taskId message s
  = match member given taskId (tasks (ledger env clock s)) with
    | Falsy =>
        (Normal {| status := 404; body := BodyError "Task not found" |},
         initialised env clock s, initialisation env clock s)
    | Primitive type text =>
        (Throw (cannot_create_property "passes" type text),
         initialised env clock s, initialisation env clock s)
    | target =>
        let prd :=
          touch (now_iso clock)
            (set_tasks
               (JsObject.alter
                  (λ t, {| description := description t;
                           branchName := branchName t;
                           passes := false;
                           prUrl := prUrl t;
                           attempts := attempts t + 1;
                           lastAttemptAt := Some (now_iso clock);
                           error := Some message |})
                  taskId (tasks (ledger env clock s)))
               (ledger env clock s)) in
        (Normal {| status := 200; body := BodyOk |},
         {| stored_prd := Some prd;
            stored_progress := stored_progress s;
            alarm_time := alarm_time s;
            object_prototype :=
              match target with
              | PrototypeObject =>
                  {| given_passes := Some false;
                     given_prUrl := given_prUrl given;
                     given_lastAttemptAt := Some (now_iso clock);
                     given_error := Some message |}
              | _ => given
              end |},
         initialisation env clock s ++ [StoragePutPRD prd])
    end.
Proof.
  cbn zeta. unfold handleFail, bind at 1. rewrite getPRD_run.
  unfold bind at 1, get_state. cbn [initialised object_prototype].
  destruct (member (object_prototype s) taskId (tasks (ledger env clock s)));
    cbn; by rewrite ?app_nil_r.
Qed.

Lemma alarm_run (fetch_outcome : option string) (s : Storage) :
  alarm env clock fetch_outcome s
  = match alarm_scan (JsObject.entries (tasks (ledger env clock s))) with
    | Some (taskId, task, tasks') =>
        let prd := set_tasks tasks' (ledger env clock s) in
        (Normal tt,
         {| stored_prd := Some prd;
            stored_progress := stored_progress s;
            alarm_time := alarm_time s;
            object_prototype := object_prototype s |},
         initialisation env clock s
         ++ [StoragePutPRD prd;
             HttpPostExecute (EXECUTION_SERVER_URL env +:+ "/execute")
               ("Bearer " +:+ EXECUTION_SERVER_TOKEN env)
               (execution_request env taskId task)])
    | None => (Normal tt, initialised env clock s, initialisation env clock s)
    end.
Proof.
  unfold alarm, bind at 1. rewrite getPRD_run.
  destruct (alarm_scan _) as [[[taskId task] tasks']|].
  - destruct fetch_outcome; cbn; by rewrite ?app_nil_r.
  - cbn. by rewrite app_nil_r.
Qed.

Lemma initialised_stored (s : Storage) (prd : PRD) :
  stored_prd s = Some prd
  → initialised env clock s = s ∧ initialisation env clock s = [].
Proof.
  destruct s as [stored progress alarm given]. simpl. intros ->. by split.
Qed.

(** The text added to the progress log for an entry has one line per
    learning of the entry. *)
Lemma render_progress_learnings (entry : ProgressEntry) (learning : string) :
  learning ∈ pe_learnings entry →
  Js.includes ("- " +:+ learning) (render_progress entry) = true.
Proof.
  intros Hin. unfold render_progress. apply JsFacts.includes_join.
  apply elem_of_app. right. apply elem_of_app. left.
  apply list_elem_of_fmap. by exists learning.
Qed.

(** [complete] on a task that has an entry in the ledger answers 200,
    sets [passes], [prUrl] and [lastAttemptAt] on its entry and leaves
    the other fields, [attempts] among them, as they were; it appends to
    the progress log one entry, with a line for each of the result's
    learnings, when there are some, and does not write the log when
    there are none. *)
Lemma complete_updates_entry (taskId : string) (result : ExecutionResult)
    (s : Storage) (t : PRDEntry) :
  entry_of env clock s taskId = Some t →
  let r := handleComplete env clock taskId result s in
  completion r = Normal {| status := 200; body := BodyOk |}
  ∧ entry_of env clock (final_state r) taskId
    = Some {| description := description t;
              branchName := branchName t;
              passes := res_success result;
              prUrl := read_optional (res_prUrl result)
                         (given_prUrl (object_prototype s));
              attempts := attempts t;
              lastAttemptAt := Some (now_iso clock);
              error := error t |}
  ∧ object_prototype (final_state r) = object_prototype s
  ∧ match res_learnings result with
    | [] =>
        stored_progress (final_state r) = stored_progress s
        ∧ filter is_put_progress (effects r) = []
    | _ :: _ =>
        let log :=
          progress_log s
          +:+ Js.join Js.nl
                ([Js.nl +:+ "## " +:+ now_iso clock +:+ " - " +:+ taskId;
                  description t; ""; "### Learnings"]
                 ++ map (λ l, "- " +:+ l) (res_learnings result) ++ [""]) in
        stored_progress (final_state r) = Some log
        ∧ filter is_put_progress (effects r) = [StoragePutProgress log]
    end.
Proof.
  intros G r. subst r. rewrite handleComplete_run.
  unfold entry_of in G. rewrite (member_own _ _ _ _ G).
  assert (filter is_put_progress (initialisation env clock s) = []) as Hinit
    by (unfold initialisation; by destruct (stored_prd s)).
  unfold entry_of, render_progress.
  destruct (res_learnings result) as [|l ls];
    cbn; rewrite JsObjectFacts.get_alter_eq, G;
    rewrite filter_app, Hinit, ?app_nil_r; by repeat split.
Qed.

(** C3. A firing of the dispatch timer completes normally.  When the
    ledger has an entry with [passes = false] and [attempts < 3], the
    first one in iteration order is selected: its [attempts] grows by
    one and every other entry, and every other field of the ledger, is
    as before; the ledger so changed is written to storage and after
    that one request, for this task, is posted to the execution server;
    nothing else is done.  When no entry is eligible, no request is
    sent and nothing changes: the ledger, the progress log and the timer
    are as before, and the storage is not written (but for a storage
    that held no ledger yet, which no firing meets, see
    [alarm_armed_ledger_stored]). *)
Theorem alarm_dispatches_first_eligible (fetch_outcome : option string) (s : Storage) :
  let r := alarm env clock fetch_outcome s in
  let prd := ledger env clock s in
  let spent (e : string * PRDEntry) := passes e.2 = true ∨ (3 ≤ attempts e.2)%nat in
  completion r = Normal tt
  ∧ ((∃ before taskId task after,
        tasks prd = before ++ (taskId, task) :: after
        ∧ Forall spent before
        ∧ passes task = false ∧ (attempts task < 3)%nat
        ∧ let task' :=
            {| description := description task;
               branchName := branchName task;
               passes := passes task;
               prUrl := prUrl task;
               attempts := attempts task + 1;
               lastAttemptAt := lastAttemptAt task;
               error := error task |} in
          let prd' :=
            {| projectName := projectName prd;
               tasks := before ++ (taskId, task') :: after;
               version := version prd;
               updatedAt := updatedAt prd |} in
          final_state r = {| stored_prd := Some prd';
                             stored_progress := stored_progress s;
                             alarm_time := alarm_time s;
                             object_prototype := object_prototype s |}
          ∧ effects r
            = match stored_prd s with
              | Some _ => []
              | None => [StoragePutPRD prd]
              end
              ++ [StoragePutPRD prd';
                  HttpPostExecute (EXECUTION_SERVER_URL env +:+ "/execute")
                    ("Bearer " +:+ EXECUTION_SERVER_TOKEN env)
                    {| req_taskId := taskId;
                       req_repoUrl :=
                         "https://github.com/" +:+ GITHUB_REPO_OWNER env +:+ "/"
                         +:+ GITHUB_REPO_NAME env +:+ ".git";
                       req_baseBranch := "main";
                       req_branchName := branchName task;
                       req_prompt := description task;
                       req_maxIterations := 10;
                       req_callbackUrl :=
                         "https://ralph-coordinator." +:+ EXECUTION_SERVER_URL env
                         +:+ "/callbacks/execution" |}])
     ∨ (Forall spent (tasks prd)
        ∧ ledger env clock (final_state r) = prd
        ∧ stored_progress (final_state r) = stored_progress s
        ∧ alarm_time (final_state r) = alarm_time s
        ∧ match stored_prd s with
          | Some _ => final_state r = s ∧ effects r = []
          | None => effects r = [StoragePutPRD prd]
          end)).
Proof.
  intros r prd spent. subst r prd. rewrite alarm_run.
  pose proof (alarm_scan_first (JsObject.entries (tasks (ledger env clock s)))) as Hscan.
  assert (∀ entries, Forall (λ e, eligible e.2 = false) entries → Forall spent entries)
    as Hspent.
  { intros entries Hentries. eapply Forall_impl; [exact Hentries|].
    intros e. by rewrite eligible_false. }
  destruct (first_eligible _) as [[taskId task]|] eqn:Hfirst.
  - destruct Hscan as (before & after & Htasks & Hbefore & Htask & ->).
    apply eligible_true in Htask as [Hpasses Hattempts].
    split; [done|]. left. exists before, taskId, task, after.
    do 4 (split; [by auto|]). split; [done|].
    unfold initialisation, ledger. by destruct (stored_prd s).
  - rewrite Hscan. split; [done|]. right. split.
    { apply Hspent.
      pose proof (first_eligible_spec (JsObject.entries (tasks (ledger env clock s))))
        as Hnone.
      by rewrite Hfirst in Hnone. }
    do 3 (split; [done|]).
    destruct (stored_prd s) as [stored|] eqn:Hs.
    + by apply initialised_stored in Hs as [-> ->].
    + unfold initialisation, ledger. by rewrite Hs.
Qed.

(** The three request handlers that change the ledger increment its
    version. *)
Lemma handleEnqueue_version (task : Task) (s : Storage) :
  version (ledger env clock (final_state (handleEnqueue env clock task s)))
  = version (ledger env clock s) + 1.
Proof. by rewrite handleEnqueue_run. Qed.

Lemma handleComplete_version (taskId : string) (result : ExecutionResult)
    (s : Storage) (t : PRDEntry) :
  entry_of env clock s taskId = Some t
  → version (ledger env clock (final_state (handleComplete env clock taskId result s)))
    = version (ledger env clock s) + 1.
Proof.
  intros Ht. rewrite handleComplete_run. unfold entry_of in Ht.
  by rewrite (member_own _ _ _ _ Ht).
Qed.

Lemma handleFail_version (taskId message : string) (s : Storage) (t : PRDEntry) :
  entry_of env clock s taskId = Some t
  → version (ledger env clock (final_state (handleFail env clock taskId message s)))
    = version (ledger env clock s) + 1.
Proof.
  intros Ht. rewrite handleFail_run. unfold entry_of in Ht.
  by rewrite (member_own _ _ _ _ Ht).
Qed.

(** The alarm handler leaves the version as it is, also when it
    increments the attempts of an entry. *)
Lemma alarm_version (fetch_outcome : option string) (s : Storage) :
  version (ledger env clock (final_state (alarm env clock fetch_outcome s)))
  = version (ledger env clock s).
Proof.
  rewrite alarm_run. by destruct (alarm_scan _) as [[[taskId task] tasks']|].
Qed.

(** C4, as amended.  The alarm handler never arms the dispatch timer:
    it leaves the alarm of the storage as it is and calls [setAlarm] on
    no path, whether or not eligible entries remain; neither do
    [complete] and [fail].  Only [enqueue] arms the timer, one second
    ahead. *)
Theorem dispatch_timer_armed_by_enqueue_only (fetch_outcome : option string)
    (task : Task) (taskId message : string) (result : ExecutionResult) (s : Storage) :
  let fired := alarm env clock fetch_outcome s in
  let enqueued := handleEnqueue env clock task s in
  let completed := handleComplete env clock taskId result s in
  let failed := handleFail env clock taskId message s in
  (alarm_time (final_state fired) = alarm_time s
   ∧ filter is_set_alarm (effects fired) = [])
  ∧ (alarm_time (final_state enqueued) = Some (now_ms clock + 1000)%Z
     ∧ filter is_set_alarm (effects enqueued)
       = [StorageSetAlarm (now_ms clock + 1000)%Z])
  ∧ (alarm_time (final_state completed) = alarm_time s
     ∧ filter is_set_alarm (effects completed) = [])
  ∧ (alarm_time (final_state failed) = alarm_time s
     ∧ filter is_set_alarm (effects failed) = []).
Proof.
  assert (filter is_set_alarm (initialisation env clock s) = []) as Hinit
    by (unfold initialisation; by destruct (stored_prd s)).
  simpl. rewrite alarm_run, handleEnqueue_run, handleComplete_run, handleFail_run.
  repeat split.
  - by destruct (alarm_scan _) as [[[k t] tasks']|].
  - destruct (alarm_scan _) as [[[k t] tasks']|]; cbn; [|done].
    by rewrite filter_app, Hinit.
  - cbn. by rewrite filter_app, Hinit.
  - by destruct (member _ _ _).
  - destruct (member _ _ _); try done;
      destruct (res_learnings result); cbn; by rewrite filter_app, Hinit.
  - by destruct (member _ _ _).
  - destruct (member _ _ _); try done; cbn; by rewrite filter_app, Hinit.
Qed.

End StoreFacts.

(** *** Reachable storages *)

Section Reachable.
Import Store.
Variable env : Env.

(** A storage with an armed timer holds a ledger: only [enqueue] arms
    the timer, and it stores the ledger first. *)
Lemma alarm_armed_ledger_stored (s : Storage) :
  reachable env s → is_Some (alarm_time s) → is_Some (stored_prd s).
Proof.
  revert s.
  apply (rtc_ind_r (λ s, is_Some (alarm_time s) → is_Some (stored_prd s))).
  { by intros [scheduledTime [=]]. }
  intros s s' Hreach Hstep IH.
  destruct Hstep as [clock task s|clock taskId result s|clock taskId message s
                    |clock s|clock s|s|entry s|clock fetch_outcome scheduledTime s Harmed
                    |given s].
  - rewrite handleEnqueue_run. by eexists.
  - rewrite handleComplete_run. destruct (member _ _ _); by eexists.
  - rewrite handleFail_run. destruct (member _ _ _); by eexists.
  - unfold handleGetNextTask, bind. rewrite getPRD_run. by eexists.
  - unfold handleGetPRD, bind. rewrite getPRD_run. by eexists.
  - exact IH.
  - exact IH.
  - rewrite alarm_run. destruct (alarm_scan _) as [[[taskId task] tasks']|]; by eexists.
  - exact IH.
Qed.

(** A firing that finds no eligible entry does nothing at all. *)
Lemma alarm_without_eligible_entry (clock : Clock) (fetch_outcome : option string)
    (s : Storage) :
  reachable env s → is_Some (alarm_time s) →
  first_eligible (JsObject.entries (tasks (ledger env clock (alarm_taken s)))) = None →
  alarm env clock fetch_outcome (alarm_taken s) = (Normal tt, alarm_taken s, []).
Proof.
  intros Hreach Harmed Hnone.
  destruct (alarm_armed_ledger_stored s Hreach Harmed) as [prd Hprd].
  pose proof (alarm_scan_first
                (JsObject.entries (tasks (ledger env clock (alarm_taken s))))) as Hscan.
  rewrite Hnone in Hscan. rewrite alarm_run, Hscan.
  by destruct (initialised_stored env clock (alarm_taken s) prd Hprd) as [-> ->].
Qed.

End Reachable.

(** The scenario of the specification: [complete] with the learnings
    [["x"]] appends one entry to the progress log. *)
Example complete_with_one_learning :
  let r := Store.handleComplete Samples.env_a Samples.clock_b "T1"
             Samples.result_with_learning Samples.storage_one_queued in
  Store.stored_progress Samples.storage_one_queued = None
  ∧ Store.stored_progress (final_state r)
    = Some (Js.join Js.nl
              [""; "## 2023-11-14T22:13:25.000Z - T1"; "Add login"; "";
               "### Learnings"; "- x"; ""])
  ∧ (Store.passes <$> Store.entry_of Samples.env_a Samples.clock_b (final_state r) "T1")
    = Some true
  ∧ (Store.attempts <$> Store.entry_of Samples.env_a Samples.clock_b (final_state r) "T1")
    = Some 0.
Proof. by vm_compute. Qed.

(** C7, at the task id [__proto__]: the task is enqueued on an empty
    store, and enqueued again.  Both requests are answered 200 with the
    id, and each increments the version of the ledger; but the
    assignment [prd.tasks["__proto__"] = {...}] sets the prototype of
    [prd.tasks] and creates no property, so that the stored ledger has
    no entry for the id, hence none with [attempts = 0] and
    [passes = false]: its tasks are empty, and no later timer will find
    the task. *)
Theorem enqueue_proto_stores_no_entry :
  let first :=
    Store.handleEnqueue Samples.env_a Samples.clock_a Cases.task_proto
      Store.storage_empty in
  let second :=
    Store.handleEnqueue Samples.env_a Samples.clock_b Cases.task_proto
      (final_state first) in
  let after := Store.ledger Samples.env_a Samples.clock_b (final_state second) in
  completion first
  = Normal {| Store.status := 200; Store.body := Store.BodyOkTask "__proto__" |}
  ∧ completion second
    = Normal {| Store.status := 200; Store.body := Store.BodyOkTask "__proto__" |}
  ∧ Store.stored_prd (final_state second) = Some after
  ∧ Store.entry_of Samples.env_a Samples.clock_b (final_state second) "__proto__" = None
  ∧ Store.tasks after = []
  ∧ Store.version after = 3
  ∧ Store.first_eligible (JsObject.entries (Store.tasks after)) = None.
Proof. vm_compute. by repeat split. Qed.

(** C8, at the task id [constructor], for which the ledger, with the
    single task T1, has no entry: [prd.tasks["constructor"]] is the
    function that [prd.tasks] inherits from [Object.prototype], the guard
    takes the task for found, and [complete] answers 200 where a 404 is
    due; it writes the ledger with its version incremented, and appends
    to the progress log an entry for a task whose description is
    [undefined]. *)
Theorem complete_finds_inherited_name :
  let s := Samples.storage_one_queued in
  let r := Store.handleComplete Samples.env_a Samples.clock_b "constructor"
             Cases.result_constructor s in
  let before := Store.ledger Samples.env_a Samples.clock_b s in
  let after := Store.ledger Samples.env_a Samples.clock_b (final_state r) in
  Store.entry_of Samples.env_a Samples.clock_b s "constructor" = None
  ∧ completion r = Normal {| Store.status := 200; Store.body := Store.BodyOk |}
  ∧ Store.tasks after = Store.tasks before
  ∧ Store.version before = 2
  ∧ Store.version after = 3
  ∧ Store.stored_progress s = None
  ∧ effects r
    = [Store.StoragePutPRD after;
       Store.StoragePutProgress
         (Js.join Js.nl
            [""; "## 2023-11-14T22:13:25.000Z - constructor"; "undefined"; "";
             "### Learnings"; "- x"; ""])].
Proof. vm_compute. by repeat split. Qed.

(** A [fail] for the id [__proto__] lands on [Object.prototype]: the
    ledger keeps its entries and gets a new version, and
    [Object.prototype] has an [error] from then on.  A [fail] for the id
    [error] then finds that string where it looks for a task, and
    throws. *)
Example fail_on_prototype_then_on_its_property :
  let s := Samples.storage_one_queued in
  let s1 := final_state
              (Store.handleFail Samples.env_a Samples.clock_b "__proto__" "boom" s) in
  let r := Store.handleFail Samples.env_a Samples.clock_b "error" "again" s1 in
  Store.tasks (Store.ledger Samples.env_a Samples.clock_b s1)
  = Store.tasks (Store.ledger Samples.env_a Samples.clock_b s)
  ∧ Store.version (Store.ledger Samples.env_a Samples.clock_b s1) = 3
  ∧ Store.object_prototype s1
    = {| Store.given_passes := Some false; Store.given_prUrl := None;
         Store.given_lastAttemptAt := Some "2023-11-14T22:13:25.000Z";
         Store.given_error := Some "boom" |}
  ∧ r = (Throw "Cannot create property 'passes' on string 'boom'", s1, []).
Proof. vm_compute. by repeat split. Qed.

(** C1, at a ledger with the single queued task T1: the alarm handler
    increments the attempts of T1 and writes the ledger, and the version
    of the stored ledger is the same after as before. *)
Theorem alarm_changes_entry_without_version :
  let s := Samples.storage_one_queued in
  let r := Store.alarm Samples.env_a Samples.clock_b None s in
  let before := Store.ledger Samples.env_a Samples.clock_b s in
  let after := Store.ledger Samples.env_a Samples.clock_b (final_state r) in
  (Store.attempts <$> JsObject.get "T1" (Store.tasks before)) = Some 0
  ∧ (Store.attempts <$> JsObject.get "T1" (Store.tasks after)) = Some 1
  ∧ Store.stored_prd (final_state r) = Some after
  ∧ Store.version before = 2
  ∧ Store.version after = 2.
Proof. vm_compute. by repeat split. Qed.

(** C4, refuted: T1 and T2 are queued and the timer fires.  T1 is
    dispatched, T2 is still eligible afterwards, and no timer is armed:
    the handler made no [setAlarm] call and the storage holds no alarm. *)
Lemma alarm_does_not_rearm :
  let s := Samples.storage_two_queued in
  let r := Store.alarm Samples.env_a Samples.clock_b None s in
  let after := Store.ledger Samples.env_a Samples.clock_b (final_state r) in
  (fst <$> Store.first_eligible (JsObject.entries (Store.tasks after))) = Some "T1"
  ∧ (Store.eligible <$> JsObject.get "T2" (Store.tasks after)) = Some true
  ∧ Store.alarm_time (final_state r) = None
  ∧ filter Store.is_set_alarm (effects r) = [].
Proof. vm_compute. by repeat split. Qed.

(** ** The quality gate *)

Section QualityFacts.
Import Server QualityChecker.
Variable w : World.
Variable worktreePath : string.

Lemma runTests_run (s : State) :
  runTests w worktreePath s
  = match outcome w NpmTest with
    | None => (Normal true, s, [Exec "npm test" worktreePath])
    | Some message =>
        if Js.includes "Missing script" message
        then (Normal true, s, [Exec "npm test" worktreePath])
        else (Throw message, s, [Exec "npm test" worktreePath])
    end.
Proof.
  unfold runTests, try_catch, execAsync, perform, bind, emit, settle.
  destruct (outcome w NpmTest) as [message|]; simpl; [|done].
  by destruct (Js.includes "Missing script" message).
Qed.

Lemma runTypecheck_stateless : stateless (runTypecheck w worktreePath).
Proof. unfold runTypecheck, execAsync, perform. solve_stateless. Qed.

Lemma runTests_stateless : stateless (runTests w worktreePath).
Proof. unfold runTests, execAsync, perform. solve_stateless. Qed.

Lemma runLint_stateless : stateless (runLint w worktreePath).
Proof. unfold runLint, execAsync, perform. solve_stateless. Qed.

Lemma runLint_never_throws : never_throws (runLint w worktreePath).
Proof.
  intros s. exists true.
  unfold runLint, try_catch, execAsync, perform, bind, emit, settle, completion.
  destruct (outcome w NpmRunLint) as [message|]; simpl; [|done].
  by destruct (Js.includes "Missing script" message).
Qed.

Lemma runAll_stateless : stateless (runAll w worktreePath).
Proof.
  unfold runAll, probe.
  pose proof runTypecheck_stateless. pose proof runTests_stateless.
  pose proof runLint_stateless.
  solve_stateless.
Qed.

Lemma installDependencies_stateless : stateless (installDependencies w worktreePath).
Proof. unfold installDependencies, execAsync, perform, probe. solve_stateless. Qed.

(** [runAll] never throws: each check runs inside its own [try]. *)
Lemma runAll_never_throws : never_throws (runAll w worktreePath).
Proof.
  unfold runAll. apply never_throws_bind.
  { apply never_throws_try_catch. intros e. apply never_throws_ret. }
  intros [|]; simpl; [|apply never_throws_ret].
  repeat (apply never_throws_bind;
          [apply never_throws_try_catch; intros e; apply never_throws_ret|intros ?]).
  apply never_throws_ret.
Qed.

(** On a project with a [package.json], [runAll] returns, and its
    [tests] field is decided by how [npm test] ends:
    [true] when it succeeds and when it fails with an error whose
    message contains "Missing script" (the way npm reports a project
    without test script); [false], with the entry "Tests failed: ..."
    added to [errors], when it fails with any other error. *)
Theorem runAll_tests_verdict (s : State) :
  outcome w AccessPackageJson = None →
  ∃ results,
    completion (runAll w worktreePath s) = Normal results
    ∧ match outcome w NpmTest with
      | None => tests results = true
      | Some message =>
          if Js.includes "Missing script" message
          then tests results = true
          else tests results = false
               ∧ "Tests failed: " +:+ message ∈ errors results
      end.
Proof.
  intros Hpkg.
  unfold runAll, runTypecheck, runTests, runLint, execAsync, perform, probe,
    completion.
  unfold bind, try_catch, emit, settle, ret, throw. rewrite Hpkg.
  destruct (outcome w NpmRunTypecheck) as [m1|];
    [destruct (Js.includes "Missing script" m1);
     [destruct (outcome w NpxTsc) as [m1'|]|]|];
  (destruct (outcome w NpmTest) as [m2|];
     [destruct (Js.includes "Missing script" m2)|]);
  (destruct (outcome w NpmRunLint) as [m3|];
     [destruct (Js.includes "Missing script" m3)|]);
  cbn; eexists; (split; [reflexivity|]); cbn; try done;
  (split; [done|]); set_solver.
Qed.

End QualityFacts.

(** C9, at a project that has a test script, [npm run build && jest],
    and no build script: the test command exits with a non-zero code,
    its error output mentions a missing script, and [runAll] reports
    [tests = true] with an empty error list, as for a project without
    tests. *)
Theorem failing_tests_taken_for_missing_script :
  Server.outcome Samples.world_tests_fail_on_missing_build Server.AccessPackageJson = None
  ∧ is_Some (Server.outcome Samples.world_tests_fail_on_missing_build Server.NpmTest)
  ∧ completion
      (QualityChecker.runAll Samples.world_tests_fail_on_missing_build
         "/workspace/rocket/.worktrees/task/t1" Samples.state_empty)
    = Normal {| QualityChecker.typecheck := true; QualityChecker.tests := true;
                QualityChecker.lint := true; QualityChecker.errors := [] |}.
Proof. split; [done|]. split; [by eexists|]. by vm_compute. Qed.

(** A project without test script passes the gate. *)
Example no_test_script_passes :
  completion
    (QualityChecker.runAll Samples.world_no_test_script
       "/workspace/rocket/.worktrees/task/t1" Samples.state_empty)
  = Normal {| QualityChecker.typecheck := true; QualityChecker.tests := true;
              QualityChecker.lint := true; QualityChecker.errors := [] |}.
Proof. by vm_compute. Qed.

(** The verdict on the world where the test suite fails. *)
Lemma runAll_tests_verdict_witness :
  ∃ results,
    completion
      (QualityChecker.runAll Samples.world_tests_fail
         "/workspace/rocket/.worktrees/task/t1" Samples.state_empty)
    = Normal results
    ∧ QualityChecker.tests results = false
    ∧ "Tests failed: Command failed: npm test" ∈ QualityChecker.errors results.
Proof.
  exact (runAll_tests_verdict Samples.world_tests_fail
           "/workspace/rocket/.worktrees/task/t1" Samples.state_empty eq_refl).
Defined.

(** ** The execution pipeline on the sample worlds *)

(** C2, at a request whose test suite fails: [execute] returns the
    failure result with the reasons, skips commit and push and leaves
    the worktree on disk, and posts nothing to the callback URL of the
    request. *)
Theorem quality_gate_failure_is_not_reported :
  let r := ExecutionAgent.execute "/workspace" Samples.no_learnings
             Samples.world_tests_fail Samples.request_a Samples.state_empty in
  completion r
  = Normal {| res_taskId := "T1"; res_success := false; res_prUrl := None;
              res_error :=
                Some "Quality checks failed: Tests failed: Command failed: npm test";
              res_logs := "Done. <promise>COMPLETE</promise>";
              res_learnings := [];
              res_testsPass := false; res_typecheckPass := true;
              res_duration := 5000 |}
  ∧ Js.truthy (req_callbackUrl Samples.request_a) = true
  ∧ filter Server.is_callback (effects r) = []
  ∧ filter Server.is_commit_or_push (effects r) = []
  ∧ "/workspace/rocket/.worktrees/task/t1" ∈ Server.worktrees (final_state r).
Proof.
  repeat split; by vm_compute.
Qed.

(** C5, refuted: the checks pass ([typecheck] and [tests] are both
    [true]) and the agent changed no file; the result that [execute]
    returns and posts to the callback has [testsPass = false] and
    [typecheckPass = false].  And on the same run for a request without
    callback URL, the failure result is posted nowhere. *)
Lemma no_diff_result_forgets_the_checks :
  let r := ExecutionAgent.execute "/workspace" Samples.no_learnings
             Samples.world_no_diff Samples.request_a Samples.state_empty in
  let r' := ExecutionAgent.execute "/workspace" Samples.no_learnings
              Samples.world_no_diff Samples.request_no_callback Samples.state_empty in
  let failure :=
    {| res_taskId := "T1"; res_success := false; res_prUrl := None;
       res_error := Some "No changes were made";
       res_logs := "Done. <promise>COMPLETE</promise>";
       res_learnings := [];
       res_testsPass := false; res_typecheckPass := false;
       res_duration := 5000 |} in
  completion
    (QualityChecker.runAll Samples.world_no_diff
       "/workspace/rocket/.worktrees/task/t1" Samples.state_empty)
  = Normal {| QualityChecker.typecheck := true; QualityChecker.tests := true;
              QualityChecker.lint := true; QualityChecker.errors := [] |}
  ∧ completion r = Normal failure
  ∧ filter Server.is_callback (effects r)
    = [Server.HttpPostCallback "https://coordinator.example/callbacks/execution" failure]
  ∧ completion r' = Normal failure
  ∧ filter Server.is_callback (effects r') = [].
Proof. repeat split; by vm_compute. Qed.

(** C6, refuted: after a run that ends on a quality-gate failure, and
    after a run that ends on an exception, the worktree the run created
    is still on disk; the only [git worktree remove] of these runs is
    the one [createWorktree] issues before it creates the worktree. *)
Lemma worktree_left_on_failure :
  let path := "/workspace/rocket/.worktrees/task/t1" in
  let gate := ExecutionAgent.execute "/workspace" Samples.no_learnings
                Samples.world_tests_fail Samples.request_a Samples.state_empty in
  let thrown := ExecutionAgent.execute "/workspace" Samples.no_learnings
                  Samples.world_no_diff Samples.request_a Samples.state_empty in
  (Server.worktree_of "exec-1700000000000-" (final_state gate) = Some path
   ∧ path ∈ Server.worktrees (final_state gate)
   ∧ length (filter Server.is_worktree_remove (effects gate)) = 1)
  ∧ (Server.worktree_of "exec-1700000000000-" (final_state thrown) = Some path
     ∧ path ∈ Server.worktrees (final_state thrown)
     ∧ length (filter Server.is_worktree_remove (effects thrown)) = 1).
Proof.
  repeat split; by vm_compute.
Qed.

(** C10, refuted: the route handler and the agent read the clock in the
    same millisecond and draw 0.5 and 0.25, whose base-36 writings are
    shorter than seven characters; the two ids are equal, and the status
    of the returned id is found. *)
Lemma returned_id_can_be_the_recorded_one :
  let r := Routes.post_execute Samples.config_open Samples.no_learnings
             Samples.draw_half Samples.world_success None Samples.request_a
             Samples.state_empty in
  completion r
  = Normal {| Routes.code := 200;
              Routes.payload :=
                Routes.ExecutionStarted "exec-1700000000000-" "Execution started" "T1" |}
  ∧ Routes.code
      (Routes.get_status Samples.config_open None "exec-1700000000000-" (final_state r))
    = 200
  ∧ is_Some (ExecutionAgent.getStatus "exec-1700000000000-" (final_state r)).
Proof.
  split; [by vm_compute|]. split; [by vm_compute|].
  vm_compute. by eexists.
Qed.

(** ** The execution agent *)

Section AgentFacts.
Import Server ExecutionAgent.
Variable workspaceRoot : string.
Variable extractLearnings : string → list string.
Variable w : World.

Lemma perform_stateless (op : Op) (e : Effect) : stateless (perform w op e).
Proof. unfold perform. solve_stateless. Qed.

Lemma probe_stateless (op : Op) : stateless (probe w op).
Proof. unfold probe. solve_stateless. Qed.

#[local] Hint Resolve perform_stateless probe_stateless : stateless.

Lemma cloneIfNeeded_stateless (repoUrl targetPath : string) :
  stateless (GitManager.cloneIfNeeded w repoUrl targetPath).
Proof. unfold GitManager.cloneIfNeeded. solve_stateless. Qed.

Lemma commit_stateless (worktreePath message : string) :
  stateless (GitManager.commit w worktreePath message).
Proof. unfold GitManager.commit. solve_stateless. Qed.

Lemma push_stateless (worktreePath branchName : string) :
  stateless (GitManager.push w worktreePath branchName).
Proof. unfold GitManager.push. solve_stateless. Qed.

Lemma getChangedFiles_stateless (worktreePath : string) :
  stateless (GitManager.getChangedFiles w worktreePath).
Proof. unfold GitManager.getChangedFiles. solve_stateless. Qed.

Lemma generatePromptFile_stateless (worktreePath taskDescription progressContext : string) :
  stateless (ClaudeRunner.generatePromptFile w worktreePath taskDescription progressContext).
Proof. unfold ClaudeRunner.generatePromptFile. solve_stateless. Qed.

Lemma run_stateless (worktreePath promptFile : string) (maxIterations : nat) :
  stateless (ClaudeRunner.run w worktreePath promptFile maxIterations).
Proof. unfold ClaudeRunner.run. solve_stateless. Qed.

Lemma getProgressContext_stateless (repoPath : string) :
  stateless (getProgressContext w repoPath).
Proof. unfold getProgressContext. solve_stateless. Qed.

Lemma notifyCallback_stateless (callbackUrl : string) (result : ExecutionResult) :
  stateless (notifyCallback w callbackUrl result).
Proof. unfold notifyCallback. solve_stateless. Qed.

Lemma read_state_stateless (executionId : string) (request : ExecutionRequest) :
  stateless (read_state w executionId request).
Proof. unfold read_state. solve_stateless. Qed.

#[local] Hint Resolve cloneIfNeeded_stateless commit_stateless push_stateless
  getChangedFiles_stateless generatePromptFile_stateless run_stateless
  getProgressContext_stateless notifyCallback_stateless read_state_stateless
  runAll_stateless installDependencies_stateless : stateless.

(** [notifyCallback] posts the result once and swallows every failure
    of the delivery. *)
Lemma notifyCallback_run (callbackUrl : string) (result : ExecutionResult) (s : State) :
  notifyCallback w callbackUrl result s
  = (Normal tt, s, [HttpPostCallback callbackUrl result]).
Proof.
  unfold notifyCallback, try_catch, perform, bind, emit, settle.
  destruct (outcome w PostCallback); simpl; [done|].
  by destruct (callback_response_ok w).
Qed.

(** The execution state as the [catch] block leaves it. *)
Lemma execute_catch_run (executionId : string) (request : ExecutionRequest)
    (message : string) (s : State) :
  let s' := {| executions :=
                 alter (set_completedAt (now_iso (finished w))) executionId
                   (alter (set_status failed) executionId (executions s));
               worktrees := worktrees s |} in
  let state := default (blank_state w executionId request) (executions s' !! executionId) in
  let failure := result_of w request state false (Some message) false false in
  execute_catch w executionId request message s
  = (Normal failure, s',
     if Js.truthy (req_callbackUrl request)
     then [HttpPostCallback (req_callbackUrl request) failure]
     else []).
Proof.
  unfold execute_catch, update_state, read_state, bind, modify_state, get_state, ret.
  cbn. destruct (Js.truthy (req_callbackUrl request)); [|done].
  by rewrite notifyCallback_run.
Qed.

Lemma execute_never_throws (request : ExecutionRequest) :
  never_throws (execute workspaceRoot extractLearnings w request).
Proof.
  unfold execute. apply never_throws_bind; [apply never_throws_modify_state|].
  intros _. apply never_throws_try_catch. intros message s.
  rewrite execute_catch_run. by eexists.
Qed.

(** C5, as amended.  [execute] never throws.  When a step of the
    pipeline throws, with the effects [t1] performed so far, [execute]
    returns a failure result: [success], [testsPass] and [typecheckPass]
    are all [false], whatever the quality gate had reported, and [error]
    is the message of the exception; this result is posted to the
    callback URL when the request has one, and nothing else is done. *)
Theorem execute_reports_exception (request : ExecutionRequest) (s s1 : State)
    (message : string) (t1 : list Effect) :
  let executionId := generateExecutionId w in
  let registered :=
    {| executions := <[executionId := blank_state w executionId request]> (executions s);
       worktrees := worktrees s |} in
  let r := execute workspaceRoot extractLearnings w request s in
  execute_try workspaceRoot extractLearnings w executionId request registered
  = (Throw message, s1, t1) →
  never_throws (execute workspaceRoot extractLearnings w request)
  ∧ ∃ failure,
      completion r = Normal failure
      ∧ res_taskId failure = req_taskId request
      ∧ res_success failure = false
      ∧ res_error failure = Some message
      ∧ res_testsPass failure = false
      ∧ res_typecheckPass failure = false
      ∧ effects r
        = t1 ++ (if Js.truthy (req_callbackUrl request)
                 then [HttpPostCallback (req_callbackUrl request) failure]
                 else []).
Proof.
  intros executionId registered r Htry. split; [apply execute_never_throws|].
  subst r. unfold execute, bind, modify_state, try_catch.
  fold executionId. fold registered. rewrite Htry, execute_catch_run.
  eexists. by repeat split.
Qed.

(** *** The exit on a quality-gate failure *)

Lemma runAll_local (worktreePath : string) :
  emits_only is_local (QualityChecker.runAll w worktreePath).
Proof.
  unfold QualityChecker.runAll, QualityChecker.runTypecheck, QualityChecker.runTests,
    QualityChecker.runLint, QualityChecker.execAsync, perform, probe.
  solve_emits.
Qed.

Lemma installDependencies_local (worktreePath : string) :
  emits_only is_local (QualityChecker.installDependencies w worktreePath).
Proof.
  unfold QualityChecker.installDependencies, QualityChecker.execAsync, perform, probe.
  solve_emits.
Qed.

Lemma cloneIfNeeded_local (repoUrl targetPath : string) :
  emits_only is_local (GitManager.cloneIfNeeded w repoUrl targetPath).
Proof. unfold GitManager.cloneIfNeeded, perform, probe. solve_emits. Qed.

Lemma createWorktree_local (repoPath branchName baseBranch : string) :
  emits_only is_local (GitManager.createWorktree w repoPath branchName baseBranch).
Proof.
  unfold GitManager.createWorktree, GitManager.disk_add, GitManager.disk_remove,
    perform, probe.
  cbv zeta. solve_emits.
Qed.

Lemma generatePromptFile_local (worktreePath taskDescription progressContext : string) :
  emits_only is_local
    (ClaudeRunner.generatePromptFile w worktreePath taskDescription progressContext).
Proof. unfold ClaudeRunner.generatePromptFile, perform. cbv zeta. solve_emits. Qed.

Lemma run_local (worktreePath promptFile : string) (maxIterations : nat) :
  emits_only is_local (ClaudeRunner.run w worktreePath promptFile maxIterations).
Proof. unfold ClaudeRunner.run. solve_emits. Qed.

Lemma getProgressContext_local (repoPath : string) :
  emits_only is_local (getProgressContext w repoPath).
Proof. unfold getProgressContext, probe. solve_emits. Qed.

Lemma update_state_local (executionId : string) (f : ExecutionState → ExecutionState) :
  emits_only is_local (update_state executionId f).
Proof. unfold update_state. solve_emits. Qed.

Lemma read_state_local (executionId : string) (request : ExecutionRequest) :
  emits_only is_local (read_state w executionId request).
Proof. unfold read_state. solve_emits. Qed.

#[local] Hint Resolve runAll_local installDependencies_local cloneIfNeeded_local
  createWorktree_local generatePromptFile_local run_local getProgressContext_local
  update_state_local read_state_local : emits.

(** When the [try] block returns a failure, which it does at the
    quality gate only, it has posted no callback and run no commit and
    no push. *)
Lemma execute_try_failure_local (executionId : string) (request : ExecutionRequest) :
  on_return (execute_try workspaceRoot extractLearnings w executionId request)
    (λ result t, res_success result = false → Forall (λ e, is_local e = true) t).
Proof.
  unfold execute_try. cbv zeta.
  do 10 (apply on_return_step; [solve_emits|intros ?]).
  apply on_return_step; [solve_emits|intros qualityResult].
  destruct (negb _ || negb _).
  - do 2 (apply on_return_step; [solve_emits|intros ?]).
    intros s _. constructor.
  - apply on_return_never.
    repeat (apply triple_bind with (R := λ _ _, True); [apply triple_top|intros ?]).
    by apply triple_ret.
Qed.

(** The quality-gate exit of [execute], in general: when the [try] block
    returns a failure result, [execute] returns it to its caller as it
    is; up to there no callback was posted, and neither commit nor push
    was run. *)
Lemma execute_quality_gate_exit (request : ExecutionRequest) (s s1 : State)
    (result : ExecutionResult) (t1 : list Effect) :
  let executionId := generateExecutionId w in
  let registered :=
    {| executions := <[executionId := blank_state w executionId request]> (executions s);
       worktrees := worktrees s |} in
  execute_try workspaceRoot extractLearnings w executionId request registered
  = (Normal result, s1, t1) →
  res_success result = false →
  execute workspaceRoot extractLearnings w request s = (Normal result, s1, t1)
  ∧ filter is_callback t1 = []
  ∧ filter is_commit_or_push t1 = [].
Proof.
  intros executionId registered Htry Hfailure.
  pose proof (execute_try_failure_local executionId request registered) as Hlocal.
  rewrite Htry in Hlocal. specialize (Hlocal Hfailure).
  split.
  { unfold execute, bind, modify_state, try_catch.
    fold executionId. fold registered. by rewrite Htry. }
  assert (∀ φ : Effect → bool,
            (∀ e, is_local e = true → φ e = false) → filter φ t1 = []) as Hnone.
  { intros φ Hφ. clear Htry. induction Hlocal as [|e t He Ht IH]; [done|].
    rewrite filter_cons. destruct (decide (φ e)) as [Hyes|]; [|exact IH].
    by rewrite (Hφ e He) in Hyes. }
  split; apply Hnone; intros e; unfold is_local;
    by destruct (is_callback e), (is_commit_or_push e).
Qed.

(** *** The worktree on disk *)

(** Updates of an execution state that keep its worktree path leave
    what is known of the worktree as it is. *)
Lemma update_state_keeps (Φ : option string → gset string → Prop)
    (executionId : string) (f : ExecutionState → ExecutionState)
    (E : string → State → Prop) :
  (∀ e, exec_worktreePath (f e) = exec_worktreePath e) →
  triple (Ev:=Effect) (λ s, Φ (worktree_of executionId s) (worktrees s))
    (update_state executionId f)
    (λ _ s, Φ (worktree_of executionId s) (worktrees s)) E.
Proof.
  intros Hf. apply triple_modify_state. intros s Hs.
  unfold worktree_of in *. cbn. rewrite lookup_alter_eq.
  destruct (executions s !! executionId) as [e|]; cbn in *; by rewrite ?Hf.
Qed.

Lemma read_state_triple (P : State → Prop) (executionId : string)
    (request : ExecutionRequest) (E : string → State → Prop) :
  triple P (read_state w executionId request) (λ _, P) E.
Proof. intros s Hs. exact Hs. Qed.

Lemma createWorktree_triple (executionId repoPath branchName baseBranch : string) :
  let path := path_join [repoPath; ".worktrees"; branchName] in
  triple
    (λ s, worktree_of executionId s = None ∧ is_Some (executions s !! executionId))
    (GitManager.createWorktree w repoPath branchName baseBranch)
    (λ worktreePath s,
       worktreePath = path
       ∧ is_Some (executions s !! executionId)
       ∧ path ∈ worktrees s)
    (λ _ s, worktree_of executionId s = None).
Proof.
  intros path s [Hnone Hsome].
  unfold GitManager.createWorktree, GitManager.disk_add, GitManager.disk_remove,
    perform, bind, try_catch, emit, settle, modify_state, ret, throw.
  destruct (outcome w MkdirWorktrees), (outcome w WorktreeRemoveStale),
    (outcome w FetchOrigin), (outcome w WorktreeAdd); cbn; try done;
    (split; [done|]); (split; [done|]); set_solver.
Qed.

Lemma deleteWorktree_triple (executionId repoPath path : string) :
  triple
    (λ s, worktree_of executionId s = Some path ∧ path ∈ worktrees s)
    (GitManager.deleteWorktree w repoPath path)
    (λ _ s, worktree_of executionId s = Some path
            ∧ (path ∈ worktrees s ↔ outcome w WorktreeRemove ≠ None))
    (λ _ _, False).
Proof.
  intros s [Hpath Hdisk].
  unfold GitManager.deleteWorktree, GitManager.disk_remove,
    perform, bind, try_catch, emit, settle, modify_state, ret, throw.
  destruct (outcome w WorktreeRemove); cbn; (split; [done|]).
  - by split.
  - split; [|done]. intros Hin. apply elem_of_difference in Hin as [_ Hnot].
    destruct Hnot. by apply elem_of_singleton.
Qed.

Lemma execute_try_worktree (executionId : string) (request : ExecutionRequest) :
  triple
    (λ s, worktree_of executionId s = None ∧ is_Some (executions s !! executionId))
    (execute_try workspaceRoot extractLearnings w executionId request)
    (λ result s,
       ∀ path, worktree_of executionId s = Some path →
         if res_success result
         then path ∈ worktrees s ↔ outcome w WorktreeRemove ≠ None
         else path ∈ worktrees s)
    (λ _ s, ∀ path, worktree_of executionId s = Some path → path ∈ worktrees s).
Proof.
  unfold execute_try.
  set (repoPath := path_join [workspaceRoot; "rocket"]).
  (* before the worktree exists *)
  apply triple_step;
    [apply stateless_preserves; eauto with stateless
    |intros e s [Hnone _] p Hp; congruence|intros _].
  apply triple_bind with
    (R := λ worktreePath s, is_Some (executions s !! executionId)
                            ∧ worktreePath ∈ worktrees s).
  { eapply triple_weaken; [apply (createWorktree_triple executionId)|..]; try done.
    - by intros worktreePath s (-> & Hsome & Hdisk).
    - intros e s Hnone p Hp. congruence. }
  intros worktreePath.
  pose (Φ := λ (o : option string) (d : gset string),
          o = Some worktreePath ∧ worktreePath ∈ d).
  pose (Ψ := λ (o : option string) (d : gset string),
          o = Some worktreePath
          ∧ (worktreePath ∈ d ↔ outcome w WorktreeRemove ≠ None)).
  apply triple_bind with (R := λ _ s, Φ (worktree_of executionId s) (worktrees s)).
  { apply triple_modify_state. intros s ([e He] & Hdisk).
    unfold worktree_of. cbn. by rewrite lookup_alter_eq, He. }
  intros _.
  (* the worktree exists and is recorded in the execution state *)
  assert (∀ (e : string) (s : State),
             Φ (worktree_of executionId s) (worktrees s) →
                 ∀ p, worktree_of executionId s = Some p → p ∈ worktrees s) as Hthrown.
  { intros e s [Hpath Hdisk] p Hp. congruence. }
  do 4 (apply triple_step;
          [apply stateless_preserves; eauto with stateless|exact Hthrown|intros ?]).
  apply triple_step; [by apply (update_state_keeps Φ)|exact Hthrown|intros _].
  apply triple_step; [solve_preserves|exact Hthrown|intros _].
  apply triple_step; [by apply (update_state_keeps Φ)|exact Hthrown|intros _].
  apply triple_step;
    [apply stateless_preserves; eauto with stateless|exact Hthrown|intros qualityResult].
  destruct (negb (QualityChecker.typecheck qualityResult)
            || negb (QualityChecker.tests qualityResult)).
  - (* the quality gate failed *)
    apply triple_step; [by apply (update_state_keeps Φ)|exact Hthrown|intros _].
    apply triple_step;
      [apply stateless_preserves; eauto with stateless|exact Hthrown|intros state].
    apply triple_ret. intros s [Hpath Hdisk] p Hp. cbn. congruence.
  - (* the quality gate passed *)
    apply triple_step;
      [apply stateless_preserves; eauto with stateless|exact Hthrown|intros changedFiles].
    apply triple_step; [solve_preserves|exact Hthrown|intros _].
    do 3 (apply triple_step;
            [apply stateless_preserves; eauto with stateless|exact Hthrown|intros ?]).
    apply triple_step; [solve_preserves|exact Hthrown|intros _].
    apply triple_bind with (R := λ _ s, Ψ (worktree_of executionId s) (worktrees s)).
    { eapply triple_weaken; [apply (deleteWorktree_triple executionId repoPath worktreePath)|..];
        unfold Φ, Ψ; naive_solver. }
    intros _.
    do 2 (apply triple_bind with
            (R := λ _ s, Ψ (worktree_of executionId s) (worktrees s));
          [by apply (update_state_keeps Ψ)|intros _]).
    apply triple_bind with (R := λ _ s, Ψ (worktree_of executionId s) (worktrees s));
      [apply read_state_triple|intros state].
    apply triple_ret. intros s [Hpath Hdisk] p Hp. cbn.
    assert (p = worktreePath) as Heq by congruence. by rewrite Heq.
Qed.

Lemma execute_catch_worktree (executionId : string) (request : ExecutionRequest)
    (message : string) :
  triple
    (λ s, ∀ path, worktree_of executionId s = Some path → path ∈ worktrees s)
    (execute_catch w executionId request message)
    (λ result s,
       res_success result = false
       ∧ ∀ path, worktree_of executionId s = Some path → path ∈ worktrees s)
    (λ _ _, False).
Proof.
  intros s Hs. rewrite execute_catch_run. cbn. split; [done|].
  intros path Hpath. apply Hs. revert Hpath.
  unfold worktree_of. cbn. rewrite !lookup_alter_eq.
  by destruct (executions s !! executionId).
Qed.

(** C6, as amended.  Once an execution has created its worktree (the
    path is recorded in its state), the worktree is still on disk when
    [execute] returns a failure, be it for the quality gate or for an
    exception; when [execute] returns a success, the worktree is gone if
    git's removal succeeded and left behind if it failed. *)
Theorem worktree_removed_on_success_only (request : ExecutionRequest)
    (s : State) (path : string) :
  let r := execute workspaceRoot extractLearnings w request s in
  worktree_of (generateExecutionId w) (final_state r) = Some path →
  match completion r with
  | Normal result =>
      if res_success result
      then path ∈ worktrees (final_state r) ↔ outcome w WorktreeRemove ≠ None
      else path ∈ worktrees (final_state r)
  | Throw _ => False
  end.
Proof.
  intros r. subst r.
  assert (triple (λ _, True)
            (execute workspaceRoot extractLearnings w request)
            (λ result s',
               ∀ path, worktree_of (generateExecutionId w) s' = Some path →
                 if res_success result
                 then path ∈ worktrees s' ↔ outcome w WorktreeRemove ≠ None
                 else path ∈ worktrees s')
            (λ _ _, False)) as Hexecute.
  { unfold execute.
    apply triple_bind with
      (R := λ _ s', worktree_of (generateExecutionId w) s' = None
                    ∧ is_Some (executions s' !! generateExecutionId w)).
    { apply triple_modify_state. intros s0 _. unfold worktree_of. cbn.
      rewrite lookup_insert_eq. by split. }
    intros _. eapply triple_try_catch; [apply execute_try_worktree|].
    intros message. eapply triple_weaken; [apply execute_catch_worktree|..]; try done.
    intros result s' [-> Hdisk]. exact Hdisk. }
  specialize (Hexecute s I). unfold completion, final_state.
  destruct (execute workspaceRoot extractLearnings w request s) as [[[result|e] s'] t];
    cbn; [|done].
  intros Hpath. by apply Hexecute.
Qed.

(** *** The keys of the [executions] map *)

Lemma update_state_keys (ids : gset string) (executionId : string)
    (f : ExecutionState → ExecutionState) :
  preserves (Ev:=Effect) (keys_are ids) (update_state executionId f).
Proof.
  apply preserves_modify_state. unfold keys_are. intros s <-. cbn.
  apply dom_alter_L.
Qed.

Lemma disk_add_keys (ids : gset string) (path : string) :
  preserves (Ev:=Effect) (keys_are ids) (GitManager.disk_add path).
Proof. by apply preserves_modify_state. Qed.

Lemma disk_remove_keys (ids : gset string) (path : string) :
  preserves (Ev:=Effect) (keys_are ids) (GitManager.disk_remove path).
Proof. by apply preserves_modify_state. Qed.

#[local] Hint Resolve update_state_keys disk_add_keys disk_remove_keys : preserves.

Lemma createWorktree_keys (ids : gset string) (repoPath branchName baseBranch : string) :
  preserves (keys_are ids) (GitManager.createWorktree w repoPath branchName baseBranch).
Proof. unfold GitManager.createWorktree. cbv zeta. solve_preserves. Qed.

Lemma deleteWorktree_keys (ids : gset string) (repoPath worktreePath : string) :
  preserves (keys_are ids) (GitManager.deleteWorktree w repoPath worktreePath).
Proof. unfold GitManager.deleteWorktree. solve_preserves. Qed.

#[local] Hint Resolve createWorktree_keys deleteWorktree_keys : preserves.

Lemma execute_try_keys (ids : gset string) (executionId : string)
    (request : ExecutionRequest) :
  preserves (keys_are ids)
    (execute_try workspaceRoot extractLearnings w executionId request).
Proof. unfold execute_try. cbv zeta. solve_preserves. Qed.

Lemma execute_catch_keys (ids : gset string) (executionId : string)
    (request : ExecutionRequest) (message : string) :
  preserves (keys_are ids) (execute_catch w executionId request message).
Proof. unfold execute_catch. solve_preserves. Qed.

(** [execute] adds one key to the map, the id it generated, and keeps
    the others. *)
Lemma execute_keys (request : ExecutionRequest) (s : State) :
  dom (executions (final_state (execute workspaceRoot extractLearnings w request s)))
  = {[generateExecutionId w]} ∪ dom (executions s).
Proof.
  assert (triple (λ s', s' = s)
            (execute workspaceRoot extractLearnings w request)
            (λ _, keys_are ({[generateExecutionId w]} ∪ dom (executions s)))
            (λ _, keys_are ({[generateExecutionId w]} ∪ dom (executions s))))
    as Hkeys.
  { unfold execute.
    apply triple_bind with
      (R := λ _, keys_are ({[generateExecutionId w]} ∪ dom (executions s))).
    - apply triple_modify_state. intros ? ->. unfold keys_are. cbn.
      apply dom_insert_L.
    - intros _. apply preserves_try_catch;
        [apply execute_try_keys|intros e; apply execute_catch_keys]. }
  specialize (Hkeys s eq_refl). unfold final_state.
  by destruct (execute workspaceRoot extractLearnings w request s) as [[[a|e] s'] t].
Qed.

End AgentFacts.

(** ** The routes of the execution server *)

Section RoutesFacts.
Import Server ExecutionAgent Routes.
Variable config : Config.
Variable extractLearnings : string → list string.

Lemma authenticate_code (authHeader : option string) (rejected : Response) :
  authenticate config authHeader = Some rejected → code rejected = 401.
Proof.
  unfold authenticate.
  destruct (negb (Js.truthy (EXECUTION_SERVER_TOKEN config))); [done|].
  destruct authHeader as [header|]; [|by intros [= <-]].
  destruct (Js.truthy header && String.prefix "Bearer " header); [|by intros [= <-]].
  destruct (String.eqb _ _); [done|by intros [= <-]].
Qed.

(** C10, as amended.  When [POST /execute] accepts a request, the id it
    returns is the one the route handler made from its own readings of
    the clock and of the random generator, and the agent holds the state
    of the execution under the id it made from its own readings.  The
    status of the returned id is not found, and [GET /status] answers
    404, exactly when the returned id differs from the agent's and is
    not the id of an execution the map held before. *)
Theorem returned_id_is_a_separate_draw (draw : Draw) (w : World)
    (authHeader : option string) (request : ExecutionRequest) (s : State)
    (executionId message taskId : string) :
  let r := post_execute config extractLearnings draw w authHeader request s in
  completion r
  = Normal {| code := 200; payload := ExecutionStarted executionId message taskId |} →
  executionId = "exec-" +:+ pretty (drawn_now draw) +:+ "-"
                +:+ Js.substring_from 7 (drawn_random draw)
  ∧ is_Some (getStatus (generateExecutionId w) (final_state r))
  ∧ (getStatus executionId (final_state r) = None
     ↔ executionId ≠ generateExecutionId w ∧ executions s !! executionId = None)
  ∧ (code (get_status config authHeader executionId (final_state r)) = 404
     ↔ executionId ≠ generateExecutionId w ∧ executions s !! executionId = None).
Proof.
  intros r. subst r. unfold post_execute, get_status.
  destruct (authenticate config authHeader) as [rejected|] eqn:Hauth.
  { intros [= Hr]. apply authenticate_code in Hauth. by rewrite Hr in Hauth. }
  destruct (_ || _); [done|].
  pose proof (execute_keys (Js.or_else (WORKSPACE_ROOT config) "/workspace")
                extractLearnings w request s) as Hkeys.
  unfold bind, completion, final_state in *.
  destruct (execute _ _ _ _ _) as [[[result|e] s'] t]; cbn in *; [|done].
  intros [= <- _ _].
  assert (∀ k, executions s' !! k = None
               ↔ k ≠ generateExecutionId w ∧ executions s !! k = None) as Hnone.
  { intros k. rewrite <- !not_elem_of_dom, Hkeys.
    by rewrite not_elem_of_union, elem_of_singleton. }
  split; [done|]. split.
  { apply elem_of_dom. rewrite Hkeys.
    apply elem_of_union_l. by apply elem_of_singleton. }
  split; [apply Hnone|].
  unfold getStatus. rewrite <- Hnone.
  by destruct (executions s' !! _).
Qed.

End RoutesFacts.

(** With a draw of the route handler that differs from the agent's, the
    status of the returned id is not found. *)
Lemma returned_id_is_a_separate_draw_witness :
  Routes.code
    (Routes.get_status Samples.config_open None "exec-1700000000000-82mvyr"
       (final_state
          (Routes.post_execute Samples.config_open Samples.no_learnings
             Samples.draw_long Samples.world_success None Samples.request_a
             Samples.state_empty)))
  = 404.
Proof.
  apply (returned_id_is_a_separate_draw Samples.config_open Samples.no_learnings
           Samples.draw_long Samples.world_success None Samples.request_a
           Samples.state_empty "exec-1700000000000-82mvyr" "Execution started" "T1"
           ltac:(vm_compute; reflexivity)).
  split; [by vm_compute|reflexivity].
Defined.

(** The run without changed files, where step 7 throws. *)
Lemma execute_reports_exception_witness :
  ∃ failure,
    completion (ExecutionAgent.execute "/workspace" Samples.no_learnings
                  Samples.world_no_diff Samples.request_a Samples.state_empty)
    = Normal failure
    ∧ res_success failure = false
    ∧ res_error failure = Some "No changes were made"
    ∧ res_testsPass failure = false
    ∧ res_typecheckPass failure = false.
Proof.
  destruct (execute_reports_exception "/workspace" Samples.no_learnings
              Samples.world_no_diff Samples.request_a Samples.state_empty
              _ "No changes were made" _ ltac:(vm_compute; reflexivity))
    as [Htotal (failure & Hr & Hid & Hs & He & Ht & Hc & Heff)].
  exists failure. by repeat split.
Defined.

(** The run whose test suite fails leaves its worktree on disk. *)
Lemma worktree_removed_on_success_only_witness :
  "/workspace/rocket/.worktrees/task/t1"
  ∈ Server.worktrees
      (final_state
         (ExecutionAgent.execute "/workspace" Samples.no_learnings
            Samples.world_tests_fail Samples.request_a Samples.state_empty)).
Proof.
  exact (worktree_removed_on_success_only "/workspace" Samples.no_learnings
           Samples.world_tests_fail Samples.request_a Samples.state_empty
           "/workspace/rocket/.worktrees/task/t1" ltac:(vm_compute; reflexivity)).
Defined.

(** * Further properties *)

(** ** More on strings *)

Module StringFacts.
Import Js Text.

Lemma append_cons (c : ascii) (s t : string) : String c s +:+ t = String c (s +:+ t).
Proof. reflexivity. Qed.

Lemma append_empty_r (s : string) : s +:+ "" = s.
Proof. induction s as [|c s IH]; [done|]. by rewrite append_cons, IH. Qed.

Lemma append_assoc (s1 s2 s3 : string) : s1 +:+ (s2 +:+ s3) = (s1 +:+ s2) +:+ s3.
Proof. induction s1 as [|c s1 IH]; [done|]. by rewrite !append_cons, IH. Qed.

Lemma length_append (s t : string) :
  String.length (s +:+ t) = String.length s + String.length t.
Proof. induction s as [|c s IH]; [done|]. rewrite append_cons. simpl. by rewrite IH. Qed.

(** [s.substring(n)] is what follows the first [n] characters of [s]. *)
Lemma substring_from_split (n : nat) (s : string) :
  s = String.substring 0 n s +:+ substring_from n s.
Proof.
  revert s. induction n as [|n IH]; intros [|c s]; simpl; try done.
  rewrite append_cons. by rewrite <- IH.
Qed.

Lemma substring_from_length (n : nat) (s : string) :
  String.length (substring_from n s) = String.length s - n.
Proof. revert s. induction n as [|n IH]; intros [|c s]; simpl; auto with lia. Qed.

Lemma substring_from_append (p t : string) :
  substring_from (String.length p) (p +:+ t) = t.
Proof. induction p as [|c p IH]; [done|]. rewrite append_cons. simpl. exact IH. Qed.

Lemma prefix_append (p t : string) : String.prefix p (p +:+ t) = true.
Proof.
  induction p as [|c p IH]; [by destruct t|].
  rewrite append_cons. simpl. by destruct (ascii_dec c c).
Qed.

(** [h.startsWith(p)] *)
Lemma prefix_split (p h : string) :
  String.prefix p h = true → h = p +:+ substring_from (String.length p) h.
Proof.
  revert h. induction p as [|c p IH]; intros h; [done|].
  destruct h as [|c' h]; simpl; [done|].
  destruct (ascii_dec c c') as [->|]; [|done].
  intros Hp. rewrite append_cons. f_equal. by apply IH.
Qed.

Lemma substring_length_le (n : nat) (s : string) :
  (String.length (String.substring 0 n s) ≤ n)%nat.
Proof. revert s. induction n as [|n IH]; intros [|c s]; simpl; auto with lia.
  specialize (IH s). lia. Qed.


Lemma first_line_one_line (s : string) : one_line (first_line s) = true.
Proof.
  induction s as [|c s IH]; simpl; [done|].
  destruct (Ascii.eqb c _) eqn:E; simpl; [done|]. by rewrite E.
Qed.

Lemma substring_one_line (n : nat) (s : string) :
  one_line s = true → one_line (String.substring 0 n s) = true.
Proof.
  revert s. induction n as [|n IH]; intros [|c s]; simpl; try done.
  intros [Hc Hs]%andb_true_iff. rewrite Hc. simpl. by apply IH.
Qed.

Lemma first_line_append (s rest : string) :
  one_line s = true → first_line (s +:+ nl +:+ rest) = s.
Proof.
  induction s as [|c s IH]; [done|]. cbn [one_line].
  intros [Hc Hs]%andb_true_iff. rewrite append_cons. cbn [first_line].
  apply negb_true_iff in Hc. rewrite Hc. f_equal. by apply IH.
Qed.

End StringFacts.

(** Membership in a list that is written out. *)
Ltac solve_listed :=
  match goal with
  | |- _ ∈ _ => repeat first [apply list_elem_of_here | apply list_elem_of_further]
  | |- _ ∉ _ =>
      repeat (apply not_elem_of_cons; split; [discriminate|]); apply not_elem_of_nil
  end.

(** ** The task state store: what the handlers keep *)



Section LedgerFacts.
Import Store.
Variable env : Env.
Variable clock : Clock.

(** The ledger a handler reads does not depend on the clock but for
    the [updatedAt] of the initial one. *)
Lemma tasks_ledger_clock (clock' : Clock) (s : Storage) :
  tasks (ledger env clock' s) = tasks (ledger env clock s).
Proof. unfold ledger. by destruct (stored_prd s). Qed.

Lemma version_ledger_clock (clock' : Clock) (s : Storage) :
  version (ledger env clock' s) = version (ledger env clock s).
Proof. unfold ledger. by destruct (stored_prd s). Qed.

Lemma ledger_initialised (s : Storage) :
  ledger env clock (initialised env clock s) = ledger env clock s.
Proof. done. Qed.

Lemma handleGetNextTask_run (s : Storage) :
  handleGetNextTask env clock s
  = (Normal {| status := 200;
               body := BodyNextTask
                         (first_eligible (JsObject.entries (tasks (ledger env clock s)))) |},
     initialised env clock s, initialisation env clock s).
Proof.
  unfold handleGetNextTask, bind. rewrite getPRD_run. cbn. by rewrite app_nil_r.
Qed.

Lemma handleGetPRD_run (s : Storage) :
  handleGetPRD env clock s
  = (Normal {| status := 200; body := BodyPRD (ledger env clock s) |},
     initialised env clock s, initialisation env clock s).
Proof.
  unfold handleGetPRD, bind. rewrite getPRD_run. cbn. by rewrite app_nil_r.
Qed.

Lemma or_else_empty (s : string) : Js.or_else s "" = s.
Proof. by destruct s. Qed.

Lemma handleUpdateProgress_run (entry : ProgressEntry) (s : Storage) :
  let log := progress_log s +:+ render_progress entry in
  handleUpdateProgress entry s
  = (Normal {| status := 200; body := BodyOk |},
     {| stored_prd := stored_prd s;
        stored_progress := Some log;
        alarm_time := alarm_time s;
        object_prototype := object_prototype s |},
     [StoragePutProgress log]).
Proof. reflexivity. Qed.

(** X1. [get-next-task] answers 200 with the first entry, in iteration
    order, that has not passed and has fewer than three attempts, or
    with no task when every entry has passed or has three attempts or
    more; it leaves the ledger as it is. *)
Theorem get_next_task_first_eligible (s : Storage) :
  let r := handleGetNextTask env clock s in
  ∃ next,
    completion r = Normal {| status := 200; body := BodyNextTask next |}
    ∧ ledger env clock (final_state r) = ledger env clock s
    ∧ match next with
      | Some (taskId, task) =>
          ∃ before after,
            tasks (ledger env clock s) = before ++ (taskId, task) :: after
            ∧ Forall (λ e, passes e.2 = true ∨ (3 ≤ attempts e.2)%nat) before
            ∧ passes task = false ∧ (attempts task < 3)%nat
      | None =>
          Forall (λ e, passes e.2 = true ∨ (3 ≤ attempts e.2)%nat) (tasks (ledger env clock s))
      end.
Proof.
  intros r. subst r. rewrite handleGetNextTask_run. eexists.
  split; [reflexivity|]. split; [done|].
  pose proof (first_eligible_spec (JsObject.entries (tasks (ledger env clock s)))) as H.
  destruct (first_eligible _) as [[taskId task]|].
  - destruct H as (before & after & Htasks & Hbefore & Htask).
    exists before, after. split; [done|]. split.
    + eapply Forall_impl; [exact Hbefore|]. intros e. by rewrite eligible_false.
    + by apply eligible_true.
  - eapply Forall_impl; [exact H|]. intros e. by rewrite eligible_false.
Qed.

(** X2. [fail] on a task that has an entry in the ledger answers 200,
    sets [passes] to false (also on an entry that had passed), records
    the error and the time, and adds one to [attempts]; the description,
    the branch and the PR URL stay, and so do the progress log and the
    timer.  On another id it depends on what [prd.tasks[taskId]] yields.
    Where that is undefined or falsy, [fail] answers 404 and the ledger,
    the progress log and the timer are as before.  Where it is a member
    inherited from [Object.prototype], the task counts as found: [fail]
    answers 200, no entry changes and the version of the ledger grows
    by one; for the id [__proto__] the assignments give
    [Object.prototype] itself the properties [passes], [error] and
    [lastAttemptAt].  Where it is a truthy primitive value, that
    [Object.prototype] has been given under that name, the first
    assignment throws a [TypeError] and nothing changes. *)
Theorem fail_updates_entry (taskId message : string) (s : Storage) :
  let r := handleFail env clock taskId message s in
  let given := object_prototype s in
  let untouched :=
    ledger env clock (final_state r) = ledger env clock s
    ∧ stored_progress (final_state r) = stored_progress s
    ∧ alarm_time (final_state r) = alarm_time s
    ∧ object_prototype (final_state r) = given
    ∧ match stored_prd s with
      | Some _ => final_state r = s ∧ effects r = []
      | None => effects r = [StoragePutPRD (initial_prd env clock)]
      end in
  let found (given' : Prototype) :=
    completion r = Normal {| status := 200; body := BodyOk |}
    ∧ tasks (ledger env clock (final_state r)) = tasks (ledger env clock s)
    ∧ version (ledger env clock (final_state r)) = version (ledger env clock s) + 1
    ∧ stored_progress (final_state r) = stored_progress s
    ∧ alarm_time (final_state r) = alarm_time s
    ∧ object_prototype (final_state r) = given' in
  let truthy (value : option string) :=
    match value with
    | Some text => if Js.truthy text then Some ("string", text) else None
    | None => None
    end in
  match entry_of env clock s taskId with
  | Some t =>
      completion r = Normal {| status := 200; body := BodyOk |}
      ∧ entry_of env clock (final_state r) taskId
        = Some {| description := description t;
                  branchName := branchName t;
                  passes := false;
                  prUrl := prUrl t;
                  attempts := attempts t + 1;
                  lastAttemptAt := Some (now_iso clock);
                  error := Some message |}
      ∧ stored_progress (final_state r) = stored_progress s
      ∧ alarm_time (final_state r) = alarm_time s
      ∧ object_prototype (final_state r) = given
  | None =>
      if bool_decide (taskId ∈ JsObject.object_prototype_functions)
      then found given
      else if String.eqb taskId "__proto__"
      then found {| given_passes := Some false;
                    given_prUrl := given_prUrl given;
                    given_lastAttemptAt := Some (now_iso clock);
                    given_error := Some message |}
      else
        match (if String.eqb taskId "passes"
               then match given_passes given with
                    | Some true => Some ("boolean", "true")
                    | _ => None
                    end
               else if String.eqb taskId "prUrl" then truthy (given_prUrl given)
               else if String.eqb taskId "lastAttemptAt"
               then truthy (given_lastAttemptAt given)
               else if String.eqb taskId "error" then truthy (given_error given)
               else None)
        with
        | Some (type, text) =>
            completion r
            = Throw ("Cannot create property 'passes' on " +:+ type +:+ " '"
                     +:+ text +:+ "'")
            ∧ untouched
        | None =>
            completion r = Normal {| status := 404; body := BodyError "Task not found" |}
            ∧ untouched
        end
  end.
Proof.
  intros r. subst r. cbn zeta. rewrite handleFail_run. cbn zeta.
  assert (match stored_prd s with
          | Some _ => initialised env clock s = s ∧ initialisation env clock s = []
          | None => initialisation env clock s = [StoragePutPRD (initial_prd env clock)]
          end) as Hs.
  { destruct (stored_prd s) as [prd|] eqn:Hprd.
    - by apply (initialised_stored env clock s prd).
    - unfold initialisation. by rewrite Hprd. }
  unfold member, given_string, entry_of.
  destruct (JsObject.get taskId (tasks (ledger env clock s))) as [t|] eqn:G.
  { cbn. by rewrite JsObjectFacts.get_alter_eq, G. }
  destruct (bool_decide (taskId ∈ JsObject.object_prototype_functions)).
  { cbn. by rewrite (JsObjectFacts.alter_absent _ _ _ G). }
  destruct (String.eqb taskId "__proto__").
  { cbn. by rewrite (JsObjectFacts.alter_absent _ _ _ G). }
  repeat case_match; simplify_eq; destruct_and?; by repeat split.
Qed.

(** X3. [enqueue], [complete] and [fail] touch the entry of the task
    they name and no other: the entry of every other id is as before. *)
Theorem handlers_touch_one_entry (task : Task) (message : string)
    (result : ExecutionResult) (other : string) (s : Storage) :
  task_id task ≠ other →
  entry_of env clock (final_state (handleEnqueue env clock task s)) other
  = entry_of env clock s other
  ∧ entry_of env clock
      (final_state (handleComplete env clock (task_id task) result s)) other
    = entry_of env clock s other
  ∧ entry_of env clock
      (final_state (handleFail env clock (task_id task) message s)) other
    = entry_of env clock s other.
Proof.
  intros Hne. rewrite handleEnqueue_run, handleComplete_run, handleFail_run.
  split; [unfold entry_of; cbn; by apply JsObjectFacts.get_set_ne|].
  unfold entry_of. split.
  - destruct (member _ _ _); try done; cbn; by apply JsObjectFacts.get_alter_ne.
  - destruct (member _ _ _); try done; cbn; by apply JsObjectFacts.get_alter_ne.
Qed.

(** X4. The three read handlers answer 200 with what the storage
    holds and change nothing of it: the ledger, the progress log and the
    timer are as before, and nothing is written but the initial ledger
    on a storage that held none; [get-progress] does not even do that. *)
Theorem read_handlers_change_nothing (s : Storage) :
  let next := handleGetNextTask env clock s in
  let prd := handleGetPRD env clock s in
  let progress := handleGetProgress s in
  let unchanged (r : Completion Response * Storage * list Effect) :=
    ledger env clock (final_state r) = ledger env clock s
    ∧ stored_progress (final_state r) = stored_progress s
    ∧ alarm_time (final_state r) = alarm_time s
    ∧ match stored_prd s with
      | Some _ => final_state r = s ∧ effects r = []
      | None => effects r = [StoragePutPRD (initial_prd env clock)]
      end in
  completion prd = Normal {| status := 200; body := BodyPRD (ledger env clock s) |}
  ∧ progress
    = (Normal {| status := 200; body := BodyProgress (default "" (stored_progress s)) |},
       s, [])
  ∧ unchanged next
  ∧ unchanged prd.
Proof.
  cbn zeta. rewrite handleGetNextTask_run, handleGetPRD_run.
  split; [done|]. split.
  { unfold handleGetProgress, getProgress, bind, get_state, ret. cbn.
    destruct (stored_progress s) as [p|]; [|done]. by rewrite or_else_empty. }
  assert (match stored_prd s with
          | Some _ => initialised env clock s = s ∧ initialisation env clock s = []
          | None => initialisation env clock s = [StoragePutPRD (initial_prd env clock)]
          end) as Hs.
  { destruct (stored_prd s) as [prd|] eqn:Hprd.
    - by apply (initialised_stored env clock s prd).
    - unfold initialisation. by rewrite Hprd. }
  by repeat split.
Qed.

(** A look-up finds an entry of the list. *)
Lemma get_elem_of {V} (k : string) (v : V) (o : list (string * V)) :
  JsObject.get k o = Some v → (k, v) ∈ o.
Proof.
  induction o as [|[k' v'] rest IH]; simpl; [done|].
  destruct (String.eqb k k') eqn:E.
  - apply String.eqb_eq in E as ->. intros [= ->]. apply elem_of_cons. by left.
  - intros H. apply elem_of_cons. right. by apply IH.
Qed.

(** The entries after a firing of the timer, id by id: the entry of the
    dispatched task has one attempt more, every other entry is as it
    was. *)
Lemma alarm_entry_of (fetch_outcome : option string) (s : Storage) :
  let s' := final_state (alarm env clock fetch_outcome s) in
  match first_eligible (JsObject.entries (tasks (ledger env clock s))) with
  | Some (taskId, task) =>
      (entry_of env clock s taskId = Some task
       → entry_of env clock s' taskId = Some (bump_attempts task))
      ∧ ∀ k, entry_of env clock s' k = entry_of env clock s k
             ∨ (entry_of env clock s k = Some task
                ∧ entry_of env clock s' k = Some (bump_attempts task))
  | None => ∀ k, entry_of env clock s' k = entry_of env clock s k
  end.
Proof.
  cbn zeta. rewrite alarm_run.
  pose proof (alarm_scan_first (JsObject.entries (tasks (ledger env clock s)))) as Hscan.
  destruct (first_eligible _) as [[taskId task]|]; [|by rewrite Hscan].
  destruct Hscan as (before & after & Htasks & Hbefore & Htask & ->).
  unfold entry_of. cbn. unfold JsObject.entries in Htasks. rewrite Htasks.
  assert (∀ k, JsObject.get k (before ++ (taskId, bump_attempts task) :: after)
               = JsObject.get k (before ++ (taskId, task) :: after)
               ∨ (JsObject.get k (before ++ (taskId, task) :: after) = Some task
                  ∧ JsObject.get k (before ++ (taskId, bump_attempts task) :: after)
                    = Some (bump_attempts task))) as Hget.
  { intros k. rewrite !JsObjectFacts.get_app.
    destruct (JsObject.get k before) as [t|]; [by left|]. simpl.
    destruct (String.eqb k taskId); [by right|by left]. }
  split; [|exact Hget].
  intros Hentry. destruct (Hget taskId) as [Hsame|[_ Hnew]]; [|exact Hnew].
  rewrite !JsObjectFacts.get_app in *.
  destruct (JsObject.get taskId before) as [t|] eqn:G.
  - apply get_elem_of in G. injection Hentry as ->.
    rewrite Forall_forall in Hbefore. specialize (Hbefore _ G). simpl in *. congruence.
  - simpl. by rewrite String.eqb_refl.
Qed.

(** X5. The timer and the failure report both count an attempt.  When
    the entry of [taskId] is the first eligible one, a firing of the
    timer dispatches it, and a [fail] for it after that leaves it with
    two attempts more than before the firing. *)
Theorem dispatch_then_fail_counts_twice (clock' : Clock) (fetch_outcome : option string)
    (taskId message : string) (task : PRDEntry) (s : Storage) :
  first_eligible (JsObject.entries (tasks (ledger env clock s))) = Some (taskId, task) →
  entry_of env clock s taskId = Some task →
  let fired := alarm env clock fetch_outcome s in
  let reported := handleFail env clock' taskId message (final_state fired) in
  filter is_post_execute (effects fired)
  = [HttpPostExecute (EXECUTION_SERVER_URL env +:+ "/execute")
       ("Bearer " +:+ EXECUTION_SERVER_TOKEN env)
       (execution_request env taskId (bump_attempts task))]
  ∧ (attempts <$> entry_of env clock (final_state fired) taskId)
    = Some (attempts task + 1)
  ∧ (attempts <$> entry_of env clock' (final_state reported) taskId)
    = Some (attempts task + 2).
Proof.
  intros Hfirst Hentry fired reported.
  pose proof (alarm_entry_of fetch_outcome s) as Hfired.
  rewrite Hfirst in Hfired. destruct Hfired as [Hfired _].
  specialize (Hfired Hentry). fold fired in Hfired.
  split; [|split].
  - subst fired. rewrite alarm_run.
    pose proof (alarm_scan_first (JsObject.entries (tasks (ledger env clock s)))) as Hscan.
    rewrite Hfirst in Hscan. destruct Hscan as (before & after & _ & _ & _ & ->).
    cbn. rewrite filter_app.
    unfold initialisation. by destruct (stored_prd s).
  - by rewrite Hfired.
  - subst reported. rewrite handleFail_run.
    assert (entry_of env clock' (final_state fired) taskId = Some (bump_attempts task))
      as Hfired'.
    { unfold entry_of in *. by rewrite (tasks_ledger_clock clock'). }
    unfold entry_of in *. rewrite (member_own _ _ _ _ Hfired'). cbn.
    rewrite JsObjectFacts.get_alter_eq, Hfired'. cbn. f_equal. lia.
Qed.

End LedgerFacts.

(** *** Along the life of an actor *)

Section LedgerSteps.
Import Store.
Variable env : Env.
Variable clock : Clock.

Lemma progress_log_run (stored : option PRD) (progress : option string)
    (alarm : option Z) (given : Prototype) :
  progress_log {| stored_prd := stored; stored_progress := progress;
                  alarm_time := alarm; object_prototype := given |}
  = default "" progress.
Proof. destruct progress as [p|]; [apply or_else_empty|done]. Qed.

(** What one step keeps: the version does not decrease, the progress
    log is extended, and every entry stays in the ledger. *)
Lemma step_keeps (s s' : Storage) :
  step env s s' →
  (version (ledger env clock s) ≤ version (ledger env clock s'))%nat
  ∧ (∃ suffix, progress_log s' = progress_log s +:+ suffix)
  ∧ ∀ taskId, is_Some (entry_of env clock s taskId)
              → is_Some (entry_of env clock s' taskId).
Proof.
  assert (∀ p : string, ∃ suffix, p = p +:+ suffix) as Hsame.
  { intros p. exists "". by rewrite StringFacts.append_empty_r. }
  intros Hstep.
  destruct Hstep as [c task s|c taskId result s|c taskId message s
                    |c s|c s|s|entry s|c fetch_outcome scheduledTime s Harmed
                    |given s].
  - rewrite handleEnqueue_run. cbn. rewrite (version_ledger_clock env clock c).
    split; [lia|]. split; [apply Hsame|].
    intros k Hk. unfold entry_of in *. cbn. rewrite (tasks_ledger_clock env clock c).
    by apply JsObjectFacts.get_set_is_Some.
  - rewrite handleComplete_run. unfold entry_of.
    destruct (member _ _ _); destruct (res_learnings result) as [|l ls];
      cbn -[render_progress];
      rewrite ?(version_ledger_clock env clock c), ?(tasks_ledger_clock env clock c);
      (split; [lia|]);
      (split; [first [apply Hsame|eexists; rewrite or_else_empty; reflexivity]|]);
      first [done|intros k Hk; by apply JsObjectFacts.get_alter_is_Some].
  - rewrite handleFail_run. unfold entry_of.
    destruct (member _ _ _); cbn;
      rewrite ?(version_ledger_clock env clock c), ?(tasks_ledger_clock env clock c);
      (split; [lia|]); (split; [apply Hsame|]);
      first [done|intros k Hk; by apply JsObjectFacts.get_alter_is_Some].
  - rewrite handleGetNextTask_run. unfold entry_of. cbn.
    rewrite ?(version_ledger_clock env clock c), ?(tasks_ledger_clock env clock c).
    split; [lia|]. split; [apply Hsame|done].
  - rewrite handleGetPRD_run. unfold entry_of. cbn.
    rewrite ?(version_ledger_clock env clock c), ?(tasks_ledger_clock env clock c).
    split; [lia|]. split; [apply Hsame|done].
  - split; [done|]. split; [apply Hsame|done].
  - rewrite handleUpdateProgress_run. cbn -[render_progress].
    split; [done|]. split; [|done].
    eexists. rewrite or_else_empty. reflexivity.
  - pose proof (alarm_entry_of env c fetch_outcome (alarm_taken s)) as Hentries.
    pose proof (alarm_version env c fetch_outcome (alarm_taken s)) as Hversion.
    assert (progress_log (final_state (alarm env c fetch_outcome (alarm_taken s)))
            = progress_log s) as Hlog.
    { rewrite alarm_run. by destruct (alarm_scan _) as [[[k t] ts]|]. }
    rewrite Hlog.
    split; [|split; [apply Hsame|]].
    + rewrite <- (version_ledger_clock env clock c (final_state _)), Hversion.
      by rewrite (version_ledger_clock env clock c).
    + intros k. unfold entry_of in *.
      rewrite <- (tasks_ledger_clock env clock c (final_state _)).
      change (tasks (ledger env clock s)) with (tasks (ledger env clock (alarm_taken s))).
      rewrite <- (tasks_ledger_clock env clock c (alarm_taken s)).
      cbn zeta in Hentries.
      destruct (first_eligible _) as [[taskId task]|].
      * destruct Hentries as [_ Hentries].
        destruct (Hentries k) as [->|[_ ->]]; [done|by eexists].
      * by rewrite Hentries.
  - split; [done|]. split; [apply Hsame|done].
Qed.

(** X6. The progress log only grows: whatever requests are served and
    whatever timers fire, the log afterwards is the log before followed
    by the text added since. *)
Theorem progress_log_append_only (s s' : Storage) :
  rtc (step env) s s' → ∃ suffix, progress_log s' = progress_log s +:+ suffix.
Proof.
  induction 1 as [s|s s1 s' Hstep _ [suffix' IH]].
  - exists "". by rewrite StringFacts.append_empty_r.
  - destruct (step_keeps _ _ Hstep) as (_ & [suffix Hs] & _).
    exists (suffix +:+ suffix'). by rewrite IH, Hs, StringFacts.append_assoc.
Qed.

(** X7. The version of the ledger never decreases: no request and no
    firing of the timer lowers it (the initial ledger has version 1, so
    the version of a reachable ledger is at least 1). *)
Theorem ledger_version_never_decreases (s s' : Storage) :
  rtc (step env) s s' →
  (version (ledger env clock s) ≤ version (ledger env clock s'))%nat.
Proof.
  induction 1 as [s|s s1 s' Hstep _ IH]; [done|].
  destruct (step_keeps _ _ Hstep) as (Hv & _ & _). lia.
Qed.

(** X8. No entry is ever removed from the ledger: a task id that has an
    entry keeps one through every request and every firing. *)
Theorem ledger_entries_never_removed (s s' : Storage) (taskId : string) :
  rtc (step env) s s' →
  is_Some (entry_of env clock s taskId) → is_Some (entry_of env clock s' taskId).
Proof.
  induction 1 as [s|s s1 s' Hstep _ IH]; [done|].
  intros Hentry. apply IH.
  by destruct (step_keeps _ _ Hstep) as (_ & _ & Hkeys); apply Hkeys.
Qed.

End LedgerSteps.

(** *** The dispatch budget *)

Section DispatchFacts.
Import Store Dispatch.
Variable env : Env.

Lemma attempts_left_ineligible (entries : list (string * PRDEntry)) :
  Forall (λ e, eligible e.2 = false) entries →
  sum_list_with (λ e : string * PRDEntry, attempts_left e.2) entries = 0.
Proof.
  induction 1 as [|[k t] rest Ht _ IH]; simpl; [done|].
  rewrite IH. apply eligible_false in Ht. unfold attempts_left. simpl in *.
  destruct Ht as [->| ?]; [done|]. destruct (passes t); lia.
Qed.

(** One firing: with budget left it posts one request and uses one unit
    of the budget; without, it posts nothing. *)
Lemma alarm_budget (clock clock' : Clock) (fetch_outcome : option string) (s : Storage) :
  let r := alarm env clock fetch_outcome s in
  let before := dispatch_budget (ledger env clock' s) in
  let after := dispatch_budget (ledger env clock' (final_state r)) in
  length (filter is_post_execute (effects r)) = 1 `min` before
  ∧ after = before - 1.
Proof.
  cbn zeta. unfold dispatch_budget.
  rewrite (tasks_ledger_clock env clock clock' (final_state _)).
  rewrite (tasks_ledger_clock env clock clock' s).
  rewrite alarm_run.
  pose proof (alarm_scan_first (JsObject.entries (tasks (ledger env clock s)))) as Hscan.
  pose proof (first_eligible_spec (JsObject.entries (tasks (ledger env clock s)))) as Hfirst.
  assert (filter is_post_execute (initialisation env clock s) = []) as Hinit
    by (unfold initialisation; by destruct (stored_prd s)).
  unfold JsObject.entries in *.
  destruct (first_eligible _) as [[taskId task]|].
  - destruct Hscan as (before & after & Htasks & Hbefore & Htask & ->).
    rewrite Htasks.
    apply eligible_true in Htask as [Hp Ha].
    assert (attempts_left task = S (attempts_left (bump_attempts task))) as Hleft.
    { unfold attempts_left. cbn. rewrite Hp. lia. }
    rewrite sum_list_with_app, (attempts_left_ineligible before Hbefore).
    cbn [sum_list_with snd]. rewrite Hleft. split.
    + unfold effects. cbn [snd]. by rewrite filter_app, Hinit.
    + change (tasks (ledger env clock (final_state _)))
        with (before ++ (taskId, bump_attempts task) :: after).
      rewrite sum_list_with_app, (attempts_left_ineligible before Hbefore).
      cbn [sum_list_with snd]. lia.
  - rewrite Hscan. unfold effects, final_state. cbn [fst snd].
    rewrite Hinit. change (tasks (ledger env clock (initialised env clock s)))
      with (tasks (ledger env clock s)).
    by rewrite (attempts_left_ineligible _ Hfirst).
Qed.

(** X9. The alarm handler dispatches within a budget: each entry that
    has not passed is worth three dispatches less its attempts, and
    successive firings of the timer post, in all, as many requests as
    there are firings, up to the budget of the ledger they start from;
    when the budget is used up, further firings post nothing. *)
Theorem firings_stay_within_budget (clock : Clock)
    (fs : list (Clock * option string)) (s : Storage) :
  length (filter is_post_execute (firings env fs s).2)
  = length fs `min` dispatch_budget (ledger env clock s).
Proof.
  revert s. induction fs as [|[c fetch_outcome] rest IH]; intros s; [done|].
  cbn [firings]. specialize (IH (final_state (alarm env c fetch_outcome s))).
  pose proof (alarm_budget c clock fetch_outcome s) as Hone. cbn zeta in Hone.
  destruct (firings env rest _) as [s' later]. cbn [snd] in *.
  rewrite filter_app, length_app, IH.
  destruct Hone as [-> ->]. cbn [length]. lia.
Qed.

End DispatchFacts.

(** ** The quality gate: the other verdicts *)

Section GateFacts.
Import Server QualityChecker.
Variable w : World.
Variable worktreePath : string.

(** Every case of the three commands of [runAll]. *)
Ltac runAll_cases :=
  unfold runAll, runTypecheck, runTests, runLint, execAsync, perform, probe;
  unfold bind, try_catch, emit, settle, ret, throw;
  destruct (outcome w NpmRunTypecheck) as [m1|];
    [destruct (Js.includes "Missing script" m1);
     [destruct (outcome w NpxTsc) as [m1'|]|]|];
  (destruct (outcome w NpmTest) as [m2|];
     [destruct (Js.includes "Missing script" m2)|]);
  (destruct (outcome w NpmRunLint) as [m3|];
     [destruct (Js.includes "Missing script" m3)|]).

(** X10. On a project with a [package.json], the [typecheck] field of
    [runAll] is decided by [npm run typecheck] and, when that fails for
    a missing script, by [npx tsc --noEmit], which is run in that case
    only: the field is true when the first succeeds, or fails with a
    message that contains "Missing script" and the second succeeds;
    otherwise it is false and the error of the command that failed last
    is recorded as "Typecheck failed: ...". *)
Theorem runAll_typecheck_verdict (s : State) :
  outcome w AccessPackageJson = None →
  let r := runAll w worktreePath s in
  ∃ results,
    completion r = Normal results
    ∧ match outcome w NpmRunTypecheck with
      | None =>
          typecheck results = true
          ∧ Exec "npx tsc --noEmit" worktreePath ∉ effects r
      | Some message =>
          if Js.includes "Missing script" message
          then Exec "npx tsc --noEmit" worktreePath ∈ effects r
               ∧ match outcome w NpxTsc with
                 | None => typecheck results = true
                 | Some tscMessage =>
                     typecheck results = false
                     ∧ "Typecheck failed: " +:+ tscMessage ∈ errors results
                 end
          else typecheck results = false
               ∧ "Typecheck failed: " +:+ message ∈ errors results
               ∧ Exec "npx tsc --noEmit" worktreePath ∉ effects r
      end.
Proof.
  intros Hpkg. cbn zeta. unfold completion, effects.
  unfold runAll, probe. unfold bind at 1. unfold try_catch at 1.
  unfold bind at 1. unfold settle at 1. rewrite Hpkg.
  runAll_cases; cbn; eexists; (split; [reflexivity|]); cbn;
    repeat split; try done; solve_listed.
Qed.

(** X11. [runAll] always returns, and what it returns is coherent: the
    gate of the pipeline ([typecheck] and [tests] both true) is passed
    exactly when no error was recorded.  On a worktree without
    [package.json] it runs no command at all and reports the three
    checks as failed, with the single error "No package.json found";
    with a [package.json], [lint] is true: no outcome of the lint
    command makes it false or records an error. *)
Theorem runAll_gate_iff_no_errors (s : State) :
  let r := runAll w worktreePath s in
  ∃ results,
    completion r = Normal results
    ∧ (typecheck results && tests results = true ↔ errors results = [])
    ∧ match outcome w AccessPackageJson with
      | None => lint results = true
      | Some _ =>
          r = (Normal {| typecheck := false; tests := false; lint := false;
                         errors := ["No package.json found"] |}, s, [])
      end.
Proof.
  cbn zeta. unfold completion.
  unfold runAll, probe. unfold bind at 1 2. unfold try_catch at 1 4.
  unfold bind at 1 3. unfold settle at 1 2.
  destruct (outcome w AccessPackageJson) as [m0|].
  { cbn. eexists. split; [reflexivity|]. cbn. by repeat split. }
  runAll_cases; cbn; eexists; (split; [reflexivity|]); cbn; by repeat split.
Qed.

End GateFacts.

(** ** The worktree manager *)

Section GitFacts.
Import Server GitManager.
Variable w : World.

(** X12. [commit] never commits an empty index: when nothing is staged
    after [git add .], it throws ("No changes to commit", if the
    commands before went through) and no [git commit] is run. *)
Theorem commit_requires_staged_changes (worktreePath message : string) (s : State) :
  staged_files w = [] →
  let r := commit w worktreePath message s in
  filter is_commit_or_push (effects r) = []
  ∧ final_state r = s
  ∧ match outcome w AddConfigName, outcome w AddConfigEmail,
          outcome w AddAll, outcome w StatusStaged with
    | None, None, None, None => completion r = Throw "No changes to commit"
    | _, _, _, _ => ∃ e, completion r = Throw e
    end.
Proof.
  intros Hstaged. cbn zeta.
  unfold commit, perform, probe, bind, emit, settle, ret, throw,
    completion, final_state, effects.
  rewrite Hstaged.
  destruct (outcome w AddConfigName), (outcome w AddConfigEmail),
    (outcome w AddAll), (outcome w StatusStaged); cbn;
    repeat split; by eauto.
Qed.

(** X13. [createWorktree]: the directory of worktrees is made, a stale
    worktree of the branch is removed (whether that removal succeeds or
    not does not matter), the remote is fetched and the worktree is
    added.  It returns [repoPath/.worktrees/branchName], with that
    worktree on disk, unless the [mkdir] or the fetch fails, whose error
    it throws as it is, or the [worktree add] fails, whose error it
    wraps in "Failed to create worktree: ...". *)
Theorem createWorktree_outcome (repoPath branchName baseBranch : string) (s : State) :
  let path := path_join [repoPath; ".worktrees"; branchName] in
  let r := createWorktree w repoPath branchName baseBranch s in
  executions (final_state r) = executions s
  ∧ match outcome w MkdirWorktrees, outcome w FetchOrigin, outcome w WorktreeAdd with
    | Some e, _, _ => completion r = Throw e ∧ effects r = [FsMkdir (path_join [repoPath; ".worktrees"])]
    | None, Some e, _ => completion r = Throw e
    | None, None, Some e => completion r = Throw ("Failed to create worktree: " +:+ e)
    | None, None, None => completion r = Normal path ∧ path ∈ worktrees (final_state r)
    end.
Proof.
  cbn zeta.
  unfold createWorktree, disk_add, disk_remove, perform, bind, try_catch, emit,
    settle, modify_state, ret, throw, completion, final_state, effects.
  destruct (outcome w MkdirWorktrees), (outcome w WorktreeRemoveStale),
    (outcome w FetchOrigin), (outcome w WorktreeAdd); cbn;
    repeat split; try done; apply elem_of_union_l; by apply elem_of_singleton.
Qed.

(** X14. [cloneIfNeeded] clones whenever the check of the existing
    clone or its fetch fails: also when the repository is there and only
    [git fetch] failed, it goes on to clone into the same path (after
    making the parent directory). *)
Theorem cloneIfNeeded_clones_on_any_failure (repoUrl targetPath : string) (s : State) :
  let r := cloneIfNeeded w repoUrl targetPath s in
  final_state r = s
  ∧ (GitCommand "" ["clone"; repoUrl; targetPath] ∈ effects r
     ↔ (outcome w AccessGitDir ≠ None ∨ outcome w FetchExisting ≠ None)
       ∧ outcome w MkdirWorkspace = None)
  ∧ (completion r = Normal tt
     ↔ (outcome w AccessGitDir = None ∧ outcome w FetchExisting = None)
       ∨ (outcome w MkdirWorkspace = None ∧ outcome w Clone = None)).
Proof.
  cbn zeta.
  unfold cloneIfNeeded, perform, probe, bind, try_catch, emit,
    settle, ret, throw, completion, final_state, effects.
  destruct (outcome w AccessGitDir), (outcome w FetchExisting),
    (outcome w MkdirWorkspace), (outcome w Clone); cbn;
    (split; [done|]); split; split; try done;
    try (intuition congruence);
    try (intros _; solve_listed);
    try (intros Hin; exfalso;
         repeat (apply elem_of_cons in Hin as [Hin|Hin]; [discriminate Hin|]);
         by apply elem_of_nil in Hin).
Qed.

End GitFacts.

Section AgentSteps.
Import Server ExecutionAgent.
Variable workspaceRoot : string.
Variable extractLearnings : string → list string.
Variable w : World.

(** The run of [cancel]. *)
Lemma cancel_run (executionId : string) (s : State) :
  cancel workspaceRoot w executionId s
  = match executions s !! executionId with
    | None => (Normal tt, s, [])
    | Some state =>
        let marked :=
          alter (set_completedAt (now_iso (finished w))) executionId
            (alter (set_status cancelled) executionId (executions s)) in
        match exec_worktreePath state with
        | Some (String c p) =>
            (Normal tt,
             {| executions := marked;
                worktrees := match outcome w WorktreeRemove with
                             | None => worktrees s ∖ {[String c p]}
                             | Some _ => worktrees s
                             end |},
             [GitCommand (path_join [workspaceRoot; "rocket"])
                ["worktree"; "remove"; String c p; "--force"]])
        | _ => (Normal tt, {| executions := marked; worktrees := worktrees s |}, [])
        end
    end.
Proof.
  unfold cancel, update_state, GitManager.deleteWorktree, GitManager.disk_remove,
    perform, bind, try_catch, emit, settle, modify_state, get_state, ret, throw.
  destruct (executions s !! executionId) as [state|]; cbn; [|done].
  destruct (exec_worktreePath state) as [[|c p]|]; cbn; try done.
  by destruct (outcome w WorktreeRemove).
Qed.

Lemma marked_cancelled (executionId : string) (state : ExecutionState)
    (m : gmap string ExecutionState) :
  m !! executionId = Some state →
  alter (set_completedAt (now_iso (finished w))) executionId
    (alter (set_status cancelled) executionId m)
  = <[executionId := set_completedAt (now_iso (finished w)) (set_status cancelled state)]> m.
Proof.
  intros Hstate. apply map_eq. intros k.
  destruct (decide (k = executionId)) as [->|Hne].
  - by rewrite !lookup_alter_eq, lookup_insert_eq, Hstate.
  - by rewrite !lookup_alter_ne, lookup_insert_ne.
Qed.


(** X16. [getProgressContext] never throws and touches nothing.  It
    returns the last 2000 characters of the progress file, the whole
    file when it is not longer than that, and the empty string when the
    file cannot be read. *)
Theorem getProgressContext_last_2000 (repoPath : string) (s : State) :
  ∃ context,
    getProgressContext w repoPath s = (Normal context, s, [])
    ∧ (String.length context ≤ 2000)%nat
    ∧ match outcome w ReadProgressFile with
      | None =>
          (∃ before, progress_file w = before +:+ context)
          ∧ String.length context = String.length (progress_file w) `min` 2000
      | Some _ => context = ""
      end.
Proof.
  unfold getProgressContext, probe, bind, try_catch, settle, ret, throw.
  destruct (outcome w ReadProgressFile) as [e|].
  { exists "". repeat split. simpl. lia. }
  destruct (2000 <? String.length (progress_file w))%nat eqn:E.
  - apply Nat.ltb_lt in E.
    exists (Js.substring_from (String.length (progress_file w) - 2000) (progress_file w)).
    split; [reflexivity|].
    rewrite StringFacts.substring_from_length.
    split; [lia|]. split; [|lia].
    eexists. apply StringFacts.substring_from_split.
  - apply Nat.ltb_ge in E. exists (progress_file w). split; [reflexivity|].
    split; [done|]. split; [by exists ""|lia].
Qed.

(** X17. The commit message starts with a title line: the first line
    of the task description, cut to 72 characters; every changed file is
    listed in it as an item. *)
Theorem commit_message_title (taskDescription file : string) (changedFiles : list string) :
  file ∈ changedFiles →
  let message := generateCommitMessage w taskDescription changedFiles in
  Js.first_line message = String.substring 0 72 (Js.first_line taskDescription)
  ∧ (String.length (Js.first_line message) ≤ 72)%nat
  ∧ Js.includes ("- " +:+ file) message = true.
Proof.
  intros Hin. cbn zeta. unfold generateCommitMessage. cbn [Js.join].
  assert (Text.one_line (String.substring 0 72 (Js.first_line taskDescription))
          = true) as Hone.
  { apply StringFacts.substring_one_line, StringFacts.first_line_one_line. }
  rewrite (StringFacts.first_line_append _ _ Hone).
  split; [done|]. split; [apply StringFacts.substring_length_le|].
  do 6 apply JsFacts.includes_append_r.
  apply JsFacts.includes_append_l.
  apply JsFacts.includes_join, list_elem_of_fmap. by exists file.
Qed.

End AgentSteps.

Section RoutesMoreFacts.
Import Server ExecutionAgent Routes CancelRoute.
Variable config : Config.
Variable extractLearnings : string → list string.

(** X18. The authentication middleware lets a request through exactly
    when no token is configured, or when the [Authorization] header is
    "Bearer " followed by the configured token; every other request is
    answered 401. *)
Theorem authenticate_accepts_iff (authHeader : option string) :
  (authenticate config authHeader = None
   ↔ EXECUTION_SERVER_TOKEN config = ""
     ∨ authHeader = Some ("Bearer " +:+ EXECUTION_SERVER_TOKEN config))
  ∧ match authenticate config authHeader with
    | None => True
    | Some rejected => code rejected = 401
    end.
Proof.
  split.
  - unfold authenticate.
    destruct (EXECUTION_SERVER_TOKEN config) as [|c token] eqn:Htoken.
    { change (Js.truthy "") with false. cbn [negb]. split; auto. }
    change (Js.truthy (String c token)) with true. cbn [negb].
    destruct authHeader as [header|]; [|split; [done|by intros [|]]].
    destruct (Js.truthy header && String.prefix "Bearer " header) eqn:Hheader.
    + apply andb_true_iff in Hheader as [_ Hprefix].
      apply StringFacts.prefix_split in Hprefix.
      change (String.length "Bearer ") with 7 in Hprefix.
      destruct (String.eqb (Js.substring_from 7 header) (String c token)) eqn:E.
      * apply String.eqb_eq in E. split; [|done]. intros _. right.
        by rewrite Hprefix, E.
      * apply String.eqb_neq in E. split; [done|]. intros [|[= ->]]; [done|].
        destruct E.
        exact (StringFacts.substring_from_append "Bearer " (String c token)).
    + split; [done|]. intros [|[= ->]]; [done|].
      by rewrite (StringFacts.prefix_append "Bearer " (String c token)) in Hheader.
  - destruct (authenticate config authHeader) as [rejected|] eqn:Hauth; [|done].
    by apply (authenticate_code config authHeader).
Qed.

(** X19. [POST /execute] answers 401, 400 or 200.  A request that is
    not let through, or that lacks one of [taskId], [repoUrl],
    [branchName] and [prompt], starts nothing: the state of the server
    is untouched and nothing is done outside.  A request that is
    answered 200 was let through with the four fields, and an execution
    is recorded for it. *)
Theorem post_execute_rejects_without_effect (draw : Draw) (w : World)
    (authHeader : option string) (request : ExecutionRequest) (s : State) :
  let r := post_execute config extractLearnings draw w authHeader request s in
  let complete :=
    Js.truthy (req_taskId request) && Js.truthy (req_repoUrl request)
    && Js.truthy (req_branchName request) && Js.truthy (req_prompt request) in
  ∃ response,
    completion r = Normal response
    ∧ match authenticate config authHeader with
      | Some rejected => response = rejected ∧ final_state r = s ∧ effects r = []
      | None =>
          if complete
          then code response = 200
               ∧ is_Some (executions (final_state r) !! generateExecutionId w)
          else code response = 400 ∧ final_state r = s ∧ effects r = []
      end.
Proof.
  cbn zeta. unfold post_execute.
  destruct (authenticate config authHeader) as [rejected|]; [by eexists|].
  destruct (Js.truthy (req_taskId request)), (Js.truthy (req_repoUrl request)),
    (Js.truthy (req_branchName request)), (Js.truthy (req_prompt request));
    cbn [negb orb andb]; try by eexists.
  pose proof (execute_never_throws (Js.or_else (WORKSPACE_ROOT config) "/workspace")
                extractLearnings w request s) as [result Hresult].
  pose proof (execute_keys (Js.or_else (WORKSPACE_ROOT config) "/workspace")
                extractLearnings w request s) as Hkeys.
  unfold bind, completion, final_state in *.
  destruct (execute _ _ _ _ _) as [[c s'] t]; cbn in *. subst c. cbn.
  eexists. split; [reflexivity|]. split; [done|].
  apply elem_of_dom. rewrite Hkeys. apply elem_of_union_l. by apply elem_of_singleton.
Qed.

(** X20. [POST /cancel] answers "Execution cancelled" to every request
    that is let through, also for an id under which no execution is
    recorded, where it changes nothing; its answer for a failed
    cancellation is never given, since [cancel] does not throw. *)
Theorem post_cancel_always_ok (w : World) (authHeader : option string)
    (executionId : string) (s : State) :
  let r := post_cancel config w authHeader executionId s in
  match authenticate config authHeader with
  | Some rejected => r = (Normal (CancelRejected rejected), s, [])
  | None =>
      completion r = Normal (Cancelled "Execution cancelled")
      ∧ match executions s !! executionId with
        | None => final_state r = s ∧ effects r = []
        | Some state =>
            (exec_status <$> executions (final_state r) !! executionId) = Some cancelled
        end
  end.
Proof.
  cbn zeta. unfold post_cancel.
  destruct (authenticate config authHeader) as [rejected|]; [done|].
  unfold try_catch, bind. rewrite cancel_run.
  destruct (executions s !! executionId) as [state|] eqn:Hstate; [|done].
  rewrite (marked_cancelled w executionId state (executions s) Hstate).
  destruct (exec_worktreePath state) as [[|c p]|]; cbn; by rewrite lookup_insert_eq.
Qed.

End RoutesMoreFacts.

(** ** Rules for what a computation returns after which effects *)

Section ReturnFacts.
Context {St Ev : Type}.

Lemma on_return_weaken {A} (m : Eff St Ev A) (Q Q' : A → list Ev → Prop) :
  on_return m Q' → (∀ a t, Q' a t → Q a t) → on_return m Q.
Proof.
  intros Hm HQ s. specialize (Hm s). destruct (m s) as [[[a|e] s1] t1]; auto.
Qed.

Lemma on_return_conj {A} (m : Eff St Ev A) (Q1 Q2 : A → list Ev → Prop) :
  on_return m Q1 → on_return m Q2 → on_return m (λ a t, Q1 a t ∧ Q2 a t).
Proof.
  intros H1 H2 s. specialize (H1 s). specialize (H2 s).
  by destruct (m s) as [[[a|e] s1] t1].
Qed.

Lemma on_return_ret {A} (a : A) (Q : A → list Ev → Prop) :
  Q a [] → on_return (St:=St) (ret a) Q.
Proof. by intros HQ s. Qed.

Lemma on_return_throw {A} (e : string) (Q : A → list Ev → Prop) :
  on_return (St:=St) (throw e) Q.
Proof. by intros s. Qed.

Lemma on_return_bind {A B} (m : Eff St Ev A) (k : A → Eff St Ev B)
    (R : A → list Ev → Prop) (Q : B → list Ev → Prop) :
  on_return m R →
  (∀ a t1, R a t1 → on_return (k a) (λ b t2, Q b (t1 ++ t2))) →
  on_return (bind m k) Q.
Proof.
  intros Hm Hk s. specialize (Hm s). unfold bind.
  destruct (m s) as [[[a|e] s1] t1]; [|done].
  specialize (Hk a t1 Hm s1). by destruct (k a s1) as [[[b|e] s2] t2].
Qed.

Lemma on_return_try_catch {A} (m : Eff St Ev A) (h : string → Eff St Ev A)
    (Q : A → list Ev → Prop) :
  on_return m Q →
  (∀ e t1, on_return (h e) (λ a t2, Q a (t1 ++ t2))) →
  on_return (try_catch m h) Q.
Proof.
  intros Hm Hh s. specialize (Hm s). unfold try_catch.
  destruct (m s) as [[[a|e] s1] t1]; [done|].
  specialize (Hh e t1 s1). by destruct (h e s1) as [[[b|e'] s2] t2].
Qed.

Lemma emits_only_on_return {A} (φ : Ev → bool) (m : Eff St Ev A) :
  emits_only φ m → on_return m (λ _ t, Forall (λ e, φ e = true) t).
Proof.
  intros Hm s. specialize (Hm s). unfold effects in Hm.
  by destruct (m s) as [[[a|e] s1] t1].
Qed.

(** A step with effects in [φ], in front of a continuation, for a
    property of the trace that effects in [φ] in front do not change. *)
Lemma on_return_after {A B} (φ : Ev → bool) (V : A → Prop)
    (m : Eff St Ev A) (k : A → Eff St Ev B) (Q : B → list Ev → Prop) :
  emits_only φ m →
  on_return m (λ a _, V a) →
  (∀ b t1 t2, Forall (λ e, φ e = true) t1 → Q b t2 → Q b (t1 ++ t2)) →
  (∀ a, V a → on_return (k a) Q) →
  on_return (bind m k) Q.
Proof.
  intros Hm HV HQ Hk.
  apply on_return_bind with (R := λ a t, V a ∧ Forall (λ e, φ e = true) t).
  - apply on_return_conj; [exact HV|by apply emits_only_on_return].
  - intros a t1 [Ha Ht1]. eapply on_return_weaken; [exact (Hk a Ha)|].
    intros b t2. by apply HQ.
Qed.

Lemma on_return_true {A} (m : Eff St Ev A) : on_return m (λ _ _, True).
Proof. intros s. by destruct (m s) as [[[a|e] s1] t1]. Qed.

(** The effects a filter drops. *)
Lemma filter_none (φ ψ : Ev → bool) (t : list Ev) :
  (∀ e, φ e = true → ψ e = false) →
  Forall (λ e, φ e = true) t → filter ψ t = [].
Proof.
  intros Hφ. induction 1 as [|e t He _ IH]; [done|].
  rewrite filter_cons. destruct (decide (ψ e)) as [Hyes|]; [|exact IH].
  by rewrite (Hφ e He) in Hyes.
Qed.

End ReturnFacts.

Section PipelineFacts.
Import Server ExecutionAgent Pipeline.
Variable workspaceRoot : string.
Variable extractLearnings : string → list string.
Variable w : World.

Lemma local_not_callback (t : list Effect) :
  Forall (λ e, is_local e = true) t → filter is_callback t = [].
Proof.
  apply filter_none. intros e. unfold is_local. by destruct (is_callback e).
Qed.

Lemma local_not_commit_or_push (t : list Effect) :
  Forall (λ e, is_local e = true) t → filter is_commit_or_push t = [].
Proof.
  apply filter_none. intros e. unfold is_local.
  by destruct (is_callback e), (is_commit_or_push e).
Qed.

(** What the steps of the pipeline return. *)
Lemma createWorktree_returns (repoPath branchName baseBranch : string) :
  on_return (GitManager.createWorktree w repoPath branchName baseBranch)
    (λ worktreePath _, worktreePath = path_join [repoPath; ".worktrees"; branchName]).
Proof.
  intros s.
  unfold GitManager.createWorktree, GitManager.disk_add, GitManager.disk_remove,
    perform, bind, try_catch, emit, settle, modify_state, ret, throw.
  by destruct (outcome w MkdirWorktrees), (outcome w WorktreeRemoveStale),
    (outcome w FetchOrigin), (outcome w WorktreeAdd).
Qed.

Lemma run_returns (worktreePath promptFile : string) (maxIterations : nat) :
  on_return (ClaudeRunner.run w worktreePath promptFile maxIterations)
    (λ claudeResult _, claudeResult = claude w).
Proof. by intros s. Qed.

Lemma getChangedFiles_returns (worktreePath : string) :
  on_return (GitManager.getChangedFiles w worktreePath)
    (λ changedFiles t, changedFiles = changed_files w ∧ t = []).
Proof.
  intros s. unfold GitManager.getChangedFiles, probe, bind, settle.
  by destruct (outcome w StatusChanged).
Qed.

Lemma commit_returns (worktreePath message : string) :
  on_return (GitManager.commit w worktreePath message)
    (λ _ t,
       staged_files w ≠ [] ∧ outcome w Commit = None
       ∧ filter is_callback t = []
       ∧ filter is_commit_or_push t
         = [GitCommand worktreePath
              ["commit"; "-m"; message;
               "--author=" +:+ Js.or_else (GIT_AUTHOR_NAME w) "seecretly" +:+ " <"
               +:+ Js.or_else (GIT_AUTHOR_EMAIL w) "seecretly@users.noreply.github.com"
               +:+ ">"]]).
Proof.
  intros s.
  unfold GitManager.commit, perform, probe, bind, emit, settle, ret, throw.
  destruct (outcome w AddConfigName), (outcome w AddConfigEmail),
    (outcome w AddAll), (outcome w StatusStaged); cbn; try done.
  destruct (staged_files w) as [|f fs]; cbn; [done|].
  by destruct (outcome w Commit).
Qed.

Lemma push_returns (worktreePath branchName : string) :
  on_return (GitManager.push w worktreePath branchName)
    (λ _ t,
       outcome w Push = None
       ∧ t = [GitCommand worktreePath
                ["push"; "origin"; branchName; "--set-upstream"; "--force"]]).
Proof.
  intros s. unfold GitManager.push, perform, bind, emit, settle.
  by destruct (outcome w Push).
Qed.

Lemma deleteWorktree_local (repoPath worktreePath : string) :
  emits_only is_local (GitManager.deleteWorktree w repoPath worktreePath).
Proof.
  unfold GitManager.deleteWorktree, GitManager.disk_remove, perform. solve_emits.
Qed.

Lemma notify_if_returns (request : ExecutionRequest) (posted : ExecutionResult) :
  on_return
    (if Js.truthy (req_callbackUrl request)
     then notifyCallback w (req_callbackUrl request) posted
     else ret tt)
    (λ _ t, t = if Js.truthy (req_callbackUrl request)
                then [HttpPostCallback (req_callbackUrl request) posted]
                else []).
Proof.
  intros s. destruct (Js.truthy (req_callbackUrl request)); [|done].
  by rewrite notifyCallback_run.
Qed.

Lemma on_return_bind_throw {A B} (e : string) (k : A → Run B)
    (Q : B → list Effect → Prop) :
  on_return (bind (throw e) k) Q.
Proof. by intros s. Qed.

(** When [execute] returns a success, the run stands for one. *)
Lemma execute_success_pushed (request : ExecutionRequest) :
  on_return (execute workspaceRoot extractLearnings w request)
    (λ result t, res_success result = true → pushed workspaceRoot w request result t).
Proof.
  set (worktreePath :=
         path_join [path_join [workspaceRoot; "rocket"]; ".worktrees";
                    req_branchName request]).
  pose (Q := λ (result : ExecutionResult) (t : list Effect),
          res_success result = true → pushed workspaceRoot w request result t).
  change (on_return (execute workspaceRoot extractLearnings w request) Q).
  unfold pushed in Q. fold worktreePath in Q.
  assert (∀ b t1 t2, Forall (λ e, is_local e = true) t1 → Q b t2 → Q b (t1 ++ t2))
    as Hlocal.
  { intros b t1 t2 Ht1 Hb Hs. specialize (Hb Hs).
    by rewrite !filter_app, (local_not_callback t1 Ht1),
      (local_not_commit_or_push t1 Ht1). }
  assert (∀ executionId,
            on_return (execute_try workspaceRoot extractLearnings w executionId request) Q)
    as Htry.
  { intros executionId. unfold execute_try. cbv zeta.
    apply (on_return_after is_local (λ _, True));
      [apply cloneIfNeeded_local|apply on_return_true|exact Hlocal|intros _ _].
    apply (on_return_after is_local
             (λ p, p = path_join [path_join [workspaceRoot; "rocket"]; ".worktrees";
                                  req_branchName request]));
      [apply createWorktree_local|apply createWorktree_returns|exact Hlocal|intros ? ->].
    fold worktreePath.
    do 4 (apply (on_return_after is_local (λ _, True));
            [solve_emits; eauto using update_state_local, installDependencies_local,
               getProgressContext_local, generatePromptFile_local
            |apply on_return_true|exact Hlocal|intros ? _]).
    apply (on_return_after is_local (λ c, c = claude w));
      [apply run_local|apply run_returns|exact Hlocal|intros ? ->].
    apply (on_return_after is_local (λ _, True));
      [apply update_state_local|apply on_return_true|exact Hlocal|intros _ _].
    destruct (claude_success (claude w)) eqn:Hclaude; cbn [negb];
      [|apply on_return_bind_throw].
    apply (on_return_after is_local (λ _, True));
      [solve_emits|apply on_return_true|exact Hlocal|intros _ _].
    apply (on_return_after is_local (λ _, True));
      [apply update_state_local|apply on_return_true|exact Hlocal|intros _ _].
    apply (on_return_after is_local (λ _, True));
      [apply runAll_local|apply on_return_true|exact Hlocal|intros qualityResult _].
    destruct (negb _ || negb _).
    - (* the quality gate failed *)
      apply (on_return_after is_local (λ _, True));
        [apply update_state_local|apply on_return_true|exact Hlocal|intros _ _].
      apply (on_return_after is_local (λ _, True));
        [apply read_state_local|apply on_return_true|exact Hlocal|intros state _].
      by apply on_return_ret.
    - (* the quality gate passed *)
      eapply on_return_bind; [apply getChangedFiles_returns|].
      intros ? ? [-> ->].
      destruct (changed_files w) as [|f fs] eqn:Hchanged; cbn [length Nat.eqb];
        [apply on_return_bind_throw|].
      apply on_return_bind with (R := λ _ t, t = []); [by apply on_return_ret|].
      intros _ ? ->.
      eapply on_return_bind; [apply commit_returns|].
      intros _ t_commit (Hstaged & Hcommit & Hcb & Hcp).
      eapply on_return_bind; [apply push_returns|]. intros _ ? [Hpush ->].
      eapply on_return_bind;
        [apply emits_only_on_return, (read_state_local w)|]. intros state t_read Hread.
      eapply on_return_bind; [apply notify_if_returns|]. intros _ ? ->.
      eapply on_return_bind;
        [apply emits_only_on_return, (deleteWorktree_local)|]. intros ? t_delete Hdelete.
      eapply on_return_bind;
        [apply emits_only_on_return, (update_state_local)|]. intros ? t_1 H1.
      eapply on_return_bind;
        [apply emits_only_on_return, (update_state_local)|]. intros ? t_2 H2.
      eapply on_return_bind;
        [apply emits_only_on_return, (read_state_local w)|]. intros state' t_3 H3.
      apply on_return_ret. intros _.
      rewrite !filter_app, !app_nil_r. cbn [app].
      rewrite Hcb, Hcp.
      rewrite (local_not_callback _ Hread), (local_not_commit_or_push _ Hread).
      rewrite (local_not_callback _ Hdelete), (local_not_commit_or_push _ Hdelete).
      rewrite (local_not_callback _ H1), (local_not_commit_or_push _ H1).
      rewrite (local_not_callback _ H2), (local_not_commit_or_push _ H2).
      rewrite (local_not_callback _ H3), (local_not_commit_or_push _ H3).
      rewrite !app_nil_r. cbn [app].
      destruct (Js.truthy (req_callbackUrl request));
        (do 5 (split; [done|])); (split; [reflexivity|]);
        (split; [|by repeat split]);
        exists (result_of w request state true None true true);
        (split; [reflexivity|by split]). }
  assert (on_return (execute workspaceRoot extractLearnings w request) Q) as Hexecute.
  { unfold execute. cbv zeta.
    apply (on_return_after is_local (λ _, True));
      [solve_emits|apply on_return_true|exact Hlocal|intros _ _].
    apply on_return_try_catch; [apply Htry|].
    intros e t1 s1. rewrite execute_catch_run. by intros [=]. }
  exact Hexecute.
Qed.

(** X21. A success is a pushed commit.  When [execute] returns a
    result with [success = true], the coding agent had succeeded, the
    worktree had changed and staged files, and [git commit] and
    [git push] succeeded: exactly one commit, with the generated
    message, and then one push of the request's branch were run in the
    worktree of that branch.  The result has [testsPass] and
    [typecheckPass] true and no error, and one result, a success for
    the same task, was posted to the callback URL if the request has
    one. *)
Theorem execute_success_means_pushed (request : ExecutionRequest) (s : State)
    (result : ExecutionResult) :
  let r := execute workspaceRoot extractLearnings w request s in
  let worktreePath :=
    path_join [path_join [workspaceRoot; "rocket"]; ".worktrees"; req_branchName request] in
  completion r = Normal result →
  res_success result = true →
  claude_success (claude w) = true
  ∧ changed_files w ≠ [] ∧ staged_files w ≠ []
  ∧ outcome w Commit = None ∧ outcome w Push = None
  ∧ filter is_commit_or_push (effects r)
    = [GitCommand worktreePath
         ["commit"; "-m";
          generateCommitMessage w (req_prompt request) (changed_files w);
          "--author=" +:+ Js.or_else (GIT_AUTHOR_NAME w) "seecretly" +:+ " <"
          +:+ Js.or_else (GIT_AUTHOR_EMAIL w) "seecretly@users.noreply.github.com"
          +:+ ">"];
       GitCommand worktreePath
         ["push"; "origin"; req_branchName request; "--set-upstream"; "--force"]]
  ∧ (∃ posted,
       filter is_callback (effects r)
       = (if Js.truthy (req_callbackUrl request)
          then [HttpPostCallback (req_callbackUrl request) posted]
          else [])
       ∧ res_success posted = true
       ∧ res_taskId posted = req_taskId request)
  ∧ res_error result = None
  ∧ res_testsPass result = true ∧ res_typecheckPass result = true.
Proof.
  intros r worktreePath Hresult Hsuccess.
  pose proof (execute_success_pushed request s) as Hexecute.
  subst r. unfold completion, effects in *.
  destruct (execute workspaceRoot extractLearnings w request s) as [[c s'] t].
  cbn in *. subst c. exact (Hexecute Hsuccess).
Qed.

End PipelineFacts.

Section EmitFacts.
Context {St Ev : Type}.

Lemma emits_only_weaken {A} (φ ψ : Ev → bool) (m : Eff St Ev A) :
  emits_only φ m → (∀ e, φ e = true → ψ e = true) → emits_only ψ m.
Proof. intros Hm Hφ s. eapply Forall_impl; [apply Hm|]. exact Hφ. Qed.

(** A step, in front of a continuation that is run on the values the
    step can return. *)
Lemma emits_only_bind_returned {A B} (φ : Ev → bool) (V : A → Prop)
    (m : Eff St Ev A) (k : A → Eff St Ev B) :
  emits_only φ m → on_return m (λ a _, V a) →
  (∀ a, V a → emits_only φ (k a)) → emits_only φ (bind m k).
Proof.
  intros Hm HV Hk s. specialize (Hm s). specialize (HV s). unfold bind, effects in *.
  destruct (m s) as [[[a|e] s1] t1]; simpl in *; [|done].
  specialize (Hk a HV s1). unfold effects in Hk.
  destruct (k a s1) as [[c s2] t2]. simpl in *. by apply Forall_app.
Qed.

Lemma emits_only_bind_throw {A B} (φ : Ev → bool) (e : string) (k : A → Eff St Ev B) :
  emits_only φ (bind (throw e) k).
Proof. intros s. constructor. Qed.

Lemma triple_returned {A B} (V : A → Prop) (m : Eff St Ev A) (k : A → Eff St Ev B)
    (Q : B → St → Prop) (E : string → St → Prop) :
  triple (λ _, True) m (λ a _, V a) E →
  (∀ a, V a → triple (λ _, True) (k a) Q E) →
  triple (λ _, True) (bind m k) Q E.
Proof.
  intros Hm Hk. apply triple_bind with (R := λ a _, V a); [exact Hm|].
  intros a s Ha. by apply Hk.
Qed.

End EmitFacts.

Section OutcomeFacts.
Import Server ExecutionAgent Pipeline.
Variable workspaceRoot : string.
Variable extractLearnings : string → list string.
Variable w : World.

Lemma local_is_not_commit_or_push (e : Effect) :
  is_local e = true → negb (is_commit_or_push e) = true.
Proof. unfold is_local. by destruct (is_callback e), (is_commit_or_push e). Qed.

(** X22. A run whose worktree shows no changed file never commits and
    never pushes, and is never reported as a success. *)
Theorem execute_without_changes (request : ExecutionRequest) (s : State) :
  changed_files w = [] →
  let r := execute workspaceRoot extractLearnings w request s in
  filter is_commit_or_push (effects r) = []
  ∧ ∃ failure, completion r = Normal failure ∧ res_success failure = false.
Proof.
  intros Hnone r. split.
  - assert (emits_only (λ e, negb (is_commit_or_push e))
              (execute workspaceRoot extractLearnings w request)) as Hemits.
    { assert (∀ A (m : Run A), emits_only is_local m
                → emits_only (λ e, negb (is_commit_or_push e)) m) as Hlocal.
      { intros A m Hm. eapply emits_only_weaken; [exact Hm|].
        exact local_is_not_commit_or_push. }
      unfold execute. cbv zeta.
      apply emits_only_bind; [solve_emits|intros _].
      apply emits_only_try_catch.
      - unfold execute_try. cbv zeta.
        apply emits_only_bind; [apply Hlocal, cloneIfNeeded_local|intros _].
        apply emits_only_bind; [apply Hlocal, createWorktree_local|intros worktreePath].
        apply emits_only_bind; [apply Hlocal, update_state_local|intros _].
        apply emits_only_bind; [apply Hlocal, installDependencies_local|intros _].
        apply emits_only_bind; [apply Hlocal, getProgressContext_local|intros ?].
        apply emits_only_bind; [apply Hlocal, generatePromptFile_local|intros ?].
        apply emits_only_bind; [apply Hlocal, run_local|intros ?].
        apply emits_only_bind; [apply Hlocal, update_state_local|intros _].
        apply emits_only_bind; [solve_emits|intros _].
        apply emits_only_bind; [apply Hlocal, update_state_local|intros _].
        apply emits_only_bind; [apply Hlocal, runAll_local|intros qualityResult].
        destruct (negb _ || negb _).
        + apply emits_only_bind; [apply Hlocal, update_state_local|intros _].
          apply emits_only_bind; [apply Hlocal, (read_state_local w)|intros state].
          solve_emits.
        + apply (emits_only_bind_returned _ (λ changedFiles, changedFiles = [])).
          * unfold GitManager.getChangedFiles, probe. solve_emits.
          * eapply on_return_weaken; [apply (getChangedFiles_returns w)|].
            intros changedFiles t [-> _]. exact Hnone.
          * intros ? ->. cbn [length Nat.eqb]. apply emits_only_bind_throw.
      - intros message. unfold execute_catch, notifyCallback, perform.
        pose proof (update_state_local) as Hupdate.
        solve_emits; try (apply Hlocal; solve_emits); eauto using read_state_local. }
    subst r. apply (filter_none (λ e, negb (is_commit_or_push e))); [|apply Hemits].
    intros e. by destruct (is_commit_or_push e).
  - pose proof (execute_never_throws workspaceRoot extractLearnings w request s)
      as [failure Hfailure].
    pose proof (execute_success_pushed workspaceRoot extractLearnings w request s)
      as Hpushed.
    subst r. unfold completion in *.
    destruct (execute workspaceRoot extractLearnings w request s) as [[c s'] t].
    cbn in *. subst c. exists failure. split; [done|].
    destruct (res_success failure); [|done].
    destruct (Hpushed eq_refl) as (_ & Hchanged & _). by destruct Hchanged.
Qed.

(** *** When nothing essential fails *)

Section Essential.
Hypothesis Hessential : ∀ op, op ∉ tolerated → outcome w op = None.

(** An operation outside the tolerated ones goes through. *)
Ltac essential op :=
  rewrite (Hessential op)
    by (unfold tolerated;
        repeat (apply not_elem_of_cons; split; [discriminate|]); apply not_elem_of_nil).

Lemma cloneIfNeeded_goes_through (repoUrl targetPath : string) :
  triple (λ _, True) (GitManager.cloneIfNeeded w repoUrl targetPath)
    (λ _ _, True) (λ _ _, False).
Proof.
  intros s _.
  unfold GitManager.cloneIfNeeded, perform, probe, bind, try_catch, emit, settle.
  essential MkdirWorkspace. essential Clone.
  by destruct (outcome w AccessGitDir), (outcome w FetchExisting).
Qed.

Lemma createWorktree_goes_through (repoPath branchName baseBranch : string) :
  triple (λ _, True) (GitManager.createWorktree w repoPath branchName baseBranch)
    (λ worktreePath _, worktreePath = path_join [repoPath; ".worktrees"; branchName])
    (λ _ _, False).
Proof.
  intros s _.
  unfold GitManager.createWorktree, GitManager.disk_add, GitManager.disk_remove,
    perform, bind, try_catch, emit, settle, modify_state, ret, throw.
  essential MkdirWorktrees. essential FetchOrigin. essential WorktreeAdd.
  by destruct (outcome w WorktreeRemoveStale).
Qed.

Lemma installDependencies_goes_through (worktreePath : string) :
  triple (λ _, True) (QualityChecker.installDependencies w worktreePath)
    (λ _ _, True) (λ _ _, False).
Proof.
  intros s _.
  unfold QualityChecker.installDependencies, QualityChecker.execAsync, perform, probe,
    bind, try_catch, emit, settle, ret, throw.
  essential NpmInstall. by destruct (outcome w AccessNodeModules).
Qed.

Lemma getProgressContext_goes_through (repoPath : string) :
  triple (λ _, True) (getProgressContext w repoPath) (λ _ _, True) (λ _ _, False).
Proof.
  intros s _. unfold getProgressContext, probe, bind, try_catch, settle, ret.
  by destruct (outcome w ReadProgressFile).
Qed.

Lemma generatePromptFile_goes_through (worktreePath taskDescription progressContext : string) :
  triple (λ _, True)
    (ClaudeRunner.generatePromptFile w worktreePath taskDescription progressContext)
    (λ _ _, True) (λ _ _, False).
Proof.
  intros s _. unfold ClaudeRunner.generatePromptFile, perform, bind, emit, settle.
  essential MkdirRalph. by essential WritePromptFile.
Qed.

Lemma runAll_goes_through (worktreePath : string) :
  triple (λ _, True) (QualityChecker.runAll w worktreePath)
    (λ results _, QualityChecker.typecheck results = true
                  ∧ QualityChecker.tests results = true)
    (λ _ _, False).
Proof.
  intros s _.
  unfold QualityChecker.runAll, QualityChecker.runTypecheck, QualityChecker.runTests,
    QualityChecker.runLint, QualityChecker.execAsync, perform, probe,
    bind, try_catch, emit, settle, ret, throw.
  essential AccessPackageJson. essential NpmRunTypecheck. essential NpmTest.
  destruct (outcome w NpmRunLint) as [m|]; cbn; [|done].
  by destruct (Js.includes "Missing script" m).
Qed.

Lemma getChangedFiles_goes_through (worktreePath : string) :
  triple (λ _, True) (GitManager.getChangedFiles w worktreePath)
    (λ changedFiles _, changedFiles = changed_files w) (λ _ _, False).
Proof.
  intros s _. unfold GitManager.getChangedFiles, probe, bind, settle.
  by essential StatusChanged.
Qed.

Lemma commit_goes_through (worktreePath message : string) :
  staged_files w ≠ [] →
  triple (λ _, True) (GitManager.commit w worktreePath message)
    (λ _ _, True) (λ _ _, False).
Proof.
  intros Hstaged s _.
  unfold GitManager.commit, perform, probe, bind, emit, settle, ret, throw.
  essential AddConfigName. essential AddConfigEmail. essential AddAll.
  essential StatusStaged. essential Commit.
  by destruct (staged_files w).
Qed.

Lemma push_goes_through (worktreePath branchName : string) :
  triple (λ _, True) (GitManager.push w worktreePath branchName)
    (λ _ _, True) (λ _ _, False).
Proof.
  intros s _. unfold GitManager.push, perform, bind, emit, settle.
  by essential Push.
Qed.

Lemma deleteWorktree_goes_through (repoPath worktreePath : string) :
  triple (λ _, True) (GitManager.deleteWorktree w repoPath worktreePath)
    (λ _ _, True) (λ _ _, False).
Proof.
  intros s _.
  unfold GitManager.deleteWorktree, GitManager.disk_remove, perform, bind,
    try_catch, emit, settle, modify_state, ret.
  by destruct (outcome w WorktreeRemove).
Qed.

Lemma execute_try_goes_through (executionId : string) (request : ExecutionRequest) :
  claude_success (claude w) = true →
  changed_files w ≠ [] →
  staged_files w ≠ [] →
  triple (λ _, True)
    (execute_try workspaceRoot extractLearnings w executionId request)
    (λ result _, res_success result = true) (λ _ _, False).
Proof.
  intros Hclaude Hchanged Hstaged. unfold execute_try. cbv zeta.
  apply (triple_returned (λ _, True)); [apply cloneIfNeeded_goes_through|intros _ _].
  apply (triple_returned (λ _, True));
    [eapply triple_weaken; [apply createWorktree_goes_through|..]; done|
     intros worktreePath _].
  apply (triple_returned (λ _, True)); [by apply triple_modify_state|intros _ _].
  apply (triple_returned (λ _, True)); [apply installDependencies_goes_through|intros _ _].
  apply (triple_returned (λ _, True)); [apply getProgressContext_goes_through|intros ? _].
  apply (triple_returned (λ _, True)); [apply generatePromptFile_goes_through|intros ? _].
  apply (triple_returned (λ c, c = claude w)); [by intros s _|intros ? ->].
  apply (triple_returned (λ _, True)); [by apply triple_modify_state|intros _ _].
  rewrite Hclaude. cbn [negb].
  apply (triple_returned (λ _, True)); [by apply triple_ret|intros _ _].
  apply (triple_returned (λ _, True)); [by apply triple_modify_state|intros _ _].
  apply (triple_returned (λ results, QualityChecker.typecheck results = true
                                     ∧ QualityChecker.tests results = true));
    [apply runAll_goes_through|intros qualityResult [-> ->]].
  cbn [negb orb].
  apply (triple_returned (λ changedFiles, changedFiles = changed_files w));
    [apply getChangedFiles_goes_through|intros ? ->].
  destruct (changed_files w) as [|f fs] eqn:Hfiles; [done|]. cbn [length Nat.eqb].
  apply (triple_returned (λ _, True)); [by apply triple_ret|intros _ _].
  apply (triple_returned (λ _, True)); [by apply commit_goes_through|intros _ _].
  apply (triple_returned (λ _, True)); [apply push_goes_through|intros _ _].
  apply (triple_returned (λ _, True)); [by intros s _|intros state _].
  apply (triple_returned (λ _, True)).
  { intros s _. destruct (Js.truthy (req_callbackUrl request)); [|done].
    by rewrite notifyCallback_run. }
  intros _ _.
  apply (triple_returned (λ _, True)); [apply deleteWorktree_goes_through|intros _ _].
  apply (triple_returned (λ _, True)); [by apply triple_modify_state|intros _ _].
  apply (triple_returned (λ _, True)); [by apply triple_modify_state|intros _ _].
  apply (triple_returned (λ _, True)); [by intros s _|intros state' _].
  by apply triple_ret.
Qed.

End Essential.

(** X23. The failures the pipeline absorbs.  When the coding agent
    succeeds, the worktree has changed and staged files, and every
    operation goes through but, possibly, the tolerated ones (the check
    and the fetch of an existing clone, the removal of a stale worktree,
    the look for [node_modules], the read of the progress file, the lint,
    the delivery of the callback and the final removal of the worktree),
    [execute] returns a success. *)
Theorem execute_succeeds_despite_tolerated_failures (request : ExecutionRequest)
    (s : State) :
  (∀ op, op ∉ tolerated → outcome w op = None) →
  claude_success (claude w) = true →
  changed_files w ≠ [] →
  staged_files w ≠ [] →
  ∃ result,
    completion (execute workspaceRoot extractLearnings w request s) = Normal result
    ∧ res_success result = true.
Proof.
  intros Hessential Hclaude Hchanged Hstaged.
  assert (triple (λ _, True) (execute workspaceRoot extractLearnings w request)
            (λ result _, res_success result = true) (λ _ _, False)) as Hexecute.
  { unfold execute. cbv zeta.
    apply (triple_returned (λ _, True)); [by apply triple_modify_state|intros _ _].
    eapply triple_try_catch; [by apply execute_try_goes_through|].
    by intros e s' []. }
  specialize (Hexecute s I). unfold completion.
  destruct (execute workspaceRoot extractLearnings w request s) as [[[result|e] s'] t];
    [|done].
  by exists result.
Qed.

(** *** The record of an execution *)


Lemma update_state_recorded (executionId taskId : string)
    (f : ExecutionState → ExecutionState) :
  (∀ e, exec_taskId (f e) = exec_taskId e) →
  preserves (Ev:=Effect) (recorded executionId taskId) (update_state executionId f).
Proof.
  intros Hf. apply preserves_modify_state. intros s (e & He & Ht).
  exists (f e). cbn. rewrite lookup_alter_eq, He. split; [done|]. by rewrite Hf.
Qed.

Lemma disk_add_recorded (executionId taskId path : string) :
  preserves (Ev:=Effect) (recorded executionId taskId) (GitManager.disk_add path).
Proof. by apply preserves_modify_state. Qed.

Lemma disk_remove_recorded (executionId taskId path : string) :
  preserves (Ev:=Effect) (recorded executionId taskId) (GitManager.disk_remove path).
Proof. by apply preserves_modify_state. Qed.

Lemma createWorktree_recorded (executionId taskId repoPath branchName baseBranch : string) :
  preserves (recorded executionId taskId)
    (GitManager.createWorktree w repoPath branchName baseBranch).
Proof.
  pose proof (disk_add_recorded executionId taskId).
  pose proof (disk_remove_recorded executionId taskId).
  pose proof (perform_stateless w).
  unfold GitManager.createWorktree. cbv zeta. solve_preserves.
Qed.

Lemma deleteWorktree_recorded (executionId taskId repoPath worktreePath : string) :
  preserves (recorded executionId taskId)
    (GitManager.deleteWorktree w repoPath worktreePath).
Proof.
  pose proof (disk_remove_recorded executionId taskId).
  pose proof (perform_stateless w).
  unfold GitManager.deleteWorktree. solve_preserves.
Qed.


Lemma execute_try_settled (executionId : string) (request : ExecutionRequest) :
  triple (recorded executionId (req_taskId request))
    (execute_try workspaceRoot extractLearnings w executionId request)
    (settled executionId request)
    (λ _, recorded executionId (req_taskId request)).
Proof.
  pose proof (perform_stateless w). pose proof (probe_stateless w).
  assert (∀ f, (∀ e, exec_taskId (f e) = exec_taskId e) →
               preserves (Ev:=Effect) (recorded executionId (req_taskId request))
                 (update_state executionId f)) as Hupdate
    by (intros f; apply update_state_recorded).
  unfold execute_try. cbv zeta.
  apply triple_step;
    [apply stateless_preserves, cloneIfNeeded_stateless|done|intros _].
  apply triple_step; [apply createWorktree_recorded|done|intros worktreePath].
  apply triple_step; [by apply Hupdate|done|intros _].
  apply triple_step;
    [apply stateless_preserves, installDependencies_stateless|done|intros _].
  apply triple_step;
    [apply stateless_preserves, getProgressContext_stateless|done|intros ?].
  apply triple_step;
    [apply stateless_preserves, generatePromptFile_stateless|done|intros ?].
  apply triple_step; [apply stateless_preserves, run_stateless|done|intros claudeResult].
  apply triple_step; [by apply Hupdate|done|intros _].
  apply triple_step; [apply stateless_preserves; solve_stateless|done|intros _].
  apply triple_step; [by apply Hupdate|done|intros _].
  apply triple_step; [apply stateless_preserves, runAll_stateless|done|intros qualityResult].
  destruct (negb _ || negb _).
  - intros s (e & He & Ht).
    unfold update_state, read_state, bind, modify_state, get_state, ret. cbn.
    rewrite lookup_alter_eq, He. cbn. exists (set_status failed e). cbn.
    by rewrite lookup_alter_eq, He.
  - apply triple_step;
      [apply stateless_preserves, getChangedFiles_stateless|done|intros changedFiles].
    apply triple_step; [apply stateless_preserves; solve_stateless|done|intros _].
    apply triple_step; [apply stateless_preserves, commit_stateless|done|intros _].
    apply triple_step; [apply stateless_preserves, push_stateless|done|intros _].
    apply triple_step; [apply stateless_preserves, read_state_stateless|done|intros state].
    apply triple_step;
      [apply stateless_preserves; destruct (Js.truthy _);
       [apply notifyCallback_stateless|apply stateless_ret]
      |done|intros _].
    apply triple_step; [apply deleteWorktree_recorded|done|intros _].
    intros s (e & He & Ht).
    unfold update_state, read_state, bind, modify_state, get_state, ret. cbn.
    rewrite !lookup_alter_eq, He. cbn.
    exists (set_completedAt (now_iso (finished w)) (set_status completed e)). cbn.
    by rewrite !lookup_alter_eq, He.
Qed.

(** X24. The record of an execution.  When [execute] returns, the
    agent holds, under the id it generated, a record for the task of the
    request whose status is [completed] if the result is a success and
    [failed] otherwise: never [running].  The logs and learnings of the
    result are those of the record. *)
Theorem execute_settles_the_record (request : ExecutionRequest) (s : State) :
  let r := execute workspaceRoot extractLearnings w request s in
  ∃ result e,
    completion r = Normal result
    ∧ getStatus (generateExecutionId w) (final_state r) = Some e
    ∧ exec_taskId e = req_taskId request
    ∧ exec_status e = (if res_success result then completed else failed)
    ∧ res_logs result = Js.join Js.nl (exec_logs e)
    ∧ res_learnings result = exec_learnings e.
Proof.
  cbn zeta.
  assert (triple (λ _, True) (execute workspaceRoot extractLearnings w request)
            (settled (generateExecutionId w) request) (λ _ _, False)) as Hexecute.
  { unfold execute. cbv zeta.
    apply triple_bind with
      (R := λ _, recorded (generateExecutionId w) (req_taskId request)).
    { apply triple_modify_state. intros s0 _. eexists. cbn.
      by rewrite lookup_insert_eq. }
    intros _. eapply triple_try_catch; [apply execute_try_settled|].
    intros message s0 (e & He & Ht). rewrite execute_catch_run. cbn.
    rewrite !lookup_alter_eq, He. cbn.
    exists (set_completedAt (now_iso (finished w)) (set_status failed e)). cbn.
    by rewrite !lookup_alter_eq, He. }
  specialize (Hexecute s I). unfold completion, final_state, getStatus.
  destruct (execute workspaceRoot extractLearnings w request s) as [[[result|e] s'] t];
    [|done].
  destruct Hexecute as (e & He & Hrest). by exists result, e.
Qed.

End OutcomeFacts.

(** ** The entry point of the task state store *)


(** The comparisons of a written path or method with those of the
    routes. *)
Ltac compare_routes :=
  repeat match goal with
         | |- context [String.eqb ?a ?b] =>
             let v := eval vm_compute in (String.eqb a b) in
             match v with true => idtac | false => idtac end;
             change (String.eqb a b) with v
         end;
  cbn [andb].

Section FetchFacts.
Import Store RalphStateDO.
Variable env : Env.
Variable clock : Clock.

Lemma is_route (path verb p m : string) :
  String.eqb path p && String.eqb verb m = true ↔ (path, verb) = (p, m).
Proof.
  rewrite andb_true_iff, !String.eqb_eq. split; [by intros [-> ->]|by intros [= -> ->]].
Qed.

(** X25. A request whose path and method are not those of one of the
    seven routes (a [GET] on [/enqueue], a [POST] on [/get-prd], any
    other path) is answered 404 "Not Found"; the storage is not even
    read: it is left as it was and nothing is written. *)
Theorem fetch_unknown_route (request : Request) (s : Storage) :
  (pathname request, method request) ∉ routes →
  fetch env clock request s = (Normal NotFound, s, []).
Proof.
  intros Hroute. unfold fetch. cbv zeta.
  assert (∀ p m, (p, m) ∈ routes
                 → String.eqb (pathname request) p && String.eqb (method request) m
                   = false) as Hno.
  { intros p m Hin. apply not_true_is_false. intros Heq%is_route.
    apply Hroute. by rewrite Heq. }
  rewrite !Hno; [done|unfold routes; solve_listed..].
Qed.

(** X26. [fetch] answers every request and never throws: what a
    handler throws becomes a 500.  The answer of a handler is 200 or
    404.  "Not Found" is answered without reading or writing the
    storage; so is the 500 for a request whose body cannot be read,
    which carries the message of that error. *)
Theorem fetch_always_answers (request : Request) (s : Storage) :
  let r := fetch env clock request s in
  let unreadable (A : Type) (path : string) (reading : Completion A) :=
    if String.eqb (pathname request) path && String.eqb (method request) "POST"
    then match reading with
         | Throw message => r = (Normal (InternalError message), s, [])
         | Normal _ => True
         end
    else True in
  (∃ reply,
     completion r = Normal reply
     ∧ match reply with
       | Handled response => status response = 200 ∨ status response = 404
       | NotFound => final_state r = s ∧ effects r = []
       | InternalError _ => True
       end)
  ∧ unreadable Task "/enqueue" (json_task request)
  ∧ unreadable (string * ExecutionResult)%type "/complete" (json_complete request)
  ∧ unreadable (string * string)%type "/fail" (json_fail request)
  ∧ unreadable ProgressEntry "/update-progress" (json_progress request).
Proof.
  cbn zeta.
  destruct (decide ((pathname request, method request) ∈ routes)) as [Hin|Hout].
  - unfold routes in Hin.
    repeat (apply elem_of_cons in Hin as [[= Hpath Hmethod]|Hin]);
      [..|by apply elem_of_nil in Hin];
      unfold fetch; rewrite Hpath, Hmethod; compare_routes.
    + destruct (json_task request) as [task|message].
      * unfold try_catch, bind, request_json, ret. rewrite handleEnqueue_run.
        split; [|done]. eexists. split; [reflexivity|]. by left.
      * split; [by exists (InternalError message)|done].
    + destruct (json_complete request) as [[taskId result]|message].
      * unfold try_catch, bind, request_json, ret. cbn [fst snd].
        rewrite handleComplete_run. split; [|done].
        destruct (member _ _ _); destruct (res_learnings result);
          (eexists; split; [reflexivity|]); cbn; by auto.
      * split; [by exists (InternalError message)|done].
    + destruct (json_fail request) as [[taskId message]|message].
      * unfold try_catch, bind, request_json, ret. cbn [fst snd].
        rewrite handleFail_run. split; [|done].
        destruct (member _ _ _); (eexists; split; [reflexivity|]); cbn; by auto.
      * split; [by exists (InternalError message)|done].
    + unfold try_catch, bind. rewrite handleGetNextTask_run.
      split; [|done]. eexists. split; [reflexivity|]. by left.
    + unfold try_catch, bind. rewrite handleGetPRD_run.
      split; [|done]. eexists. split; [reflexivity|]. by left.
    + split; [|done]. eexists. split; [reflexivity|]. by left.
    + destruct (json_progress request) as [entry|message].
      * split; [|done]. eexists. split; [reflexivity|]. by left.
      * split; [by exists (InternalError message)|done].
  - assert (∀ p m, (p, m) ∈ routes
                   → String.eqb (pathname request) p && String.eqb (method request) m
                     = false) as Hno.
    { intros p m Hin. apply not_true_is_false. intros Heq%is_route.
      apply Hout. by rewrite Heq. }
    unfold fetch. cbv zeta.
    rewrite !Hno; [|unfold routes; solve_listed..]. split; [by exists NotFound|done].
Qed.

End FetchFacts.

(** ** Retries *)


Section RetryFacts.
Import Common.
Context {Ev A : Type}.
Variable sleeping : Z → Ev.

Lemma retry_loop_unfold {St} (fn : Eff St Ev A) (options : RetryOptions)
    (remaining : nat) (delay : Z) :
  retry_loop sleeping fn options (S remaining) delay
  = try_catch fn
      (λ error,
         match remaining with
         | 0 => throw error
         | S _ =>
             bind (emit (sleeping delay))
               (λ _, retry_loop sleeping fn options remaining (next_delay options delay))
         end).
Proof. reflexivity. Qed.



End RetryFacts.


(** ** The callback of the execution server *)

Section CoordinatorFacts.
Import Store RalphStateDO GitHub Common Coordinator.
Variable env : Env.
Variable clock : Clock.
Variable pull_request : nat → Completion GitHubPR.

(** The requests of the callback, as the actor serves them. *)
Lemma fetch_get_prd (s : Storage) :
  let read := handleGetPRD (store_env env) clock s in
  fetch (store_env env) clock (get_request "/get-prd") s
  = (Normal (Handled {| Store.status := 200;
                        Store.body := BodyPRD (ledger (store_env env) clock s) |}),
     final_state read, effects read).
Proof.
  cbn zeta. unfold fetch, get_request. cbn [pathname method]. compare_routes.
  unfold try_catch, bind. rewrite handleGetPRD_run. cbn. by rewrite app_nil_r.
Qed.

Lemma fetch_post_fail (taskId message : string) (s : Storage) :
  let r := handleFail (store_env env) clock taskId message s in
  ∃ reply,
    fetch (store_env env) clock (post_fail taskId message) s
    = (Normal reply, final_state r, effects r).
Proof.
  cbn zeta. unfold fetch, post_fail. cbn [pathname method json_fail]. compare_routes.
  unfold try_catch, bind, request_json, ret. cbn [fst snd].
  rewrite handleFail_run.
  destruct (member _ _ _); cbn; rewrite app_nil_r; by eexists.
Qed.

Lemma fetch_post_complete (taskId : string) (result : ExecutionResult) (s : Storage) :
  let r := handleComplete (store_env env) clock taskId result s in
  ∃ reply,
    fetch (store_env env) clock (post_complete taskId result) s
    = (Normal reply, final_state r, effects r).
Proof.
  cbn zeta. unfold fetch, post_complete. cbn [pathname method json_complete].
  compare_routes.
  unfold try_catch, bind, request_json, ret. cbn [fst snd].
  rewrite handleComplete_run.
  destruct (member _ _ _); destruct (res_learnings result);
    cbn; rewrite app_nil_r; by eexists.
Qed.

(** The worker's side of a request to the actor. *)
Lemma stub_fetch_run (request : Request) (reply : Reply)
    (storage' : Storage) (t : list Store.Effect) (s : State) :
  fetch (store_env env) clock request (storage s) = (Normal reply, storage', t) →
  stub_fetch env clock request s
  = (Normal reply, {| storage := storage'; github_requests := github_requests s |},
     StoreFetch request :: map OnStore t).
Proof. intros Hfetch. unfold stub_fetch, bind, emit. by rewrite Hfetch. Qed.


(** The requests that [createPullRequest] makes for [options], and the
    sleeps between them, when it makes [n + 1] requests. *)
Lemma retry_loop_createPullRequest (options : GitHubPROptions)
    (failures : list string) (last : Completion GitHubPR) (more : nat)
    (delay : Z) (s : State) :
  let post := GitHubPost ("https://api.github.com/repos/" +:+ owner options +:+ "/"
                          +:+ repo options +:+ "/pulls") options in
  (∀ i e, failures !! i = Some e → pull_request (github_requests s + i) = Throw e) →
  pull_request (github_requests s + length failures) = last →
  (match last with Normal _ => True | Throw _ => more = 0 end) →
  retry_loop Sleep (_createPullRequest pull_request options) (retry_options 3 2000)
    (S (length failures + more)) delay s
  = (last,
     {| storage := storage s;
        github_requests := S (github_requests s + length failures) |},
     flat_map (λ delay, [post; Sleep delay])
       (backoff_delays (retry_options 3 2000) (length failures) delay)
     ++ [post]).
Proof.
  cbn zeta. revert s delay. induction failures as [|e failures IH];
    intros s delay Hfailures Hlast Hmore.
  - rewrite retry_loop_unfold. unfold try_catch, _createPullRequest, bind, emit.
    cbn [length] in *. rewrite Nat.add_0_r in *. rewrite Hlast.
    destruct last as [a|e]; [done|]. by rewrite Hmore.
  - cbn [length Nat.add]. rewrite retry_loop_unfold.
    unfold try_catch at 1. unfold _createPullRequest at 1. unfold bind at 1, emit at 1.
    rewrite <- (Nat.add_0_r (github_requests s)) at 1.
    rewrite (Hfailures 0 e eq_refl).
    unfold bind at 1, emit at 1.
    rewrite (IH {| storage := storage s; github_requests := S (github_requests s) |}
               (next_delay (retry_options 3 2000) delay)); [|..|exact Hmore].
    + cbn. do 3 f_equal. lia.
    + intros i e' Hi. cbn. rewrite <- (Hfailures (S i) e' Hi). f_equal. lia.
    + cbn. rewrite <- Hlast. f_equal. cbn. lia.
Qed.

Lemma createPullRequest_run (options : GitHubPROptions)
    (failures : list string) (last : Completion GitHubPR) (s : State) :
  let post := GitHubPost ("https://api.github.com/repos/" +:+ owner options +:+ "/"
                          +:+ repo options +:+ "/pulls") options in
  (∀ i e, failures !! i = Some e → pull_request (github_requests s + i) = Throw e) →
  pull_request (github_requests s + length failures) = last →
  (match last with
   | Normal _ => length failures < 3
   | Throw _ => length failures = 2
   end)%nat →
  createPullRequest pull_request options s
  = (last,
     {| storage := storage s;
        github_requests := S (github_requests s + length failures) |},
     flat_map (λ delay, [post; Sleep delay])
       (backoff_delays (retry_options 3 2000) (length failures) 2000)
     ++ [post]).
Proof.
  cbn zeta. intros Hfailures Hlast Hattempts.
  unfold createPullRequest, retryWithBackoff, try_catch.
  cbn [maxAttempts initialDelay retry_options].
  pose proof (retry_loop_createPullRequest options failures last
                (2 - length failures) 2000 s Hfailures Hlast) as Hrun.
  cbn zeta in Hrun.
  replace (S (length failures + (2 - length failures)))%nat with 3%nat in Hrun
    by (destruct last; lia).
  rewrite Hrun; [|destruct last; [done|lia]].
  destruct last; [done|]. cbn. by rewrite app_nil_r.
Qed.

(** [get-prd] on a storage that has an entry changes nothing. *)
Lemma entry_of_stored (senv : Store.Env) (s : Storage) (taskId : string) (task : PRDEntry) :
  entry_of senv clock s taskId = Some task →
  handleGetPRD senv clock s
  = (Normal {| Store.status := 200; Store.body := BodyPRD (ledger senv clock s) |}, s, []).
Proof.
  rewrite handleGetPRD_run.
  unfold entry_of, ledger. destruct (stored_prd s) as [prd|] eqn:Hprd; [|done].
  intros _. by destruct (initialised_stored senv clock s prd Hprd) as [-> ->].
Qed.

(** Without an entry, and with the standard [Object.prototype], a
    member is one of its functions, or itself, or missing. *)
Lemma member_standard (taskId : string) (o : list (string * PRDEntry)) :
  JsObject.get taskId o = None →
  member standard_prototype taskId o
  = if bool_decide (taskId ∈ JsObject.object_prototype_functions)
    then PrototypeFunction
    else if String.eqb taskId "__proto__" then PrototypeObject else Falsy.
Proof. unfold member. intros ->. cbn. by repeat case_match. Qed.

(** The callback for a success, up to what [prd.tasks[result.taskId]]
    yields. *)
Lemma callback_success_run (result : ExecutionResult) (s : State) :
  res_success result = true →
  let read := handleGetPRD (store_env env) clock (storage s) in
  let s1 := {| storage := final_state read; github_requests := github_requests s |} in
  let asked := StoreFetch (get_request "/get-prd") :: map OnStore (effects read) in
  let gives_up (message : string) (s2 : State) (t : list Effect) :=
    let failed :=
      handleFail (store_env env) clock (res_taskId result) message (storage s2) in
    (Normal Ok,
     {| storage := final_state failed; github_requests := github_requests s2 |},
     asked ++ t
     ++ StoreFetch (post_fail (res_taskId result) message)
        :: map OnStore (effects failed)) in
  handleExecutionCallback env clock pull_request (Normal result) s
  = match member standard_prototype (res_taskId result)
            (tasks (ledger (store_env env) clock (storage s))) with
    | Falsy => gives_up ("Task " +:+ res_taskId result +:+ " not found in PRD") s1 []
    | OwnEntry task =>
        let options :=
          {| owner := Js.or_else (GITHUB_UPSTREAM_OWNER env)
                        (GITHUB_REPO_OWNER (store_env env));
             repo := Js.or_else (GITHUB_UPSTREAM_REPO env)
                       (GITHUB_REPO_NAME (store_env env));
             title := Js.first_line (description task);
             body := generatePRBody (description task) [] (res_learnings result);
             head := GITHUB_REPO_OWNER (store_env env) +:+ ":" +:+ branchName task;
             base := "main";
             draft := false |} in
        match createPullRequest pull_request options s1 with
        | (Normal pr, s2, t) =>
            let completed :=
              handleComplete (store_env env) clock (res_taskId result)
                (set_prUrl (html_url pr) result) (storage s2) in
            (Normal Ok,
             {| storage := final_state completed; github_requests := github_requests s2 |},
             asked ++ t
             ++ StoreFetch (post_complete (res_taskId result)
                              (set_prUrl (html_url pr) result))
                :: map OnStore (effects completed)
             ++ [VibeCallTool "complete_task"
                   [("taskId", res_taskId result); ("prUrl", html_url pr);
                    ("status", "review")]])
        | (Throw message, s2, t) => gives_up message s2 t
        end
    | _ => gives_up (cannot_read_properties "split") s1 []
    end.
Proof.
  intros Hsuccess. cbn zeta.
  unfold handleExecutionCallback, try_catch, bind. cbn [ret].
  rewrite Hsuccess.
  rewrite (stub_fetch_run _ _ _ _ _ (fetch_get_prd (storage s))).
  cbn [reply_prd ret].
  set (s1 := {| storage := final_state (handleGetPRD (store_env env) clock (storage s));
                github_requests := github_requests s |}).
  destruct (member standard_prototype (res_taskId result)
              (tasks (ledger (store_env env) clock (storage s)))) as [task| | |type text|].
  - destruct (createPullRequest pull_request _ s1) as [[[pr|message] s2] t].
    + destruct (fetch_post_complete (res_taskId result) (set_prUrl (html_url pr) result)
                  (storage s2)) as (reply & Hfetch).
      cbn [set_prUrl res_taskId].
      rewrite (stub_fetch_run _ _ _ _ _ Hfetch).
      unfold completeTask, emit. cbn. by rewrite !app_nil_r.
    + destruct (fetch_post_fail (res_taskId result) message (storage s2))
        as (reply & Hfetch).
      rewrite (stub_fetch_run _ _ _ _ _ Hfetch). cbv beta iota.
      by rewrite !app_nil_r, !app_nil_l, <- !app_assoc.
  - destruct (fetch_post_fail (res_taskId result) (cannot_read_properties "split")
                (storage s1)) as (reply & Hfetch).
    unfold throw. rewrite (stub_fetch_run _ _ _ _ _ Hfetch). cbv beta iota.
    by rewrite !app_nil_r, ?app_nil_l, <- ?app_assoc.
  - destruct (fetch_post_fail (res_taskId result) (cannot_read_properties "split")
                (storage s1)) as (reply & Hfetch).
    unfold throw. rewrite (stub_fetch_run _ _ _ _ _ Hfetch). cbv beta iota.
    by rewrite !app_nil_r, ?app_nil_l, <- ?app_assoc.
  - destruct (fetch_post_fail (res_taskId result) (cannot_read_properties "split")
                (storage s1)) as (reply & Hfetch).
    unfold throw. rewrite (stub_fetch_run _ _ _ _ _ Hfetch). cbv beta iota.
    by rewrite !app_nil_r, ?app_nil_l, <- ?app_assoc.
  - destruct (fetch_post_fail (res_taskId result)
                ("Task " +:+ res_taskId result +:+ " not found in PRD")
                (storage s1)) as (reply & Hfetch).
    unfold throw. rewrite (stub_fetch_run _ _ _ _ _ Hfetch). cbv beta iota.
    by rewrite !app_nil_r, ?app_nil_l, <- ?app_assoc.
Qed.

(** X29. A success reported to the callback becomes a pull request
    and a completed task.  For a task that has an entry in the ledger,
    which it reads from the store, the coordinator
    asks GitHub for a pull request from the task's branch to [main],
    titled with the first line of the description, up to three times,
    sleeping 2000 ms and then 4000 ms between the requests; once GitHub
    answers with a pull request, it sends [complete] to the store with
    the result and the URL of the pull request (the entry then has
    [passes = true] and that URL), reports the task as completed on the
    board, and answers [ok]. *)
Theorem callback_success_creates_pull_request (result : ExecutionResult)
    (task : PRDEntry) (failures : list string) (pr : GitHubPR) (s : State) :
  res_success result = true →
  entry_of (store_env env) clock (storage s) (res_taskId result) = Some task →
  (length failures < 3)%nat →
  (∀ i e, failures !! i = Some e → pull_request (github_requests s + i) = Throw e) →
  pull_request (github_requests s + length failures) = Normal pr →
  let options :=
    {| owner := Js.or_else (GITHUB_UPSTREAM_OWNER env) (GITHUB_REPO_OWNER (store_env env));
       repo := Js.or_else (GITHUB_UPSTREAM_REPO env) (GITHUB_REPO_NAME (store_env env));
       title := Js.first_line (description task);
       body := generatePRBody (description task) [] (res_learnings result);
       head := GITHUB_REPO_OWNER (store_env env) +:+ ":" +:+ branchName task;
       base := "main";
       draft := false |} in
  let post := GitHubPost ("https://api.github.com/repos/" +:+ owner options +:+ "/"
                          +:+ repo options +:+ "/pulls") options in
  let completed :=
    handleComplete (store_env env) clock (res_taskId result)
      (set_prUrl (html_url pr) result) (storage s) in
  handleExecutionCallback env clock pull_request (Normal result) s
  = (Normal Ok,
     {| storage := final_state completed;
        github_requests := S (github_requests s + length failures) |},
     StoreFetch (get_request "/get-prd")
     :: flat_map (λ delay, [post; Sleep delay])
          (backoff_delays (retry_options 3 2000) (length failures) 2000)
     ++ [post]
     ++ StoreFetch (post_complete (res_taskId result) (set_prUrl (html_url pr) result))
        :: map OnStore (effects completed)
     ++ [VibeCallTool "complete_task"
           [("taskId", res_taskId result); ("prUrl", html_url pr);
            ("status", "review")]])
  ∧ entry_of (store_env env) clock (final_state completed) (res_taskId result)
    = Some {| description := description task;
              branchName := branchName task;
              passes := true;
              prUrl := Some (html_url pr);
              attempts := attempts task;
              lastAttemptAt := Some (now_iso clock);
              error := error task |}.
Proof.
  intros Hsuccess Hentry Hlength Hfailures Hpr. cbn zeta. split.
  - rewrite (callback_success_run result s Hsuccess). cbn zeta.
    rewrite (entry_of_stored _ _ _ _ Hentry).
    unfold entry_of in Hentry. rewrite (member_own _ _ _ _ Hentry).
    rewrite (createPullRequest_run _ failures (Normal pr)); [|done..].
    cbn. f_equal. by rewrite <- !app_assoc.
  - rewrite handleComplete_run. unfold entry_of in *. rewrite (member_own _ _ _ _ Hentry).
    destruct (res_learnings _); cbn; rewrite JsObjectFacts.get_alter_eq, Hentry;
      cbn; by rewrite Hsuccess.
Qed.

(** X30. A success that cannot be turned into a pull request is
    recorded as a failure.  The coordinator reads the ledger from the
    store.  When [prd.tasks[taskId]] is an entry and the three requests
    it makes to GitHub all fail, it gives up, after sleeps of 2000 ms
    and 4000 ms, and sends [fail] to the store with the error of the
    third request.  When there is no entry, it makes no request to
    GitHub: for an id that is the name of a member of
    [Object.prototype], the task counts as found, reading the first line
    of its description throws a [TypeError], and [fail] is sent with
    the message of that error; for any other id, [fail] is sent with
    "Task ... not found in PRD", and the ledger is then as before.  In
    every case nothing is reported to the board, and the answer is
    [ok].  (The worker reads [prd.tasks] in an isolate whose
    [Object.prototype] has its standard members only.) *)
Theorem callback_success_without_pull_request (result : ExecutionResult)
    (e1 e2 e3 : string) (s : State) :
  res_success result = true →
  pull_request (github_requests s) = Throw e1 →
  pull_request (github_requests s + 1) = Throw e2 →
  pull_request (github_requests s + 2) = Throw e3 →
  let r := handleExecutionCallback env clock pull_request (Normal result) s in
  let taskId := res_taskId result in
  let read := handleGetPRD (store_env env) clock (storage s) in
  let gives_up (message : string) (requests : nat) (posts : list Effect) :=
    let failed := handleFail (store_env env) clock taskId message (final_state read) in
    final_state r
    = {| storage := final_state failed;
         github_requests := github_requests s + requests |}
    ∧ effects r
      = StoreFetch (get_request "/get-prd") :: map OnStore (effects read)
        ++ posts
        ++ StoreFetch (post_fail taskId message) :: map OnStore (effects failed) in
  completion r = Normal Ok
  ∧ match entry_of (store_env env) clock (storage s) taskId with
    | Some task =>
        let options :=
          {| owner := Js.or_else (GITHUB_UPSTREAM_OWNER env)
                        (GITHUB_REPO_OWNER (store_env env));
             repo := Js.or_else (GITHUB_UPSTREAM_REPO env)
                       (GITHUB_REPO_NAME (store_env env));
             title := Js.first_line (description task);
             body := generatePRBody (description task) [] (res_learnings result);
             head := GITHUB_REPO_OWNER (store_env env) +:+ ":" +:+ branchName task;
             base := "main";
             draft := false |} in
        let post := GitHubPost ("https://api.github.com/repos/" +:+ owner options +:+ "/"
                                +:+ repo options +:+ "/pulls") options in
        gives_up e3 3 [post; Sleep 2000; post; Sleep 4000; post]
    | None =>
        if bool_decide (taskId ∈ "__proto__" :: JsObject.object_prototype_functions)
        then gives_up "Cannot read properties of undefined (reading 'split')" 0 []
        else gives_up ("Task " +:+ taskId +:+ " not found in PRD") 0 []
             ∧ ledger (store_env env) clock (storage (final_state r))
               = ledger (store_env env) clock (storage s)
    end.
Proof.
  intros Hsuccess H1 H2 H3. cbn zeta.
  rewrite (callback_success_run result s Hsuccess). cbn zeta.
  unfold entry_of.
  destruct (JsObject.get (res_taskId result)
              (tasks (ledger (store_env env) clock (storage s)))) as [task|] eqn:Hentry.
  - rewrite (member_own _ _ _ _ Hentry).
    rewrite (entry_of_stored _ _ _ _ Hentry).
    rewrite (createPullRequest_run _ [e1; e2] (Throw e3)); [|try done..].
    + cbn. split; [done|]. split; [|done]. do 2 f_equal. lia.
    + intros [|[|i]] e; cbn; [intros [= <-]..|done].
      * by rewrite Nat.add_0_r.
      * exact H2.
  - rewrite (member_standard _ _ Hentry).
    destruct (decide (res_taskId result ∈ JsObject.object_prototype_functions))
      as [Hfunction|Hfunction].
    { rewrite (bool_decide_true _ Hfunction).
      rewrite bool_decide_true by (apply elem_of_cons; by right).
      split; [done|]. split; [|done]. cbn. by rewrite Nat.add_0_r. }
    rewrite (bool_decide_false _ Hfunction).
    destruct (String.eqb (res_taskId result) "__proto__") eqn:Hproto.
    { apply String.eqb_eq in Hproto.
      rewrite bool_decide_true by (apply elem_of_cons; by left).
      split; [done|]. split; [|done]. cbn. by rewrite Nat.add_0_r. }
    apply String.eqb_neq in Hproto.
    rewrite bool_decide_false by (by intros [|]%elem_of_cons).
    split; [done|]. split; [split; [|done]; cbn; by rewrite Nat.add_0_r|].
    cbn [final_state fst snd storage].
    rewrite handleFail_run, handleGetPRD_run. cbn zeta. cbn [final_state fst snd].
    change (tasks (ledger (store_env env) clock
                     (initialised (store_env env) clock (storage s))))
      with (tasks (ledger (store_env env) clock (storage s))).
    unfold member, given_string.
    apply String.eqb_neq in Hproto.
    rewrite Hentry, (bool_decide_false _ Hfunction), Hproto.
    by repeat case_match.
Qed.

End CoordinatorFacts.

(** ** The properties at concrete cases *)

(** Enqueueing T2 leaves the entry of T1 as it is. *)
Lemma handlers_touch_one_entry_witness :
  Store.entry_of Samples.env_a Samples.clock_b
    (final_state
       (Store.handleEnqueue Samples.env_a Samples.clock_b Samples.task_t2
          Samples.storage_one_queued)) "T1"
  = Store.entry_of Samples.env_a Samples.clock_b Samples.storage_one_queued "T1".
Proof.
  exact (proj1 (handlers_touch_one_entry Samples.env_a Samples.clock_b Samples.task_t2
                  "Tests failed" Samples.result_with_learning "T1"
                  Samples.storage_one_queued ltac:(discriminate))).
Defined.

(** T1 is enqueued on an empty store and then completed with a
    learning. *)
Lemma enqueue_then_complete :
  rtc (Store.step Samples.env_a) Store.storage_empty
    (final_state
       (Store.handleComplete Samples.env_a Samples.clock_b "T1"
          Samples.result_with_learning Cases.storage_enqueued)).
Proof.
  eapply rtc_l; [apply (Store.step_enqueue _ Samples.clock_a Samples.task_t1)|].
  apply rtc_once.
  apply (Store.step_complete _ Samples.clock_b "T1" Samples.result_with_learning).
Defined.

Lemma progress_log_append_only_witness :
  ∃ suffix,
    Store.progress_log
      (final_state
         (Store.handleComplete Samples.env_a Samples.clock_b "T1"
            Samples.result_with_learning Cases.storage_enqueued))
    = Store.progress_log Store.storage_empty +:+ suffix.
Proof.
  exact (progress_log_append_only Samples.env_a Samples.clock_a _ _ enqueue_then_complete).
Defined.

Lemma ledger_version_never_decreases_witness :
  (Store.version (Store.ledger Samples.env_a Samples.clock_a Store.storage_empty)
   ≤ Store.version
       (Store.ledger Samples.env_a Samples.clock_a
          (final_state
             (Store.handleComplete Samples.env_a Samples.clock_b "T1"
                Samples.result_with_learning Cases.storage_enqueued))))%nat.
Proof.
  exact (ledger_version_never_decreases Samples.env_a Samples.clock_a _ _
           enqueue_then_complete).
Defined.

(** T1, once enqueued, is still in the ledger after a failure report
    for it. *)
Lemma ledger_entries_never_removed_witness :
  is_Some
    (Store.entry_of Samples.env_a Samples.clock_a
       (final_state
          (Store.handleFail Samples.env_a Samples.clock_b "T1" "Tests failed"
             Cases.storage_enqueued)) "T1").
Proof.
  apply (ledger_entries_never_removed Samples.env_a Samples.clock_a
           Cases.storage_enqueued _ "T1").
  - apply rtc_once.
    apply (Store.step_fail _ Samples.clock_b "T1" "Tests failed").
  - vm_compute. by eexists.
Defined.

(** T1 is dispatched once and reported as failed once: two attempts. *)
Lemma dispatch_then_fail_counts_twice_witness :
  (Store.attempts
   <$> Store.entry_of Samples.env_a Samples.clock_b
         (final_state
            (Store.handleFail Samples.env_a Samples.clock_b "T1" "Tests failed"
               (final_state
                  (Store.alarm Samples.env_a Samples.clock_a None
                     Samples.storage_one_queued)))) "T1")
  = Some 2.
Proof.
  exact (proj2 (proj2
    (dispatch_then_fail_counts_twice Samples.env_a Samples.clock_a Samples.clock_b
       None "T1" "Tests failed" _ Samples.storage_one_queued
       ltac:(vm_compute; reflexivity) ltac:(vm_compute; reflexivity)))).
Defined.

(** The typecheck passes on the world whose tests fail, without
    [npx tsc]. *)
Lemma runAll_typecheck_verdict_witness :
  ∃ results,
    completion
      (QualityChecker.runAll Samples.world_tests_fail
         "/workspace/rocket/.worktrees/task/t1" Samples.state_empty)
    = Normal results
    ∧ QualityChecker.typecheck results = true
    ∧ Server.Exec "npx tsc --noEmit" "/workspace/rocket/.worktrees/task/t1"
      ∉ effects
          (QualityChecker.runAll Samples.world_tests_fail
             "/workspace/rocket/.worktrees/task/t1" Samples.state_empty).
Proof.
  exact (runAll_typecheck_verdict Samples.world_tests_fail
           "/workspace/rocket/.worktrees/task/t1" Samples.state_empty eq_refl).
Defined.

(** Nothing is staged: [commit] throws and runs no [git commit]. *)
Lemma commit_requires_staged_changes_witness :
  completion
    (GitManager.commit Cases.world_nothing_staged
       "/workspace/rocket/.worktrees/task/t1" "Add login" Samples.state_empty)
  = Throw "No changes to commit".
Proof.
  exact (proj2 (proj2
    (commit_requires_staged_changes Cases.world_nothing_staged
       "/workspace/rocket/.worktrees/task/t1" "Add login" Samples.state_empty eq_refl))).
Defined.

(** The title of a description in two lines is its first line. *)
Lemma commit_message_title_witness :
  Js.first_line
    (ExecutionAgent.generateCommitMessage Samples.world_success
       ("Add login" +:+ Js.nl +:+ "with a form") ["src/login.ts"])
  = "Add login".
Proof.
  exact (proj1
    (commit_message_title Samples.world_success
       ("Add login" +:+ Js.nl +:+ "with a form") "src/login.ts" ["src/login.ts"]
       ltac:(apply list_elem_of_here))).
Defined.

(** The run that succeeds from end to end ran one commit and one
    push. *)
Lemma execute_success_means_pushed_witness :
  length
    (filter Server.is_commit_or_push
       (effects
          (ExecutionAgent.execute "/workspace" Samples.no_learnings
             Samples.world_success Samples.request_a Samples.state_empty)))
  = 2.
Proof.
  destruct (execute_success_means_pushed "/workspace" Samples.no_learnings
              Samples.world_success Samples.request_a Samples.state_empty
              Cases.success_posted
              ltac:(vm_compute; reflexivity) ltac:(reflexivity))
    as (_ & _ & _ & _ & _ & Hcommands & _).
  by rewrite Hcommands.
Defined.

(** The run without changed files runs no commit and no push. *)
Lemma execute_without_changes_witness :
  filter Server.is_commit_or_push
    (effects
       (ExecutionAgent.execute "/workspace" Samples.no_learnings
          Samples.world_no_diff Samples.request_a Samples.state_empty))
  = [].
Proof.
  exact (proj1
    (execute_without_changes "/workspace" Samples.no_learnings
       Samples.world_no_diff Samples.request_a Samples.state_empty eq_refl)).
Defined.

(** The run succeeds although every tolerated operation fails. *)
Lemma execute_succeeds_despite_tolerated_failures_witness :
  ∃ result,
    completion
      (ExecutionAgent.execute "/workspace" Samples.no_learnings
         Cases.world_tolerated_failures Samples.request_a Samples.state_empty)
    = Normal result
    ∧ res_success result = true.
Proof.
  apply (execute_succeeds_despite_tolerated_failures "/workspace" Samples.no_learnings
           Cases.world_tolerated_failures Samples.request_a Samples.state_empty).
  - intros op Hop. cbn. by rewrite decide_False.
  - reflexivity.
  - discriminate.
  - discriminate.
Defined.

(** A [GET] on [/enqueue] is answered "Not Found". *)
Lemma fetch_unknown_route_witness :
  RalphStateDO.fetch Samples.env_a Samples.clock_a Cases.request_get_enqueue
    Samples.storage_one_queued
  = (Normal RalphStateDO.NotFound, Samples.storage_one_queued, []).
Proof.
  apply (fetch_unknown_route Samples.env_a Samples.clock_a Cases.request_get_enqueue
           Samples.storage_one_queued).
  unfold RalphStateDO.routes. cbn.
  repeat (apply not_elem_of_cons; split; [discriminate|]). apply not_elem_of_nil.
Defined.



(** GitHub creates the pull request at the second request: T1 passes,
    with the URL of the pull request. *)
Lemma callback_success_creates_pull_request_witness :
  (Store.prUrl
   <$> Store.entry_of Samples.env_a Samples.clock_b
         (final_state
            (Store.handleComplete Samples.env_a Samples.clock_b "T1"
               (Coordinator.set_prUrl "https://github.com/naturaumana-ai/rocket/pull/1"
                  Cases.success_posted)
               Samples.storage_one_queued)) "T1")
  = Some (Some "https://github.com/naturaumana-ai/rocket/pull/1").
Proof.
  destruct (callback_success_creates_pull_request Cases.coordinator_env Samples.clock_b
              Cases.github_second_time Cases.success_posted
              {| Store.description := "Add login"; Store.branchName := "task/t1";
                 Store.passes := false; Store.prUrl := None; Store.attempts := 0;
                 Store.lastAttemptAt := None; Store.error := None |}
              ["GitHub API error: 502 Bad Gateway - "] Cases.pull_request_1
              Cases.coordinator_state
              ltac:(reflexivity) ltac:(vm_compute; reflexivity)
              ltac:(cbn; lia)
              ltac:(intros [|i] e; cbn; [by intros [= <-]|done])
              ltac:(reflexivity))
    as [_ Hentry].
  exact (f_equal (fmap Store.prUrl) Hentry).
Defined.

(** A success is reported for the id [toString], which has no entry:
    no request is made to GitHub, the store is sent a [fail] with the
    message of the [TypeError], and takes the task for found in its
    turn, so that the ledger gets a new version. *)
Example callback_success_for_inherited_name :
  let r := Coordinator.handleExecutionCallback Cases.coordinator_env Samples.clock_b
             Cases.github_down (Normal (Cases.success_for "toString"))
             Cases.coordinator_state in
  let after :=
    Store.ledger Samples.env_a Samples.clock_b (Coordinator.storage (final_state r)) in
  completion r = Normal Coordinator.Ok
  ∧ Coordinator.github_requests (final_state r) = 0
  ∧ effects r
    = [Coordinator.StoreFetch (Coordinator.get_request "/get-prd");
       Coordinator.StoreFetch
         (Coordinator.post_fail "toString"
            "Cannot read properties of undefined (reading 'split')");
       Coordinator.OnStore (Store.StoragePutPRD after)]
  ∧ Store.version after = 3
  ∧ Store.tasks after
    = Store.tasks (Store.ledger Samples.env_a Samples.clock_b Samples.storage_one_queued).
Proof. vm_compute. by repeat split. Qed.

(** GitHub is down: the success of T1 is recorded as a failure, after
    three requests. *)
Lemma callback_success_without_pull_request_witness :
  completion
    (Coordinator.handleExecutionCallback Cases.coordinator_env Samples.clock_b
       Cases.github_down (Normal Cases.success_posted) Cases.coordinator_state)
  = Normal Coordinator.Ok.
Proof.
  exact (proj1
    (callback_success_without_pull_request Cases.coordinator_env Samples.clock_b
       Cases.github_down Cases.success_posted
       "GitHub API error: 503 Service Unavailable - "
       "GitHub API error: 503 Service Unavailable - "
       "GitHub API error: 503 Service Unavailable - "
       Cases.coordinator_state eq_refl eq_refl eq_refl eq_refl)).
Defined.
